(** * skychat-xterm: the session broker and its input validation

    A shallow embedding of

    - [app/server/utils/security.ts]   (username, dimension and input checks),
    - [app/server/services/PtyManager.ts]   (the session registry),
    - [app/server/websocket/terminal.ts]   (the per-viewer relay),

    followed by the properties the specification states about them.

    How the program is read:

    - a JavaScript string is its sequence of UTF-16 code units, a value that
      comes out of [JSON.parse] is a [JsValue], and the numbers the code
      compares or counts are integers;
    - [throw new Error(message)] is the result [Throw message]; what a
      function did before it threw stays done;
    - WebSocket, process and session objects are named by numbers; session
      objects live in a heap, the registry's [Map] holds references to them;
    - the calls the server makes on sockets and processes ([send], [close],
      [spawn], [kill], [write], [resize]) are collected, in order, as the
      events a computation emits; console output is left out;
    - the handlers the relay registers on a socket are functions of the
      variables they close over, and the events that invoke them are
      [Step]s. *)

From stdpp Require Import base numbers list strings functions.

Local Open Scope Z_scope.

(** ** JavaScript values *)

(** A string is its list of UTF-16 code units. *)
Definition JsString : Type := list N.

(** The code units of an ASCII literal. *)
Definition str (s : string) : JsString :=
  (λ a, N.of_nat (Ascii.nat_of_ascii a)) <$> String.list_ascii_of_string s.

(** A number, as far as the server looks at it: [Number.isInteger], the
    comparisons with integer constants and truthiness. A finite number with a
    fractional part is never inspected further. *)
Inductive JsNumber : Type :=
  | NumInt (z : Z)
  | NumFrac
  | NumNaN
  | NumInf (negative : bool).

(** What [JSON.parse] or an untyped caller may hand over. *)
Inductive JsValue : Type :=
  | VUndefined
  | VNull
  | VBool (b : bool)
  | VNumber (n : JsNumber)
  | VString (s : JsString)
  | VObject.

(** [if (v)] *)
Definition truthy (v : JsValue) : bool :=
  match v with
  | VUndefined | VNull => false
  | VBool b => b
  | VNumber (NumInt z) => negb (z =? 0)
  | VNumber NumNaN => false
  | VNumber _ => true
  | VString s => negb (bool_decide (s = []))
  | VObject => true
  end.

(** [Number.isInteger(v)]: false on everything that is not an integral number. *)
Definition Number_isInteger (v : JsValue) : bool :=
  match v with
  | VNumber (NumInt _) => true
  | _ => false
  end.

(** [v < k] and [v > k] for an integer constant [k], on the values for which
    the code evaluates them (after [Number.isInteger] held). *)
Definition num_lt (v : JsValue) (k : Z) : bool :=
  match v with VNumber (NumInt z) => z <? k | _ => false end.
Definition num_gt (v : JsValue) (k : Z) : bool :=
  match v with VNumber (NumInt z) => z >? k | _ => false end.

(** A function that returns or throws [new Error(message)]. *)
Inductive Result (A : Type) : Type :=
  | Ok (a : A)
  | Throw (message : string).
Arguments Ok {A} a.
Arguments Throw {A} message.

Global Instance Result_eq_dec {A} `{EqDecision A} : EqDecision (Result A).
Proof. solve_decision. Defined.

(** ** String primitives of the language *)

Module Js.

(** WhiteSpace and LineTerminator code units, the ones [trim] strips. *)
Definition isWhiteSpace (c : N) : bool :=
  ((9 <=? c) && (c <=? 13) || (c =? 32) || (c =? 160) || (c =? 0x1680)
   || (0x2000 <=? c) && (c <=? 0x200A) || (c =? 0x2028) || (c =? 0x2029)
   || (c =? 0x202F) || (c =? 0x205F) || (c =? 0x3000) || (c =? 0xFEFF))%N.

Fixpoint trimStart (s : JsString) : JsString :=
  match s with
  | c :: rest => if isWhiteSpace c then trimStart rest else s
  | [] => []
  end.

Definition trimEnd (s : JsString) : JsString := reverse (trimStart (reverse s)).

Definition trim (s : JsString) : JsString := trimEnd (trimStart s).

(** Lower-casing of one code unit. The Unicode mapping is followed wherever
    its image contains an ASCII unit: A-Z, U+0130 (which becomes the two
    units U+0069 U+0307) and the Kelvin sign U+212A (which becomes [k]).
    Every other unit is mapped by Unicode to as many non-ASCII units, and is
    kept as it is here: lengths and ASCII content are those of the
    language. *)
Definition lowerUnit (c : N) : JsString :=
  (if (65 <=? c) && (c <=? 90) then [c + 32]
   else if c =? 0x130 then [0x69; 0x307]
   else if c =? 0x212A then [0x6B]
   else [c])%N.

Definition toLowerCase (s : JsString) : JsString := s ≫= lowerUnit.

Fixpoint startsWith (needle s : JsString) : bool :=
  match needle, s with
  | [], _ => true
  | n :: needle', c :: s' => (n =? c)%N && startsWith needle' s'
  | _ :: _, [] => false
  end.

(** [s.includes(needle)] *)
Fixpoint includes (needle s : JsString) : bool :=
  startsWith needle s ||
  match s with
  | [] => false
  | _ :: s' => includes needle s'
  end.

End Js.

(** ** utils/security.ts *)

(** One unit of the class [[a-z0-9_-]]. *)
Definition isUsernameUnit (c : N) : bool :=
  ((97 <=? c) && (c <=? 122) || (48 <=? c) && (c <=? 57) || (c =? 95) || (c =? 45))%N.

(** [USERNAME_REGEX.test(s)] for [/^[a-z0-9_-]{1,32}$/]. *)
Definition USERNAME_REGEX_test (s : JsString) : bool :=
  (1 <=? length s)%nat && (length s <=? 32)%nat && forallb isUsernameUnit s.

Definition validateAndNormalizeUsername (username : JsValue) : Result JsString :=
  match username with
  | VString username =>
      let normalized := Js.toLowerCase (Js.trim username) in
      if bool_decide (length normalized = 0%nat) then
        Throw "Username cannot be empty"
      else if (32 <? length normalized)%nat then
        Throw "Username too long (max 32 characters)"
      else if negb (USERNAME_REGEX_test normalized) then
        Throw "Username must contain only lowercase letters, numbers, hyphens, and underscores"
      else if bool_decide (normalized = str ".") || bool_decide (normalized = str "..") then
        Throw "Invalid username"
      else if Js.includes (str "..") normalized then
        Throw "Invalid username"
      else Ok normalized
  | _ => Throw "Username must be a string"
  end.

Definition validateTerminalDimensions (cols rows : JsValue) : Result unit :=
  if negb (Number_isInteger cols) || num_lt cols 1 || num_gt cols 1000 then
    Throw "Invalid terminal columns (must be 1-1000)"
  else if negb (Number_isInteger rows) || num_lt rows 1 || num_gt rows 1000 then
    Throw "Invalid terminal rows (must be 1-1000)"
  else Ok tt.

Definition validatePathComponent (input : JsString) : Result unit :=
  if Js.includes [0%N] input then
    Throw "Null bytes not allowed"
  else if Js.includes (str "..") input then
    Throw "Directory traversal not allowed"
  else if Js.includes (str "/") input || Js.includes (str "\") input then
    Throw "Path separators not allowed"
  else if bool_decide (input = str ".") || bool_decide (input = str "..") then
    Throw "Invalid path component"
  else Ok tt.

Definition sanitizeTerminalInput (data : JsValue) : Result JsString :=
  match data with
  | VString data =>
      if Z.of_nat (length data) >? 10000 then Throw "Terminal input too large"
      else Ok data
  | _ => Throw "Terminal input must be a string"
  end.

(** ** The world outside the registry *)

(** Objects are named by numbers: a viewer's WebSocket, a process handle
    returned by [pty.spawn], a [PtySession] object. *)
Abbreviation WsRef := nat (only parsing).
Abbreviation PtyRef := nat (only parsing).
Abbreviation SessRef := nat (only parsing).

(** [ws.readyState] *)
Inductive ReadyState : Type := CONNECTING | OPEN | CLOSING | CLOSED.

Definition readyStateCode (s : ReadyState) : Z :=
  match s with CONNECTING => 0 | OPEN => 1 | CLOSING => 2 | CLOSED => 3 end.

(** The JSON messages the server sends to a viewer. *)
Inductive ServerMessage : Type :=
  | MsgData (data : JsString)
  | MsgConnected
  | MsgExit (code : Z)
  | MsgError (message : string).

(** The calls the server makes on sockets and processes, in the order made. *)
Inductive Event : Type :=
  | EvSpawn (p : PtyRef) (tokenDirOf : JsString)
  | EvKill (p : PtyRef)
  | EvWrite (p : PtyRef) (data : JsString)
  | EvResize (p : PtyRef) (cols rows : JsValue)
  | EvSend (ws : WsRef) (m : ServerMessage)
  | EvClose (ws : WsRef).

Global Instance JsNumber_eq_dec : EqDecision JsNumber.
Proof. solve_decision. Defined.
Global Instance JsValue_eq_dec : EqDecision JsValue.
Proof. solve_decision. Defined.
Global Instance ReadyState_eq_dec : EqDecision ReadyState.
Proof. solve_decision. Defined.
Global Instance ServerMessage_eq_dec : EqDecision ServerMessage.
Proof. solve_decision. Defined.
Global Instance Event_eq_dec : EqDecision Event.
Proof. solve_decision. Defined.

(** [interface PtySession] *)
Record PtySession : Type := MkSession {
  pty : PtyRef;
  created : Z;
  lastActivity : Z;
  subscribers : list WsRef;
}.

(** The two listeners the server registers for a process's 'exit' event: the
    registry's (in [createSession], closed over the normalized username) and
    one per viewer (in the connection handler, closed over the socket). *)
Inductive ExitListener : Type :=
  | OnExitCleanup (normalizedUsername : JsString)
  | OnceExitHandler (ws : WsRef).

(** Everything an operation can read or change. [sessions] is the registry's
    [Map], kept in insertion order; [heap] holds the session objects the map
    refers to; the remaining fields belong to the libraries and the clock. *)
Record World : Type := MkWorld {
  sessions : list (JsString * SessRef);
  heap : SessRef → PtySession;
  nextRef : SessRef;
  readyState : WsRef → ReadyState;
  dataListeners : PtyRef → list WsRef;
  exitListeners : PtyRef → list ExitListener;
  killThrows : PtyRef → bool;
  nextPty : PtyRef;
  time : nat → Z;
  clock : nat;
}.

Definition set_sessions (f : list (JsString * SessRef) → list (JsString * SessRef))
    (w : World) : World :=
  MkWorld (f (sessions w)) (heap w) (nextRef w) (readyState w) (dataListeners w)
    (exitListeners w) (killThrows w) (nextPty w) (time w) (clock w).
Definition set_heap (f : (SessRef → PtySession) → SessRef → PtySession) (w : World) : World :=
  MkWorld (sessions w) (f (heap w)) (nextRef w) (readyState w) (dataListeners w)
    (exitListeners w) (killThrows w) (nextPty w) (time w) (clock w).
Definition set_nextRef (f : SessRef → SessRef) (w : World) : World :=
  MkWorld (sessions w) (heap w) (f (nextRef w)) (readyState w) (dataListeners w)
    (exitListeners w) (killThrows w) (nextPty w) (time w) (clock w).
Definition set_readyState (f : (WsRef → ReadyState) → WsRef → ReadyState)
    (w : World) : World :=
  MkWorld (sessions w) (heap w) (nextRef w) (f (readyState w)) (dataListeners w)
    (exitListeners w) (killThrows w) (nextPty w) (time w) (clock w).
Definition set_dataListeners (f : (PtyRef → list WsRef) → PtyRef → list WsRef)
    (w : World) : World :=
  MkWorld (sessions w) (heap w) (nextRef w) (readyState w) (f (dataListeners w))
    (exitListeners w) (killThrows w) (nextPty w) (time w) (clock w).
Definition set_exitListeners
    (f : (PtyRef → list ExitListener) → PtyRef → list ExitListener) (w : World) : World :=
  MkWorld (sessions w) (heap w) (nextRef w) (readyState w) (dataListeners w)
    (f (exitListeners w)) (killThrows w) (nextPty w) (time w) (clock w).
Definition set_nextPty (f : PtyRef → PtyRef) (w : World) : World :=
  MkWorld (sessions w) (heap w) (nextRef w) (readyState w) (dataListeners w)
    (exitListeners w) (killThrows w) (f (nextPty w)) (time w) (clock w).
Definition set_clock (f : nat → nat) (w : World) : World :=
  MkWorld (sessions w) (heap w) (nextRef w) (readyState w) (dataListeners w)
    (exitListeners w) (killThrows w) (nextPty w) (time w) (f (clock w)).

(** ** Computations: state, exceptions and the calls made *)

Record Run (A : Type) : Type := MkRun {
  result : Result A;
  final : World;
  emitted : list Event;
}.
Arguments MkRun {A} result final emitted.
Arguments result {A} r.
Arguments final {A} r.
Arguments emitted {A} r.

Definition M (A : Type) : Type := World → Run A.

Definition ret {A} (a : A) : M A := λ w, MkRun (Ok a) w [].

(** Sequencing: an exception skips the rest, and keeps what was done. *)
Definition bind {A B} (m : M A) (k : A → M B) : M B := λ w,
  match m w with
  | MkRun (Ok a) w1 events1 =>
      match k a w1 with
      | MkRun r w2 events2 => MkRun r w2 (events1 ++ events2)
      end
  | MkRun (Throw e) w1 events1 => MkRun (Throw e) w1 events1
  end.

Declare Scope M_scope.
Delimit Scope M_scope with M.
Bind Scope M_scope with M.
Notation "x ← y ; z" := (bind y (λ x, z))
  (at level 20, y at level 100, z at level 200, only parsing) : M_scope.
Notation "x ;; z" := (bind x (λ _, z))
  (at level 100, z at level 200, only parsing, right associativity) : M_scope.
Local Open Scope M_scope.

Definition throw {A} (message : string) : M A := λ w, MkRun (Throw message) w [].

Definition lift {A} (r : Result A) : M A := λ w, MkRun r w [].

(** [try { body } catch (error) { handler }] *)
Definition try_catch {A} (body : M A) (handler : string → M A) : M A := λ w,
  match body w with
  | MkRun (Ok a) w1 events1 => MkRun (Ok a) w1 events1
  | MkRun (Throw e) w1 events1 =>
      match handler e w1 with
      | MkRun r w2 events2 => MkRun r w2 (events1 ++ events2)
      end
  end.

Definition gets {A} (f : World → A) : M A := λ w, MkRun (Ok (f w)) w [].
Definition modify (f : World → World) : M unit := λ w, MkRun (Ok tt) (f w) [].
Definition emit (e : Event) : M unit := λ w, MkRun (Ok tt) w [e].

(** [array.forEach(body)] and [for (const x of xs) body]. *)
Fixpoint forEach {A} (xs : list A) (body : A → M unit) : M unit :=
  match xs with
  | [] => ret tt
  | x :: xs' => body x;; forEach xs' body
  end.

(** ** The libraries the server calls *)

(** [Date.now()]: the next reading of the clock. *)
Definition Date_now : M Z := λ w,
  MkRun (Ok (time w (clock w))) (set_clock S w) [].

(** [ws.send(JSON.stringify(m))]. A socket handed to the server by the
    WebSocket server is never CONNECTING, and the library does not throw on
    the others: the call is recorded. *)
Definition ws_send (ws : WsRef) (m : ServerMessage) : M unit := emit (EvSend ws m).

(** [ws.close()]: starts the closing handshake unless the socket is closed. *)
Definition ws_close (ws : WsRef) : M unit :=
  emit (EvClose ws);;
  modify (set_readyState (λ rs,
    <[ws := match rs ws with CLOSED => CLOSED | _ => CLOSING end]> rs)).

(** [pty.spawn(...)] with [SKYCHAT_TOKEN_DIR = DATA_DIR/sessions/<username>]:
    a handle nobody holds yet. *)
Definition pty_spawn (normalizedUsername : JsString) : M PtyRef :=
  p ← gets nextPty;
  modify (set_nextPty S);;
  emit (EvSpawn p normalizedUsername);;
  ret p.

(** [pty.kill()], which may throw. *)
Definition pty_kill (p : PtyRef) : M unit :=
  emit (EvKill p);;
  fails ← gets (λ w, killThrows w p);
  if fails then throw "kill failed" else ret tt.

Definition pty_write (p : PtyRef) (data : JsString) : M unit := emit (EvWrite p data).
Definition pty_resize (p : PtyRef) (cols rows : JsValue) : M unit := emit (EvResize p cols rows).

Definition pty_on_data (p : PtyRef) (ws : WsRef) : M unit :=
  modify (set_dataListeners (λ ls, <[p := ls p ++ [ws]]> ls)).
(** [pty.removeListener('data', dataHandler)]: each connection has its own
    [dataHandler], named here by its socket. *)
Definition pty_removeListener_data (p : PtyRef) (ws : WsRef) : M unit :=
  modify (set_dataListeners (λ ls, <[p := filter (λ x, x ≠ ws) (ls p)]> ls)).
Definition pty_on_exit (p : PtyRef) (l : ExitListener) : M unit :=
  modify (set_exitListeners (λ ls, <[p := ls p ++ [l]]> ls)).

(** ** The registry's [Map<string, PtySession>] *)

Module JsMap.
Section Ops.
Context {V : Type}.

Fixpoint get (k : JsString) (m : list (JsString * V)) : option V :=
  match m with
  | [] => None
  | (k', v) :: m' => if bool_decide (k' = k) then Some v else get k m'
  end.

Definition has (k : JsString) (m : list (JsString * V)) : bool :=
  match get k m with Some _ => true | None => false end.

(** An existing key keeps its place, a new one goes last. *)
Fixpoint set (k : JsString) (v : V) (m : list (JsString * V)) : list (JsString * V) :=
  match m with
  | [] => [(k, v)]
  | (k', v') :: m' =>
      if bool_decide (k' = k) then (k, v) :: m' else (k', v') :: set k v m'
  end.

(** A key occurs once in a [Map]; whatever is under the key goes. *)
Definition delete (k : JsString) (m : list (JsString * V)) : list (JsString * V) :=
  filter (λ e, e.1 ≠ k) m.

Definition keys (m : list (JsString * V)) : list JsString := m.*1.
End Ops.
End JsMap.

(** ** Session objects *)

(** [session = { pty, created, lastActivity, subscribers }]: a new object. *)
Definition new_session (s : PtySession) : M SessRef :=
  r ← gets nextRef;
  modify (set_nextRef S);;
  modify (set_heap <[r := s]>);;
  ret r.

(** Reading the fields of a session object. *)
Definition deref (session : SessRef) : M PtySession := gets (λ w, heap w session).

(** [session.lastActivity = v] *)
Definition assign_lastActivity (session : SessRef) (v : Z) : M unit :=
  modify (set_heap (λ h,
    <[session := MkSession (pty (h session)) (created (h session)) v
                   (subscribers (h session))]> h)).

(** [session.subscribers.push(ws)] and [session.subscribers.splice(index, 1)] *)
Definition update_subscribers (session : SessRef) (f : list WsRef → list WsRef) : M unit :=
  modify (set_heap (λ h,
    <[session := MkSession (pty (h session)) (created (h session))
                   (lastActivity (h session)) (f (subscribers (h session)))]> h)).

(** ** services/PtyManager.ts *)

(** [if (ws.readyState === 1) { ws.send({type: 'exit', code}); ws.close(); }],
    the body shared by [cleanupSession] (with code 0) and the viewer's
    [exitHandler]. *)
Definition notifyExit (code : Z) (ws : WsRef) : M unit :=
  rs ← gets (λ w, readyState w ws);
  if readyStateCode rs =? 1 then
    ws_send ws (MsgExit code);;
    ws_close ws
  else ret tt.

Definition cleanupSession (username : JsString) : M unit :=
  normalizedUsername ← lift (validateAndNormalizeUsername (VString username));
  session ← gets (λ w, JsMap.get normalizedUsername (sessions w));
  match session with
  | Some session =>
      s ← deref session;
      forEach (subscribers s) (notifyExit 0);;
      try_catch (pty_kill (pty s)) (λ _, ret tt);;
      modify (set_sessions (JsMap.delete normalizedUsername))
  | None => ret tt
  end.

Definition createSession (username : JsString) : M SessRef :=
  normalizedUsername ← lift (validateAndNormalizeUsername (VString username));
  lift (validatePathComponent normalizedUsername);;
  ptyProcess ← pty_spawn normalizedUsername;
  created ← Date_now;
  lastActivity ← Date_now;
  session ← new_session (MkSession ptyProcess created lastActivity []);
  modify (set_sessions (JsMap.set normalizedUsername session));;
  pty_on_exit ptyProcess (OnExitCleanup normalizedUsername);;
  ret session.

Definition getOrCreateSession (username : JsString) (forceNew : bool) : M SessRef :=
  normalizedUsername ← lift (validateAndNormalizeUsername (VString username));
  has ← gets (λ w, JsMap.has normalizedUsername (sessions w));
  (if forceNew && has then cleanupSession normalizedUsername else ret tt);;
  session ← gets (λ w, JsMap.get normalizedUsername (sessions w));
  match session with
  | Some session =>
      now ← Date_now;
      assign_lastActivity session now;;
      ret session
  | None => createSession normalizedUsername
  end.

Definition hasActiveSession (username : JsString) : M bool :=
  normalizedUsername ← lift (validateAndNormalizeUsername (VString username));
  gets (λ w, JsMap.has normalizedUsername (sessions w)).

Definition getSession (username : JsString) : M (option SessRef) :=
  normalizedUsername ← lift (validateAndNormalizeUsername (VString username));
  gets (λ w, JsMap.get normalizedUsername (sessions w)).

Definition attachToSession (username : JsString) (ws : WsRef) : M unit :=
  normalizedUsername ← lift (validateAndNormalizeUsername (VString username));
  session ← gets (λ w, JsMap.get normalizedUsername (sessions w));
  match session with
  | Some session =>
      s ← deref session;
      if negb (bool_decide (ws ∈ subscribers s)) then
        update_subscribers session (λ l, l ++ [ws]);;
        now ← Date_now;
        assign_lastActivity session now
      else ret tt
  | None => ret tt
  end.

Definition detachFromSession (username : JsString) (ws : WsRef) : M unit :=
  normalizedUsername ← lift (validateAndNormalizeUsername (VString username));
  session ← gets (λ w, JsMap.get normalizedUsername (sessions w));
  match session with
  | Some session =>
      s ← deref session;
      match list_find (λ x, x = ws) (subscribers s) with
      | Some (index, _) => update_subscribers session (delete index)
      | None => ret tt
      end
  | None => ret tt
  end.

(** The loop of [cleanupInactiveSessions] over [this.sessions.entries()].
    [usernames] are the keys the iterator has still to reach; an entry deleted
    before the iterator reaches it is not visited. *)
Fixpoint cleanupInactiveLoop (now timeoutMs : Z) (usernames : list JsString)
    (cleaned : nat) : M nat :=
  match usernames with
  | [] => ret cleaned
  | username :: rest =>
      entry ← gets (λ w, JsMap.get username (sessions w));
      match entry with
      | Some session =>
          s ← deref session;
          if bool_decide (length (subscribers s) = 0%nat)
             && (now - lastActivity s >? timeoutMs) then
            cleanupSession username;;
            cleanupInactiveLoop now timeoutMs rest (S cleaned)
          else cleanupInactiveLoop now timeoutMs rest cleaned
      | None => cleanupInactiveLoop now timeoutMs rest cleaned
      end
  end.

Definition cleanupInactiveSessions (timeoutMs : Z) : M nat :=
  now ← Date_now;
  usernames ← gets (λ w, JsMap.keys (sessions w));
  cleanupInactiveLoop now timeoutMs usernames 0.

(** One line of [getStats().sessions]; the two dates stay timestamps. *)
Record SessionStats : Type := MkStats {
  stats_username : JsString;
  stats_created : Z;
  stats_lastActivity : Z;
  stats_subscribers : nat;
}.

Definition getStats : M (nat * list SessionStats) :=
  gets (λ w,
    (length (sessions w),
     (λ e, MkStats e.1 (created (heap w e.2)) (lastActivity (heap w e.2))
             (length (subscribers (heap w e.2)))) <$> sessions w)).

(** [for (const username of this.sessions.keys()) this.cleanupSession(username)];
    the iterator passes over a key that has been deleted meanwhile. *)
Definition shutdownAll : M unit :=
  usernames ← gets (λ w, JsMap.keys (sessions w));
  forEach usernames (λ username,
    present ← gets (λ w, JsMap.has username (sessions w));
    if present then cleanupSession username else ret tt).

(** ** websocket/terminal.ts *)

(** The fields the relay reads from [JSON.parse(message)]; an absent field is
    [undefined]. *)
Record WebSocketMessage : Type := MkMessage {
  msg_type : JsValue;
  msg_data : JsValue;
  msg_cols : JsValue;
  msg_rows : JsValue;
}.

(** How the connection's token was judged. *)
Inductive AuthOutcome : Type :=
  | NoToken
  | InvalidToken
  | Authenticated (username : JsString).

(** PTY output → WebSocket *)
Definition dataHandler (ws : WsRef) (data : JsString) : M unit :=
  rs ← gets (λ w, readyState w ws);
  if readyStateCode rs =? 1 then ws_send ws (MsgData data) else ret tt.

(** Handle PTY exit *)
Definition exitHandler (ws : WsRef) (code : Z) : M unit := notifyExit code ws.

(** [ws.on('message', ...)] of the connection of [ws], whose session's process
    is [pty]. [message] is [None] when [JSON.parse] throws or yields [null]. *)
Definition ws_on_message (ws : WsRef) (pty : PtyRef) (username : JsString)
    (message : option WebSocketMessage) : M unit :=
  try_catch
    (match message with
     | None => throw "Unexpected token"
     | Some msg =>
         if bool_decide (msg_type msg = VString (str "input")) then
           if truthy (msg_data msg) then
             try_catch
               (sanitizedInput ← lift (sanitizeTerminalInput (msg_data msg));
                pty_write pty sanitizedInput)
               (λ _, ws_send ws (MsgError "Invalid input"))
           else ret tt
         else if bool_decide (msg_type msg = VString (str "resize")) then
           if truthy (msg_cols msg) && truthy (msg_rows msg) then
             try_catch
               (lift (validateTerminalDimensions (msg_cols msg) (msg_rows msg));;
                pty_resize pty (msg_cols msg) (msg_rows msg))
               (λ _, ret tt)
           else ret tt
         else ret tt
     end)
    (λ _, ret tt).

(** [ws.on('close', ...)] *)
Definition ws_on_close (ws : WsRef) (pty : PtyRef) (username : JsString) : M unit :=
  pty_removeListener_data pty ws;;
  detachFromSession username ws.

(** [wss.on('connection', ...)] *)
Definition wss_on_connection (ws : WsRef) (auth : AuthOutcome) : M unit :=
  match auth with
  | NoToken =>
      ws_send ws (MsgError "No authentication token");;
      ws_close ws
  | InvalidToken =>
      ws_send ws (MsgError "Invalid or expired token");;
      ws_close ws
  | Authenticated username =>
      session ← getOrCreateSession username true;
      s ← deref session;
      attachToSession username ws;;
      pty_on_data (pty s) ws;;
      pty_on_exit (pty s) (OnceExitHandler ws);;
      ws_send ws MsgConnected
  end.

(** ** What the libraries do on their own *)

Definition runExitListener (code : Z) (l : ExitListener) : M unit :=
  match l with
  | OnExitCleanup normalizedUsername => cleanupSession normalizedUsername
  | OnceExitHandler ws => exitHandler ws code
  end.

Definition isOnce (l : ExitListener) : bool :=
  match l with OnceExitHandler _ => true | OnExitCleanup _ => false end.

(** The process [p] exits with [code]: its 'exit' listeners run in the order
    they were registered, the [once] ones for the last time. *)
Definition pty_emit_exit (p : PtyRef) (code : Z) : M unit :=
  listeners ← gets (λ w, exitListeners w p);
  modify (set_exitListeners (λ ls, <[p := filter (λ l, isOnce l = false) (ls p)]> ls));;
  forEach listeners (runExitListener code).

(** The process [p] writes [data]: its 'data' listeners run. *)
Definition pty_emit_data (p : PtyRef) (data : JsString) : M unit :=
  listeners ← gets (λ w, dataListeners w p);
  forEach listeners (λ ws, dataHandler ws data).

(** The peer of [ws] starts closing: the socket is CLOSING until its 'close'
    event is delivered. *)
Definition ws_peer_closing (ws : WsRef) : M unit :=
  modify (set_readyState (λ rs,
    <[ws := match rs ws with CLOSED => CLOSED | _ => CLOSING end]> rs)).

(** The server has just started: no session, every socket that will connect
    is open when it does. *)
Definition initWorld (time : nat → Z) (killThrows : PtyRef → bool) : World :=
  MkWorld [] (λ _, MkSession 0 0 0 []) 0 (λ _, OPEN) (λ _, []) (λ _, [])
    killThrows 0 time 0.

(** ** Vocabulary of the properties *)

(** What [forEach (notifyExit code)] sends over the sockets [l], given their
    states [rs] at the start, and the states it leaves. *)
Fixpoint exitNotices (code : Z) (l : list WsRef) (rs : WsRef → ReadyState) : list Event :=
  match l with
  | [] => []
  | ws :: l' =>
      if readyStateCode (rs ws) =? 1 then
        EvSend ws (MsgExit code) :: EvClose ws :: exitNotices code l' (<[ws := CLOSING]> rs)
      else exitNotices code l' rs
  end.

Fixpoint closeAll (l : list WsRef) (rs : WsRef → ReadyState) : WsRef → ReadyState :=
  match l with
  | [] => rs
  | ws :: l' =>
      if readyStateCode (rs ws) =? 1 then closeAll l' (<[ws := CLOSING]> rs)
      else closeAll l' rs
  end.

(** The number of "exit" messages sent to [ws], and of [close] calls on it. *)
Definition isExitTo (ws : WsRef) (e : Event) : bool :=
  match e with
  | EvSend ws' (MsgExit _) => bool_decide (ws' = ws)
  | _ => false
  end.

Definition exitCount (ws : WsRef) (events : list Event) : nat :=
  length (filter (λ e, isExitTo ws e = true) events).

Definition closeCount (ws : WsRef) (events : list Event) : nat :=
  length (filter (λ e, e = EvClose ws) events).

(** A registry entry the idle sweep destroys: nobody is attached and the last
    activity is more than [timeoutMs] before [now]. *)
Definition idle (h : SessRef → PtySession) (now timeoutMs : Z)
    (e : JsString * SessRef) : Prop :=
  subscribers (h e.2) = [] ∧ timeoutMs < now - lastActivity (h e.2).

Global Instance idle_dec h now timeoutMs e : Decision (idle h now timeoutMs e).
Proof. unfold idle. apply _. Defined.

(** No registered session lists a viewer twice. *)
Definition subscribers_nodup (w : World) : Prop :=
  Forall (λ e, NoDup (subscribers (heap w e.2))) (sessions w).

(** The registry's keys are distinct and are normalized usernames. *)
Definition keys_normalized (w : World) : Prop :=
  NoDup (sessions w).*1 ∧
  Forall (λ e, validateAndNormalizeUsername (VString e.1) = Ok e.1) (sessions w).

Global Instance subscribers_nodup_dec w : Decision (subscribers_nodup w).
Proof. unfold subscribers_nodup. apply _. Defined.

Global Instance keys_normalized_dec w : Decision (keys_normalized w).
Proof. unfold keys_normalized. apply _. Defined.

(** Everything that happens to the registry: the calls of its methods, the
    events of the relay and the events of the libraries. *)
Inductive Step : Type :=
  | GetOrCreateSession (username : JsString) (forceNew : bool)
  | CreateSession (username : JsString)
  | HasActiveSession (username : JsString)
  | GetSession (username : JsString)
  | AttachToSession (username : JsString) (ws : WsRef)
  | DetachFromSession (username : JsString) (ws : WsRef)
  | CleanupSession (username : JsString)
  | CleanupInactiveSessions (timeoutMs : Z)
  | GetStats
  | ShutdownAll
  | Connection (ws : WsRef) (auth : AuthOutcome)
  | Message (ws : WsRef) (pty : PtyRef) (username : JsString)
      (message : option WebSocketMessage)
  | Close (ws : WsRef) (pty : PtyRef) (username : JsString)
  | ProcessExit (p : PtyRef) (code : Z)
  | ProcessData (p : PtyRef) (data : JsString)
  | PeerClosing (ws : WsRef).

Definition discard {A} (m : M A) : M unit := _ ← m; ret tt.

Definition step (s : Step) : M unit :=
  match s with
  | GetOrCreateSession username forceNew => discard (getOrCreateSession username forceNew)
  | CreateSession username => discard (createSession username)
  | HasActiveSession username => discard (hasActiveSession username)
  | GetSession username => discard (getSession username)
  | AttachToSession username ws => attachToSession username ws
  | DetachFromSession username ws => detachFromSession username ws
  | CleanupSession username => cleanupSession username
  | CleanupInactiveSessions timeoutMs => discard (cleanupInactiveSessions timeoutMs)
  | GetStats => discard getStats
  | ShutdownAll => shutdownAll
  | Connection ws auth => wss_on_connection ws auth
  | Message ws pty username message => ws_on_message ws pty username message
  | Close ws pty username => ws_on_close ws pty username
  | ProcessExit p code => pty_emit_exit p code
  | ProcessData p data => pty_emit_data p data
  | PeerClosing ws => ws_peer_closing ws
  end.

(** The world after a sequence of steps. *)
Definition after (steps : list Step) (w : World) : World :=
  foldl (λ w s, final (step s w)) w steps.

(** The statement "every viewer attached to the session gets an exit message"
    about the events of a run, and what holds of the code instead: one message
    for a viewer whose socket was open, none for the others. *)
Definition all_notified (w : World) (session : SessRef) (events : list Event) : Prop :=
  ∀ ws, ws ∈ subscribers (heap w session) → exitCount ws events = 1%nat.

Definition open_notified_once (w : World) (session : SessRef) (events : list Event) : Prop :=
  ∀ ws, ws ∈ subscribers (heap w session) →
    exitCount ws events = if bool_decide (readyState w ws = OPEN) then 1%nat else 0%nat.

(** A run after which the session of [id] is settled: it returned, the
    identity has no entry left, and of the viewers that were attached in [w]
    exactly the open ones got an exit message, once. *)
Definition exit_settled (w : World) (id : JsString) (session : SessRef)
    (r : Run unit) : Prop :=
  result r = Ok tt ∧
  JsMap.get id (sessions (final r)) = None ∧
  open_notified_once w session (emitted r).

(** A terminal dimension the relay accepts: an integer from 1 to 1000. *)
Definition dimension_in_range (v : JsValue) : Prop :=
  ∃ z, v = VNumber (NumInt z) ∧ 1 ≤ z ≤ 1000.

(** An "input" message with the text [d], and the statement "unless it is
    longer than 10000 units, the text reaches the process's write". *)
Definition inputMessage (d : JsString) : WebSocketMessage :=
  MkMessage (VString (str "input")) (VString d) VUndefined VUndefined.

Definition input_passed_through (ws : WsRef) (pty : PtyRef) (username d : JsString)
    (w : World) : Prop :=
  Z.of_nat (length d) ≤ 10000 →
  EvWrite pty d ∈ emitted (ws_on_message ws pty username (Some (inputMessage d)) w).

(** A computation that keeps a property of the world, however it ends. *)
Definition preserves {A} (P : World → Prop) (m : M A) : Prop :=
  ∀ w, P w → P (final (m w)).

(** The registry is well formed. *)
Definition registry_wf (w : World) : Prop := keys_normalized w ∧ subscribers_nodup w.

(** Two worlds with the same registry, session objects and exit listeners. *)
Definition same_registry (w w' : World) : Prop :=
  sessions w' = sessions w ∧ heap w' = heap w ∧ exitListeners w' = exitListeners w ∧
  nextPty w' = nextPty w ∧ nextRef w' = nextRef w.

(** The process of every registered session has been spawned, and its 'exit'
    listeners are the registry's, for the key of the session, followed by
    those of viewers; a process not spawned yet has no listener. *)
Definition listeners_wf (w : World) : Prop :=
  (∀ p, (nextPty w ≤ p)%nat → exitListeners w p = []) ∧
  Forall (λ e, (pty (heap w e.2) < nextPty w)%nat ∧ (e.2 < nextRef w)%nat ∧
               ∃ viewers, exitListeners w (pty (heap w e.2)) =
                          OnExitCleanup e.1 :: (OnceExitHandler <$> viewers))
    (sessions w).

(** What holds of the server whatever has happened. *)
Definition server_wf (w : World) : Prop := registry_wf w ∧ listeners_wf w.

(** ** Scenarios *)

Definition alice : JsString := str "alice".
Definition bob : JsString := str "bob".

(** The server at start; the clock advances by a second at each reading. *)
Definition startWorld : World :=
  initWorld (λ n, 1700000000000 + 1000 * Z.of_nat n) (λ _, false).

(** Alice connects with socket 1 and her session gets a second viewer, 2. *)
Definition twoViewers : World :=
  after [Connection 1 (Authenticated (str " Alice ")); AttachToSession alice 2] startWorld.

(** ... and the peer of socket 2 starts closing. *)
Definition oneClosing : World := after [PeerClosing 2] twoViewers.

(** Alice connects with socket 1, whose peer starts closing; the 'close'
    event of the socket has not been delivered yet. *)
Definition viewerClosing : World :=
  after [Connection 1 (Authenticated alice); PeerClosing 1] startWorld.

(** Alice is connected to a process whose [kill] throws. *)
Definition stuckProcess : World :=
  after [Connection 1 (Authenticated alice)] (initWorld (λ n, Z.of_nat n) (λ _, true)).

(** Alice has connected and left; Bob is connected. *)
Definition aliceGone : World :=
  after [Connection 1 (Authenticated alice); Close 1 0 alice;
         Connection 2 (Authenticated bob)] startWorld.

(** * The rest of the server, and the page

    The embedding goes on with

    - [app/server/utils/config.ts]   (the checks of the configuration) and the
      configuration object the server's [index.ts] builds with them,
    - the routes of the sessions in [index.ts], behind [requireJWT],
    - [ws.onmessage] and [scheduleReconnect] of the page's [websocket.ts].

    Regular expressions are values, matched by derivatives; [parseInt] reads
    exact integers; what [jsonwebtoken] makes of a token is an argument of
    the routes; what the page does on a message is the list of its calls. *)

(** ** Regular expressions *)

(** The patterns the configuration checks are written with, and their
    matching by derivatives. *)
Inductive RegExp : Type :=
  | ReNone
  | ReEmpty
  | ReClass (units : N → bool)
  | ReSeq (r s : RegExp)
  | ReAlt (r s : RegExp)
  | ReStar (r : RegExp).

(** [(r)?] *)
Definition ReOpt (r : RegExp) : RegExp := ReAlt r ReEmpty.

Fixpoint nullable (r : RegExp) : bool :=
  match r with
  | ReNone => false
  | ReEmpty => true
  | ReClass _ => false
  | ReSeq r s => nullable r && nullable s
  | ReAlt r s => nullable r || nullable s
  | ReStar _ => true
  end.

Fixpoint derive (c : N) (r : RegExp) : RegExp :=
  match r with
  | ReNone => ReNone
  | ReEmpty => ReNone
  | ReClass units => if units c then ReEmpty else ReNone
  | ReSeq r s =>
      if nullable r then ReAlt (ReSeq (derive c r) s) (derive c s)
      else ReSeq (derive c r) s
  | ReAlt r s => ReAlt (derive c r) (derive c s)
  | ReStar r => ReSeq (derive c r) (ReStar r)
  end.

(** [/^r$/.test(s)], without flags: the whole of [s] has to match. *)
Definition RegExp_test (r : RegExp) (s : JsString) : bool :=
  nullable (foldl (λ r c, derive c r) r s).

(** The strings a pattern stands for. *)
Inductive matches : RegExp → JsString → Prop :=
  | matches_empty : matches ReEmpty []
  | matches_class units c : units c = true → matches (ReClass units) [c]
  | matches_seq r s a b : matches r a → matches s b → matches (ReSeq r s) (a ++ b)
  | matches_alt_l r s a : matches r a → matches (ReAlt r s) a
  | matches_alt_r r s a : matches s a → matches (ReAlt r s) a
  | matches_star_nil r : matches (ReStar r) []
  | matches_star_cons r a b :
      matches r a → matches (ReStar r) b → matches (ReStar r) (a ++ b).

(** ** utils/config.ts *)

(** [[a-zA-Z0-9]] and [[a-zA-Z0-9-_.]] *)
Definition isAlnum (c : N) : bool :=
  ((97 <=? c) && (c <=? 122) || (65 <=? c) && (c <=? 90) || (48 <=? c) && (c <=? 57))%N.

Definition isHostnameUnit (c : N) : bool :=
  (isAlnum c || (c =? 45) || (c =? 95) || (c =? 46))%N.

(** [/^[a-zA-Z0-9]([a-zA-Z0-9-_.]*[a-zA-Z0-9])?$/] *)
Definition hostnameRegex : RegExp :=
  ReSeq (ReClass isAlnum)
    (ReOpt (ReSeq (ReStar (ReClass isHostnameUnit)) (ReClass isAlnum))).

(** [['$', '`', ';', '|', '&', '>', '<', '\n', '\r', '\0']] *)
Definition dangerousChars : list JsString :=
  [str "$"; str "`"; str ";"; str "|"; str "&"; str ">"; str "<"; [10%N]; [13%N]; [0%N]].

(** [for (const x of xs) { body }] where the body may throw. *)
Fixpoint for_of {A} (xs : list A) (body : A → Result unit) : Result unit :=
  match xs with
  | [] => Ok tt
  | x :: xs' =>
      match body x with
      | Ok _ => for_of xs' body
      | Throw e => Throw e
      end
  end.

Definition validateHostname (hostname : JsValue) : Result JsString :=
  match hostname with
  | VString hostname =>
      let trimmed := Js.trim hostname in
      if bool_decide (length trimmed = 0%nat) then
        Throw "Hostname cannot be empty"
      else if (253 <? length trimmed)%nat then
        Throw "Hostname too long"
      else if negb (RegExp_test hostnameRegex trimmed) then
        Throw "Invalid hostname format"
      else
        match for_of dangerousChars (λ char,
                if Js.includes char trimmed
                then Throw "Hostname contains invalid characters" else Ok tt) with
        | Throw e => Throw e
        | Ok _ => Ok trimmed
        end
  | _ => Throw "Hostname must be a string"
  end.

(** The message of [validateProtocol] quotes the two protocols. *)
Definition protocolMessage : string :=
  let q := String (Ascii.ascii_of_nat 34) EmptyString in
  ("Protocol must be " +:+ q +:+ "ws" +:+ q +:+ " or " +:+ q +:+ "wss" +:+ q)%string.

Definition validateProtocol (protocol : JsValue) : Result JsString :=
  match protocol with
  | VString protocol =>
      let normalized := Js.toLowerCase (Js.trim protocol) in
      if bool_decide (normalized ≠ str "ws") && bool_decide (normalized ≠ str "wss") then
        Throw protocolMessage
      else Ok normalized
  | _ => Throw "Protocol must be a string"
  end.

(** [parseInt(s, 10)]: leading white space and one sign are skipped, the
    decimal digits that follow are read, whatever comes after them is
    ignored; without a digit the result is [NaN]. The value read is exact
    here; the language rounds it to a double (beyond 2^53) and, from
    2^1024 - 2^970 on, to [Infinity]. *)
Definition isDigit (c : N) : bool := ((48 <=? c) && (c <=? 57))%N.

Definition infinityFrom : Z := 2 ^ 1024 - 2 ^ 970.

Fixpoint digitsPrefix (s : JsString) : JsString :=
  match s with
  | c :: rest => if isDigit c then c :: digitsPrefix rest else []
  | [] => []
  end.

Definition digitsValue (digits : JsString) : Z :=
  foldl (λ value c, 10 * value + Z.of_N (c - 48)) 0 digits.

Definition parseInt10 (s : JsString) : JsNumber :=
  let trimmed := Js.trimStart s in
  let negative := match trimmed with c :: _ => (c =? 45)%N | [] => false end in
  let unsigned :=
    match trimmed with
    | c :: rest => if (c =? 43)%N || (c =? 45)%N then rest else trimmed
    | [] => []
    end in
  let digits := digitsPrefix unsigned in
  if bool_decide (digits = []) then NumNaN
  else
    let mathInt := digitsValue digits in
    if infinityFrom <=? mathInt then NumInf negative
    else NumInt (if negative then - mathInt else mathInt).

(** [typeof v === 'string' ? parseInt(v, 10) : (v as number)] *)
Definition toNumberOrParse (v : JsValue) : JsValue :=
  match v with
  | VString s => VNumber (parseInt10 s)
  | _ => v
  end.

Definition validatePort (port : JsValue) : Result JsValue :=
  let numPort := toNumberOrParse port in
  if negb (Number_isInteger numPort) || num_lt numPort 1 || num_gt numPort 65535 then
    Throw "Port must be between 1 and 65535"
  else Ok numPort.

Definition validateTimeout (timeout : JsValue) : Result JsValue :=
  let numTimeout := toNumberOrParse timeout in
  if negb (Number_isInteger numTimeout) || num_lt numTimeout 1000
     || num_gt numTimeout 86400000 then
    Throw "Timeout must be between 1000ms (1s) and 86400000ms (24h)"
  else Ok numTimeout.

(** ** Vocabulary of the further properties *)

(** Two worlds that differ at most in the session objects and the clock. *)
Definition same_outside_heap (w w' : World) : Prop :=
  sessions w' = sessions w ∧ nextRef w' = nextRef w ∧ readyState w' = readyState w ∧
  dataListeners w' = dataListeners w ∧ exitListeners w' = exitListeners w ∧
  killThrows w' = killThrows w ∧ nextPty w' = nextPty w ∧ time w' = time w.

(** The steps that are terminal traffic: a message of a viewer, output of a
    process. *)
Definition isTraffic (s : Step) : bool :=
  match s with
  | Message _ _ _ _ | ProcessData _ _ => true
  | _ => false
  end.

(** ** server index.ts: the configuration *)

(** [a || b] *)
Definition js_or (a b : JsValue) : JsValue := if truthy a then a else b.

(** The variables of [process.env] the server reads: strings, or [undefined]. *)
Record Env : Type := MkEnv {
  env_PORT : JsValue;
  env_NODE_ENV : JsValue;
  env_SKYCHAT_HOST : JsValue;
  env_SKYCHAT_PROTOCOL : JsValue;
  env_SESSION_TIMEOUT_MS : JsValue;
}.

Record Config : Type := MkConfig {
  PORT : JsValue;
  NODE_ENV : JsValue;
  SKYCHAT_HOST : JsString;
  SKYCHAT_PROTOCOL : JsString;
  SESSION_TIMEOUT_MS : JsValue;
}.

Definition bindR {A B} (r : Result A) (k : A → Result B) : Result B :=
  match r with
  | Ok a => k a
  | Throw e => Throw e
  end.

(** [const config: Config = { PORT: validatePort(...), ... }]: the fields are
    evaluated in the order written, the first check that throws ends it. *)
Definition loadConfig (env : Env) : Result Config :=
  bindR (validatePort (js_or (env_PORT env) (VString (str "3000")))) (λ port,
  let nodeEnv := js_or (env_NODE_ENV env) (VString (str "development")) in
  bindR (validateHostname (js_or (env_SKYCHAT_HOST env) (VString (str "localhost")))) (λ host,
  bindR (validateProtocol (js_or (env_SKYCHAT_PROTOCOL env) (VString (str "wss")))) (λ protocol,
  bindR (validateTimeout (js_or (env_SESSION_TIMEOUT_MS env) (VString (str "7200000"))))
    (λ timeout,
  Ok (MkConfig port nodeEnv host protocol timeout))))).

(** [AuthService.getEndPointUrl()] *)
Definition getEndPointUrl (skychatProtocol skychatHost : JsString) : JsString :=
  skychatProtocol ++ str "://" ++ skychatHost ++ str "/api/ws".

(** ** Vocabulary: whole registries and histories *)

(** The viewers attached to any registered session, session by session. *)
Definition allSubscribers (w : World) : list WsRef :=
  sessions w ≫= λ e, subscribers (heap w e.2).

(** The processes that [kill] was called on, and those spawned, in order. *)
Definition kills (events : list Event) : list PtyRef :=
  omap (λ e, match e with EvKill p => Some p | _ => None end) events.

Definition spawns (events : list Event) : list (PtyRef * JsString) :=
  omap (λ e, match e with EvSpawn p id => Some (p, id) | _ => None end) events.

(** What [shutdownAll] calls on a registry [ss]: session after session, the
    exit notices of its subscribers and the kill of its process. *)
Fixpoint shutdownEvents (h : SessRef → PtySession) (ss : list (JsString * SessRef))
    (rs : WsRef → ReadyState) : list Event :=
  match ss with
  | [] => []
  | e :: ss' =>
      exitNotices 0 (subscribers (h e.2)) rs
      ++ EvKill (pty (h e.2))
         :: shutdownEvents h ss' (closeAll (subscribers (h e.2)) rs)
  end.

(** What a sequence of steps calls, from the first step to the last. *)
Fixpoint trace (steps : list Step) (w : World) : list Event :=
  match steps with
  | [] => []
  | s :: rest => emitted (step s w) ++ trace rest (final (step s w))
  end.

(** A process that belongs to a registered session. *)
Definition registered (w : World) (p : PtyRef) : Prop :=
  ∃ e, e ∈ sessions w ∧ pty (heap w e.2) = p.

(** A run that leaves the registry and the processes alone: the same
    entries, the same process in every session object, nothing spawned and no
    new listener for output. *)
Definition untouched (w w' : World) (events : list Event) : Prop :=
  sessions w' = sessions w ∧ (∀ r, pty (heap w' r) = pty (heap w r)) ∧
  nextPty w' = nextPty w ∧ nextRef w' = nextRef w ∧
  spawns events = [] ∧
  (∀ p ws, ws ∈ dataListeners w' p → ws ∈ dataListeners w p).

(** A run that at most destroys sessions: entries only go, each one that
    goes has had its process killed, nothing is spawned. *)
Definition only_destroys (w w' : World) (events : list Event) : Prop :=
  heap w' = heap w ∧ nextPty w' = nextPty w ∧ nextRef w' = nextRef w ∧
  dataListeners w' = dataListeners w ∧ spawns events = [] ∧
  (∀ e, e ∈ sessions w' → e ∈ sessions w) ∧
  (∀ e, e ∈ sessions w → e ∈ sessions w' ∨ pty (heap w e.2) ∈ kills events) ∧
  NoDup (sessions w').*1.

(** The steps that call [createSession] from outside the registry, which
    the server never does. *)
Definition isCreateSession (s : Step) : bool :=
  match s with CreateSession _ => true | _ => false end.

(** The texts of the error messages the server sends. *)
Definition serverErrors : list string :=
  ["No authentication token"; "Invalid or expired token"; "Invalid input"]%string.

(** ** client websocket.ts *)

(** What the page does on a message of the server. *)
Inductive ClientEffect : Type :=
  | TerminalWrite (data : JsString)
  | UpdateConnectionStatus (status text : JsString)
  | ClearAuth
  | Reload.

(** [message.message && (message.message.includes('token') || ...)] *)
Definition isAuthError (message : JsString) : bool :=
  truthy (VString message)
  && (Js.includes (str "token") message || Js.includes (str "auth") message
      || Js.includes (str "Invalid") message || Js.includes (str "expired") message).

(** [ws.onmessage], on what [JSON.parse] makes of a message the server has
    sent; [terminal] tells whether [window.terminal] is set. *)
Definition ws_onmessage (terminal : bool) (message : ServerMessage) : list ClientEffect :=
  match message with
  | MsgData data => if terminal then [TerminalWrite data] else []
  | MsgConnected => []
  | MsgExit code =>
      UpdateConnectionStatus (str "disconnected") (str "Session ended")
      :: (if terminal then
            [TerminalWrite
               ([13; 10; 27]%N
                ++ str "[31mSession ended. Please refresh the page to start a new session."
                ++ [27%N] ++ str "[0m" ++ [13; 10]%N)]
          else [])
  | MsgError message =>
      UpdateConnectionStatus (str "error") (str "Error: " ++ str message)
      :: (if isAuthError (str message) then [ClearAuth; Reload]
          else if terminal then
            [TerminalWrite
               ([13; 10; 27]%N ++ str "[31mError: " ++ str message
                ++ [27%N] ++ str "[0m" ++ [13; 10]%N)]
          else [])
  end.

(** [scheduleReconnect]: the delay before the attempt that follows
    [reconnectAttempts] failed ones. *)
Definition maxReconnectDelay : Z := 30000.

Definition reconnectDelay (reconnectAttempts : nat) : Z :=
  Z.min (1000 * 2 ^ Z.of_nat reconnectAttempts) maxReconnectDelay.

(** What a step does to the processes and to the listeners of their output:
    it spawns nothing, or one process that is registered when the step ends;
    a process that was registered stays so or is killed (unless the step is
    an outside call of [createSession]); and a listener of output is new only
    when the step is the connection of its socket, for the process that the
    connection has spawned. *)
Definition step_facts (s : Step) (w w' : World) (events : list Event) : Prop :=
  ((spawns events = [] ∧ nextPty w' = nextPty w) ∨
   (∃ id, spawns events = [(nextPty w, id)] ∧ nextPty w' = S (nextPty w) ∧
          registered w' (nextPty w))) ∧
  (isCreateSession s = false →
   ∀ p, registered w p → registered w' p ∨ p ∈ kills events) ∧
  (∀ p ws, ws ∈ dataListeners w' p →
     ws ∈ dataListeners w p ∨
     ∃ username id, s = Connection ws (Authenticated username) ∧
       validateAndNormalizeUsername (VString username) = Ok id ∧
       spawns events = [(p, id)]).

(** An event other than the sending of an error message whose text is none
    of [serverErrors]. *)
Definition expectedEvent (e : Event) : bool :=
  match e with
  | EvSend _ (MsgError text) => bool_decide (text ∈ serverErrors)
  | _ => true
  end.

(** A computation all of whose events are expected, wherever it runs. *)
Definition emitsExpected {A} (m : M A) : Prop :=
  ∀ w, Forall (λ e, expectedEvent e = true) (emitted (m w)).

(** ** server index.ts: the routes of the sessions *)

(** What [authService.validateJWT] makes of a token; the signature is the
    library's to check. *)
Inductive JWTValidateResult : Type :=
  | JwtValid (username : JsString)
  | JwtInvalid (error : JsString).

(** One line of the answer of [GET /api/sessions]. *)
Record SessionInfo : Type := MkInfo {
  info_username : JsString;
  info_created : Z;
  info_lastActivity : Z;
  info_active : bool;
}.

(** What a handler hands to [res.json]. *)
Inductive Json : Type :=
  | JsonError (error : JsString)
  | JsonSuccess
  | JsonSessions (lines : list SessionInfo).

(** [res.status(code).json(body)]; [res.json(body)] answers with 200. *)
Record Response : Type := MkResponse {
  res_status : Z;
  res_body : Json;
}.

(** The middleware: [next] runs with [req.user.username]. *)
Definition requireJWT (validateJWT : JsString → JWTValidateResult)
    (authHeader : option JsString) (next : JsString → M Response) : M Response :=
  match authHeader with
  | Some header =>
      if negb (truthy (VString header)) || negb (Js.startsWith (str "Bearer ") header) then
        ret (MkResponse 401 (JsonError (str "No token provided")))
      else
        let token := drop 7 header in
        match validateJWT token with
        | JwtInvalid error =>
            ret (MkResponse 401
                   (JsonError (if truthy (VString error) then error
                               else str "Invalid or expired token")))
        | JwtValid username => next username
        end
  | None => ret (MkResponse 401 (JsonError (str "No token provided")))
  end.

(** [app.get('/api/sessions', requireJWT, ...)] *)
Definition api_sessions_get (validateJWT : JsString → JWTValidateResult)
    (authHeader : option JsString) : M Response :=
  requireJWT validateJWT authHeader (λ username,
    try_catch
      (session ← getSession username;
       match session with
       | None => ret (MkResponse 200 (JsonSessions []))
       | Some session =>
           s ← deref session;
           ret (MkResponse 200
                  (JsonSessions [MkInfo username (created s) (lastActivity s)
                                   (0 <? Z.of_nat (length (subscribers s)))]))
       end)
      (λ _, ret (MkResponse 500 (JsonError (str "Internal server error"))))).

(** [app.delete('/api/sessions/:username', requireJWT, ...)] *)
Definition api_sessions_delete (validateJWT : JsString → JWTValidateResult)
    (authHeader : option JsString) (targetUser : JsString) : M Response :=
  requireJWT validateJWT authHeader (λ requestingUser,
    try_catch
      (if bool_decide (requestingUser ≠ targetUser) then
         ret (MkResponse 403 (JsonError (str "Forbidden")))
       else
         cleanupSession targetUser;;
         ret (MkResponse 200 JsonSuccess))
      (λ _, ret (MkResponse 500 (JsonError (str "Internal server error"))))).
(** * Properties *)

(** ** Usernames *)

Example normalize_Alice :
  validateAndNormalizeUsername (VString (str "  Alice_01 ")) = Ok (str "alice_01").
Proof. reflexivity. Qed.

Example normalize_dots :
  validateAndNormalizeUsername (VString (str "..")) =
  Throw "Username must contain only lowercase letters, numbers, hyphens, and underscores".
Proof. reflexivity. Qed.

Example normalize_kelvin :
  validateAndNormalizeUsername (VString [0x212A; 0x41]%N) = Ok (str "ka").
Proof. reflexivity. Qed.

Section Usernames.

Lemma usernameUnit_cases (c : N) :
  isUsernameUnit c = true →
  (97 ≤ c ≤ 122 ∨ 48 ≤ c ≤ 57 ∨ c = 95 ∨ c = 45)%N.
Proof.
  unfold isUsernameUnit.
  rewrite !orb_true_iff, !andb_true_iff, !N.leb_le, !N.eqb_eq. tauto.
Qed.

Lemma usernameUnit_not_whitespace (c : N) :
  isUsernameUnit c = true → Js.isWhiteSpace c = false.
Proof.
  intros H%usernameUnit_cases. apply not_true_is_false. unfold Js.isWhiteSpace.
  rewrite !orb_true_iff, !andb_true_iff, !N.leb_le, !N.eqb_eq. lia.
Qed.

Lemma usernameUnit_lower (c : N) : isUsernameUnit c = true → Js.lowerUnit c = [c].
Proof.
  intros H%usernameUnit_cases. unfold Js.lowerUnit.
  destruct (N.leb_spec 65 c), (N.leb_spec c 90); cbn [andb]; try lia;
    destruct (N.eqb_spec c 0x130); try lia;
    destruct (N.eqb_spec c 0x212A); try lia; reflexivity.
Qed.

Lemma trimStart_username (s : JsString) :
  forallb isUsernameUnit s = true → Js.trimStart s = s.
Proof.
  destruct s as [|c s]; [done|]. cbn. intros [Hc _]%andb_true_iff.
  by rewrite (usernameUnit_not_whitespace c Hc).
Qed.

Lemma forallb_reverse (f : N → bool) (s : JsString) :
  forallb f (reverse s) = forallb f s.
Proof.
  induction s as [|c s IH]; [done|].
  rewrite reverse_cons, forallb_app, IH. cbn. by rewrite andb_true_r, andb_comm.
Qed.

Lemma trim_username (s : JsString) : forallb isUsernameUnit s = true → Js.trim s = s.
Proof.
  intros H. unfold Js.trim, Js.trimEnd. rewrite (trimStart_username s H).
  rewrite trimStart_username by (by rewrite forallb_reverse).
  apply reverse_involutive.
Qed.

Lemma toLowerCase_username (s : JsString) :
  forallb isUsernameUnit s = true → Js.toLowerCase s = s.
Proof.
  unfold Js.toLowerCase. induction s as [|c s IH]; [done|]. cbn.
  intros [Hc Hs]%andb_true_iff. rewrite (usernameUnit_lower c Hc). cbn.
  f_equal. by apply IH.
Qed.

(** What a successful validation has checked. *)
Lemma validate_ok_inv (raw : JsValue) (id : JsString) :
  validateAndNormalizeUsername raw = Ok id →
  ∃ s, raw = VString s ∧ id = Js.toLowerCase (Js.trim s) ∧
       length id ≠ 0%nat ∧ (length id ≤ 32)%nat ∧
       USERNAME_REGEX_test id = true ∧
       id ≠ str "." ∧ id ≠ str ".." ∧ Js.includes (str "..") id = false.
Proof.
  destruct raw as [| | | |s|]; try discriminate.
  unfold validateAndNormalizeUsername. cbv zeta.
  set (normalized := Js.toLowerCase (Js.trim s)).
  case_bool_decide as Hlen; [discriminate|].
  destruct (Nat.ltb_spec 32 (length normalized)); [discriminate|].
  destruct (USERNAME_REGEX_test normalized) eqn:Hre; [|discriminate]. cbn [negb].
  case_bool_decide as Hdot; [discriminate|].
  case_bool_decide as Hdots; [discriminate|]. cbn [orb].
  destruct (Js.includes (str "..") normalized) eqn:Hinc; [discriminate|].
  intros [= <-]. exists s. repeat split; auto.
Qed.

Lemma regex_units (id : JsString) :
  USERNAME_REGEX_test id = true → forallb isUsernameUnit id = true.
Proof. unfold USERNAME_REGEX_test. by intros [_ ?]%andb_true_iff. Qed.

(** A validated username validates to itself. *)
Lemma validate_idempotent (raw : JsValue) (id : JsString) :
  validateAndNormalizeUsername raw = Ok id →
  validateAndNormalizeUsername (VString id) = Ok id.
Proof.
  intros (s & -> & Hid & Hlen & Hmax & Hre & Hdot & Hdots & Hinc)%validate_ok_inv.
  remember (Js.toLowerCase (Js.trim s)) as n eqn:Hn. subst id.
  pose proof (regex_units n Hre) as Hunits.
  unfold validateAndNormalizeUsername.
  rewrite (trim_username n Hunits), (toLowerCase_username n Hunits).
  rewrite bool_decide_false by done.
  destruct (Nat.ltb_spec 32 (length n)); [lia|].
  rewrite Hre. cbn [negb].
  rewrite !bool_decide_false by done. cbn [orb]. by rewrite Hinc.
Qed.

(** A string without the unit [c] has no substring that starts with [c]. *)
Lemma includes_absent (c : N) (needle s : JsString) :
  c ∉ s → Js.includes (c :: needle) s = false.
Proof.
  induction s as [|x s IH]; [done|]. intros Hc.
  apply not_elem_of_cons in Hc as [Hx Hs]. cbn.
  destruct (N.eqb_spec c x); [done|]. cbn. by apply IH.
Qed.

Lemma username_lacks (c : N) (id : JsString) :
  forallb isUsernameUnit id = true → isUsernameUnit c = false → c ∉ id.
Proof.
  intros Hall Hc Hin. apply list_elem_of_In in Hin.
  rewrite forallb_forall in Hall. specialize (Hall c Hin). congruence.
Qed.

(** A validated username is a safe path component. *)
Lemma validate_path_ok (raw : JsValue) (id : JsString) :
  validateAndNormalizeUsername raw = Ok id → validatePathComponent id = Ok tt.
Proof.
  intros (s & _ & _ & _ & _ & Hre & Hdot & Hdots & Hinc)%validate_ok_inv.
  pose proof (regex_units id Hre) as Hunits.
  unfold validatePathComponent.
  rewrite (includes_absent 0%N [] id) by (by apply username_lacks).
  rewrite Hinc.
  change (str "/") with [47%N]. change (str "\") with [92%N].
  rewrite (includes_absent 47%N [] id) by (by apply username_lacks).
  rewrite (includes_absent 92%N [] id) by (by apply username_lacks).
  cbn [orb]. by rewrite !bool_decide_false by done.
Qed.

End Usernames.

(** C8. Whenever [validateAndNormalizeUsername] succeeds, the identity it
    returns is non-empty, has at most 32 units, all of them lowercase letters,
    digits, '-' or '_'; it is neither "." nor "..", holds no path separator
    and no ".." substring; and validating it again returns it unchanged. *)
Theorem validateAndNormalizeUsername_canonical (raw : JsValue) (id : JsString) :
  validateAndNormalizeUsername raw = Ok id →
  id ≠ [] ∧ (length id ≤ 32)%nat ∧
  Forall (λ c, isUsernameUnit c = true) id ∧
  id ≠ str "." ∧ id ≠ str ".." ∧
  (47%N ∉ id) ∧ (92%N ∉ id) ∧
  Js.includes (str "..") id = false ∧
  validateAndNormalizeUsername (VString id) = Ok id.
Proof.
  intros Hok.
  pose proof (validate_idempotent raw id Hok) as Hidem.
  destruct (validate_ok_inv raw id Hok)
    as (s & _ & _ & Hlen & Hmax & Hre & Hdot & Hdots & Hinc).
  pose proof (regex_units id Hre) as Hunits.
  repeat split; auto.
  - intros ->. by apply Hlen.
  - apply Forall_forall. intros c Hc.
    rewrite forallb_forall in Hunits. by apply Hunits.
  - by apply username_lacks.
  - by apply username_lacks.
Qed.

Lemma validateAndNormalizeUsername_canonical_witness :
  validateAndNormalizeUsername (VString (str "  Alice_01 ")) = Ok (str "alice_01") ∧
  validateAndNormalizeUsername (VString (str "alice_01")) = Ok (str "alice_01").
Proof.
  split; [reflexivity|].
  apply (validateAndNormalizeUsername_canonical (VString (str "  Alice_01 "))).
  reflexivity.
Defined.

(** ** Running the operations *)

Arguments validateAndNormalizeUsername : simpl never.
Arguments validatePathComponent : simpl never.
Arguments str : simpl never.
Arguments cleanupSession : simpl never.
Arguments createSession : simpl never.
Arguments getOrCreateSession : simpl never.
Arguments attachToSession : simpl never.
Arguments detachFromSession : simpl never.
Arguments cleanupInactiveSessions : simpl never.
Arguments shutdownAll : simpl never.
Arguments notifyExit : simpl never.
Arguments pty_emit_exit : simpl never.

Ltac unfold_M :=
  unfold bind, ret, lift, gets, modify, emit, throw, try_catch; cbn.

Ltac unfold_set :=
  unfold set_sessions, set_heap, set_nextRef, set_readyState, set_dataListeners,
    set_exitListeners, set_nextPty, set_clock in *; cbn in *.

(** Reading the fields of an updated world, once the world is a constructor. *)
Ltac fields :=
  cbv [set_sessions set_heap set_nextRef set_readyState set_dataListeners
       set_exitListeners set_nextPty set_clock
       sessions heap nextRef readyState dataListeners exitListeners killThrows
       nextPty time clock final result emitted] in *.

Lemma set_readyState_id (w : World) : set_readyState (λ rs, rs) w = w.
Proof. by destruct w. Qed.

Lemma readyState_open (s : ReadyState) : (readyStateCode s =? 1) = true ↔ s = OPEN.
Proof. destruct s; cbn; split; congruence. Qed.

Lemma readyState_not_open (s : ReadyState) : (readyStateCode s =? 1) = false ↔ s ≠ OPEN.
Proof. destruct s; cbn; split; congruence. Qed.

Section NotifyExit.

Lemma notifyExit_open (code : Z) (ws : WsRef) (w : World) :
  readyState w ws = OPEN →
  notifyExit code ws w =
  MkRun (Ok tt) (set_readyState <[ws := CLOSING]> w) [EvSend ws (MsgExit code); EvClose ws].
Proof.
  intros Hrs. unfold notifyExit, ws_send, ws_close. unfold_M. rewrite Hrs. cbn.
  destruct w; unfold_set. by rewrite Hrs.
Qed.

Lemma notifyExit_not_open (code : Z) (ws : WsRef) (w : World) :
  readyState w ws ≠ OPEN → notifyExit code ws w = MkRun (Ok tt) w [].
Proof.
  intros Hrs%readyState_not_open. unfold notifyExit. unfold_M. by rewrite Hrs.
Qed.

Lemma forEach_notifyExit (code : Z) (l : list WsRef) (w : World) :
  forEach l (notifyExit code) w =
  MkRun (Ok tt) (set_readyState (closeAll l) w) (exitNotices code l (readyState w)).
Proof.
  revert w. induction l as [|ws l IH]; intros w.
  - cbn. unfold ret. by rewrite set_readyState_id.
  - cbn [forEach exitNotices closeAll]. unfold bind.
    destruct (readyStateCode (readyState w ws) =? 1) eqn:Hrs.
    + apply readyState_open in Hrs as Hopen. rewrite (notifyExit_open _ _ _ Hopen). cbn.
      rewrite IH. cbn. destruct w; unfold_set. by rewrite Hrs.
    + apply readyState_not_open in Hrs as Hopen.
      rewrite (notifyExit_not_open _ _ _ Hopen). cbn.
      rewrite IH. cbn. destruct w; unfold_set. by rewrite Hrs.
Qed.

Lemma closeAll_spec (l : list WsRef) (rs : WsRef → ReadyState) (ws : WsRef) :
  closeAll l rs ws = if bool_decide (ws ∈ l ∧ rs ws = OPEN) then CLOSING else rs ws.
Proof.
  revert rs. induction l as [|x l IH]; intros rs; cbn.
  - rewrite bool_decide_false; [done|]. intros [[]%elem_of_nil _].
  - destruct (readyStateCode (rs x) =? 1) eqn:Hx; rewrite IH.
    + apply readyState_open in Hx. destruct (decide (x = ws)) as [->|Hne].
      * rewrite fn_lookup_insert.
        rewrite (bool_decide_false (_ ∧ CLOSING = OPEN)) by (by intros [_ ?]).
        rewrite bool_decide_true; [done|]. split; [left|done].
      * rewrite fn_lookup_insert_ne by done.
        rewrite (bool_decide_ext _ (ws ∈ x :: l ∧ rs ws = OPEN)); [done|].
        rewrite elem_of_cons. intuition (subst; congruence).
    + apply readyState_not_open in Hx.
      rewrite (bool_decide_ext _ (ws ∈ x :: l ∧ rs ws = OPEN)); [done|].
      rewrite elem_of_cons. intuition (subst; congruence).
Qed.

End NotifyExit.

Lemma filter_ext_elem {A} (P Q : A → Prop)
    `{!∀ x, Decision (P x), !∀ x, Decision (Q x)} (l : list A) :
  (∀ x, x ∈ l → P x ↔ Q x) → filter P l = filter Q l.
Proof.
  induction l as [|a l IH]; [done|]. intros Hext. rewrite !list.filter_cons.
  assert (P a ↔ Q a) as Ha by (apply Hext; left).
  rewrite IH by (intros x Hx; apply Hext; by right).
  destruct (decide (P a)), (decide (Q a)); tauto || done.
Qed.

Section ExitNotices.

Lemma exitCount_app (ws : WsRef) (a b : list Event) :
  exitCount ws (a ++ b) = (exitCount ws a + exitCount ws b)%nat.
Proof. unfold exitCount. by rewrite list.filter_app, length_app. Qed.

Lemma closeCount_app (ws : WsRef) (a b : list Event) :
  closeCount ws (a ++ b) = (closeCount ws a + closeCount ws b)%nat.
Proof. unfold closeCount. by rewrite list.filter_app, length_app. Qed.

Lemma exitCount_cons_send (ws ws' : WsRef) (code : Z) (evs : list Event) :
  exitCount ws (EvSend ws' (MsgExit code) :: evs) =
  ((if bool_decide (ws' = ws) then 1 else 0) + exitCount ws evs)%nat.
Proof.
  unfold exitCount. rewrite list.filter_cons. cbn. by repeat case_bool_decide; case_decide.
Qed.

Lemma exitCount_cons_close (ws ws' : WsRef) (evs : list Event) :
  exitCount ws (EvClose ws' :: evs) = exitCount ws evs.
Proof. unfold exitCount. rewrite list.filter_cons. cbn. by case_decide. Qed.

Lemma closeCount_cons_send (ws ws' : WsRef) (m : ServerMessage) (evs : list Event) :
  closeCount ws (EvSend ws' m :: evs) = closeCount ws evs.
Proof. unfold closeCount. rewrite list.filter_cons. by case_decide. Qed.

Lemma closeCount_cons_close (ws ws' : WsRef) (evs : list Event) :
  closeCount ws (EvClose ws' :: evs) =
  ((if bool_decide (ws' = ws) then 1 else 0) + closeCount ws evs)%nat.
Proof.
  unfold closeCount. rewrite list.filter_cons.
  case_decide as H; case_bool_decide as H'; try done; congruence.
Qed.

(** A socket gets one "exit" message if it is listed and open, none otherwise. *)
Lemma exitCount_exitNotices (code : Z) (l : list WsRef) (rs : WsRef → ReadyState)
    (ws : WsRef) :
  exitCount ws (exitNotices code l rs) =
  if bool_decide (ws ∈ l ∧ rs ws = OPEN) then 1%nat else 0%nat.
Proof.
  revert rs. induction l as [|x l IH]; intros rs; cbn [exitNotices].
  - rewrite bool_decide_false; [done|]. intros [[]%elem_of_nil _].
  - destruct (readyStateCode (rs x) =? 1) eqn:Hx.
    + apply readyState_open in Hx.
      rewrite exitCount_cons_send, exitCount_cons_close, IH.
      case_bool_decide as Hxw.
      * subst x. rewrite fn_lookup_insert.
        rewrite (bool_decide_false (_ ∧ CLOSING = OPEN)) by (by intros [_ ?]).
        rewrite bool_decide_true; [done|]. split; [left|done].
      * rewrite fn_lookup_insert_ne by done. cbn.
        rewrite (bool_decide_ext _ (ws ∈ x :: l ∧ rs ws = OPEN)); [done|].
        rewrite elem_of_cons. intuition (subst; congruence).
    + apply readyState_not_open in Hx. rewrite IH.
      rewrite (bool_decide_ext _ (ws ∈ x :: l ∧ rs ws = OPEN)); [done|].
      rewrite elem_of_cons. intuition (subst; congruence).
Qed.

Lemma closeCount_exitNotices (code : Z) (l : list WsRef) (rs : WsRef → ReadyState)
    (ws : WsRef) :
  closeCount ws (exitNotices code l rs) =
  if bool_decide (ws ∈ l ∧ rs ws = OPEN) then 1%nat else 0%nat.
Proof.
  revert rs. induction l as [|x l IH]; intros rs; cbn [exitNotices].
  - rewrite bool_decide_false; [done|]. intros [[]%elem_of_nil _].
  - destruct (readyStateCode (rs x) =? 1) eqn:Hx.
    + apply readyState_open in Hx.
      rewrite closeCount_cons_send, closeCount_cons_close, IH.
      case_bool_decide as Hxw.
      * subst x. rewrite fn_lookup_insert.
        rewrite (bool_decide_false (_ ∧ CLOSING = OPEN)) by (by intros [_ ?]).
        rewrite bool_decide_true; [done|]. split; [left|done].
      * rewrite fn_lookup_insert_ne by done. cbn.
        rewrite (bool_decide_ext _ (ws ∈ x :: l ∧ rs ws = OPEN)); [done|].
        rewrite elem_of_cons. intuition (subst; congruence).
    + apply readyState_not_open in Hx. rewrite IH.
      rewrite (bool_decide_ext _ (ws ∈ x :: l ∧ rs ws = OPEN)); [done|].
      rewrite elem_of_cons. intuition (subst; congruence).
Qed.

(** Every notice goes to a listed socket that was open. *)
Lemma elem_of_exitNotices (code : Z) (l : list WsRef) (rs : WsRef → ReadyState)
    (e : Event) :
  e ∈ exitNotices code l rs →
  ∃ ws, ws ∈ l ∧ rs ws = OPEN ∧ (e = EvSend ws (MsgExit code) ∨ e = EvClose ws).
Proof.
  revert rs. induction l as [|x l IH]; intros rs; cbn.
  - by intros []%elem_of_nil.
  - destruct (readyStateCode (rs x) =? 1) eqn:Hx.
    + apply readyState_open in Hx.
      rewrite !elem_of_cons. intros [->|[->|He]].
      * exists x. split; [left|]; auto.
      * exists x. split; [left|]; auto.
      * destruct (IH _ He) as (ws & Hin & Hopen & Hev).
        exists ws. split; [by right|]. split; [|done].
        destruct (decide (x = ws)) as [->|Hne].
        -- by rewrite fn_lookup_insert in Hopen.
        -- by rewrite fn_lookup_insert_ne in Hopen.
    + intros He. destruct (IH _ He) as (ws & Hin & Hopen & Hev).
      exists ws. split; [by right|done].
Qed.

Lemma exitNotices_sent (code : Z) (l : list WsRef) (rs : WsRef → ReadyState)
    (ws : WsRef) :
  ws ∈ l → rs ws = OPEN → EvSend ws (MsgExit code) ∈ exitNotices code l rs.
Proof.
  revert rs. induction l as [|x l IH]; intros rs; [by intros []%elem_of_nil|].
  intros Hin Hopen. cbn. destruct (decide (x = ws)) as [->|Hne].
  - rewrite Hopen. cbn. left.
  - apply elem_of_cons in Hin as [->|Hin]; [done|].
    destruct (readyStateCode (rs x) =? 1).
    + right. right. apply IH; [done|]. by rewrite fn_lookup_insert_ne.
    + by apply IH.
Qed.

(** Without a viewer listed twice, the notices are those of the open
    sockets, in the order of the list. *)
Lemma exitNotices_nodup (code : Z) (l : list WsRef) (rs : WsRef → ReadyState) :
  NoDup l →
  exitNotices code l rs =
  filter (λ ws, rs ws = OPEN) l ≫= λ ws, [EvSend ws (MsgExit code); EvClose ws].
Proof.
  revert rs. induction l as [|x l IH]; intros rs Hnd; [done|].
  apply list.NoDup_cons in Hnd as [Hx Hnd]. cbn [exitNotices]. rewrite list.filter_cons.
  destruct (readyStateCode (rs x) =? 1) eqn:Hopen.
  - apply readyState_open in Hopen. rewrite decide_True by done.
    rewrite bind_cons. cbn [app]. do 2 f_equal. rewrite IH by done. f_equal.
    apply filter_ext_elem. intros y Hy. rewrite fn_lookup_insert_ne; [done|].
    by intros ->.
  - apply readyState_not_open in Hopen. rewrite decide_False by done. by apply IH.
Qed.

End ExitNotices.

(** ** The registry map *)

Section JsMapFacts.
Context {V : Type}.
Implicit Types (m : list (JsString * V)) (k : JsString) (v : V).

Lemma get_Some_elem m k v : JsMap.get k m = Some v → (k, v) ∈ m.
Proof.
  induction m as [|[k' v'] m IH]; [done|]. cbn.
  case_bool_decide as Hk; [intros [= ->]; subst; left|intros ?; right; auto].
Qed.

Lemma get_None m k : JsMap.get k m = None ↔ k ∉ m.*1.
Proof.
  induction m as [|[k' v'] m IH]; cbn.
  - split; [intros _ []%elem_of_nil|done].
  - rewrite not_elem_of_cons. case_bool_decide as Hk.
    + split; [done|]. intros [? _]. congruence.
    + rewrite IH. split; [intros ?; split; [congruence|done]|by intros [_ ?]].
Qed.

Lemma get_NoDup m k v : NoDup m.*1 → (k, v) ∈ m → JsMap.get k m = Some v.
Proof.
  induction m as [|[k' v'] m IH]; [by intros _ []%elem_of_nil|]. cbn.
  intros [Hk Hnd]%list.NoDup_cons [[= -> ->]|Hin]%elem_of_cons.
  - by rewrite bool_decide_true.
  - case_bool_decide as Hkk; [|by apply IH]. subst k'.
    destruct Hk. apply list_elem_of_fmap. by exists (k, v).
Qed.

Lemma elem_of_delete m k e : e ∈ JsMap.delete k m ↔ e.1 ≠ k ∧ e ∈ m.
Proof. unfold JsMap.delete. by rewrite list_elem_of_filter. Qed.

Lemma get_delete_eq m k : JsMap.get k (JsMap.delete k m) = None.
Proof.
  apply get_None. intros ([k' v] & Hk & [Hne _]%elem_of_delete)%list_elem_of_fmap.
  cbn in *. congruence.
Qed.

Lemma get_delete_ne m k k' : k ≠ k' → JsMap.get k' (JsMap.delete k m) = JsMap.get k' m.
Proof.
  intros Hne. unfold JsMap.delete.
  induction m as [|[k0 v0] m IH]; [done|]. rewrite list.filter_cons. cbn.
  case_decide as Hd; cbn; case_bool_decide; subst; try congruence.
Qed.

Lemma delete_absent m k : k ∉ m.*1 → JsMap.delete k m = m.
Proof.
  unfold JsMap.delete. induction m as [|[k0 v0] m IH]; [done|]. rewrite fmap_cons.
  intros [Hne Hm]%not_elem_of_cons. rewrite list.filter_cons.
  rewrite decide_True by (cbn in *; congruence). f_equal. by apply IH.
Qed.

Lemma set_absent m k v : JsMap.get k m = None → JsMap.set k v m = m ++ [(k, v)].
Proof.
  induction m as [|[k0 v0] m IH]; [done|]. cbn.
  case_bool_decide; [done|]. intros Hg. f_equal. by apply IH.
Qed.

Lemma elem_of_set m k v e : e ∈ JsMap.set k v m → e = (k, v) ∨ e ∈ m.
Proof.
  induction m as [|[k0 v0] m IH]; cbn.
  - intros ->%list_elem_of_singleton. by left.
  - case_bool_decide.
    + intros [->|?]%elem_of_cons; [by left|right; by right].
    + intros [->|?]%elem_of_cons; [right; by left|].
      destruct IH as [->|?]; [done|by left|right; by right].
Qed.

Lemma get_set_eq m k v : JsMap.get k (JsMap.set k v m) = Some v.
Proof.
  induction m as [|[k0 v0] m IH]; cbn.
  - by rewrite bool_decide_true.
  - case_bool_decide as Hk; cbn; [by rewrite bool_decide_true|].
    by rewrite bool_decide_false.
Qed.

Lemma keys_set m k v :
  (JsMap.set k v m).*1 = if bool_decide (k ∈ m.*1) then m.*1 else m.*1 ++ [k].
Proof.
  induction m as [|[k0 v0] m IH]; [done|]. cbn [JsMap.set].
  destruct (decide (k0 = k)) as [->|Hne].
  - rewrite (bool_decide_true (k = k)) by done. rewrite !fmap_cons. cbn [fst].
    rewrite bool_decide_true; [done|left].
  - rewrite (bool_decide_false (k0 = k)) by done. rewrite !fmap_cons, IH. cbn [fst].
    destruct (decide (k ∈ m.*1)) as [Hin|Hin].
    + rewrite !bool_decide_true; [done|by right|done].
    + rewrite !bool_decide_false; [done| |done].
      rewrite not_elem_of_cons. split; congruence.
Qed.

Lemma keys_delete_NoDup m k : NoDup m.*1 → NoDup (JsMap.delete k m).*1.
Proof.
  unfold JsMap.delete. induction m as [|[k0 v0] m IH]; [done|]. rewrite fmap_cons.
  intros [Hk Hnd]%list.NoDup_cons. rewrite list.filter_cons.
  destruct (decide _); [|by apply IH]. rewrite fmap_cons.
  apply list.NoDup_cons. split; [|by apply IH].
  cbn [fst] in *.
  intros ([k' v'] & Heq & [_ Hin]%list_elem_of_filter)%list_elem_of_fmap.
  cbn in Heq. subst k'. apply Hk. apply list_elem_of_fmap. by exists (k0, v').
Qed.

Lemma keys_set_NoDup m k v : NoDup m.*1 → NoDup (JsMap.set k v m).*1.
Proof.
  intros Hnd. rewrite keys_set. case_bool_decide; [done|].
  apply list.NoDup_app. split; [done|]. split; [|apply NoDup_singleton].
  intros x Hx ->%list_elem_of_singleton. done.
Qed.

End JsMapFacts.

(** ** The registry's methods, case by case *)

Arguments JsMap.delete : simpl never.
Arguments JsMap.set : simpl never.
Arguments JsMap.keys : simpl never.

Section Methods.
Implicit Types (w : World) (username id : JsString).

Lemma pty_kill_caught (p : PtyRef) w :
  try_catch (pty_kill p) (λ _, ret tt) w = MkRun (Ok tt) w [EvKill p].
Proof. unfold pty_kill. unfold_M. by destruct (killThrows w p). Qed.

Lemma cleanupSession_invalid username e w :
  validateAndNormalizeUsername (VString username) = Throw e →
  cleanupSession username w = MkRun (Throw e) w [].
Proof. intros Hv. unfold cleanupSession. unfold_M. by rewrite Hv. Qed.

Lemma cleanupSession_absent username id w :
  validateAndNormalizeUsername (VString username) = Ok id →
  JsMap.get id (sessions w) = None →
  cleanupSession username w = MkRun (Ok tt) w [].
Proof. intros Hv Hg. unfold cleanupSession. unfold_M. rewrite Hv. cbn. by rewrite Hg. Qed.

Lemma cleanupSession_present username id (session : SessRef) w :
  validateAndNormalizeUsername (VString username) = Ok id →
  JsMap.get id (sessions w) = Some session →
  cleanupSession username w =
  MkRun (Ok tt)
    (set_sessions (JsMap.delete id)
       (set_readyState (closeAll (subscribers (heap w session))) w))
    (exitNotices 0 (subscribers (heap w session)) (readyState w)
     ++ [EvKill (pty (heap w session))]).
Proof.
  intros Hv Hg. unfold cleanupSession, deref, pty_kill. unfold_M.
  rewrite Hv. cbn. rewrite Hg. cbn. rewrite forEach_notifyExit. cbn.
  destruct (killThrows w _); cbn; by rewrite ?app_nil_r.
Qed.

Lemma createSession_ok username id w :
  validateAndNormalizeUsername (VString username) = Ok id →
  createSession username w =
  MkRun (Ok (nextRef w))
    (set_exitListeners (λ ls, <[nextPty w := ls (nextPty w) ++ [OnExitCleanup id]]> ls)
       (set_sessions (JsMap.set id (nextRef w))
          (set_heap <[nextRef w :=
               MkSession (nextPty w) (time w (clock w)) (time w (S (clock w))) []]>
             (set_nextRef S (set_clock (λ c, S (S c)) (set_nextPty S w))))))
    [EvSpawn (nextPty w) id].
Proof.
  intros Hv. unfold createSession, pty_spawn, Date_now, new_session, pty_on_exit.
  unfold_M. rewrite Hv. cbn. rewrite (validate_path_ok _ _ Hv). cbn.
  by destruct w.
Qed.

Lemma getOrCreateSession_existing username id (session : SessRef) w :
  validateAndNormalizeUsername (VString username) = Ok id →
  JsMap.get id (sessions w) = Some session →
  getOrCreateSession username false w =
  MkRun (Ok session)
    (set_heap (λ h, <[session := MkSession (pty (h session)) (created (h session))
                                   (time w (clock w)) (subscribers (h session))]> h)
       (set_clock S w))
    [].
Proof.
  intros Hv Hg. unfold getOrCreateSession, Date_now, assign_lastActivity.
  unfold_M. rewrite Hv. cbn. rewrite Hg. cbn.
  by destruct w.
Qed.

Lemma getOrCreateSession_absent username id (forceNew : bool) w :
  validateAndNormalizeUsername (VString username) = Ok id →
  JsMap.get id (sessions w) = None →
  getOrCreateSession username forceNew w = createSession id w.
Proof.
  intros Hv Hg. unfold getOrCreateSession, JsMap.has.
  unfold_M. rewrite Hv. cbn. rewrite Hg. rewrite andb_false_r. cbn. rewrite Hg.
  by destruct (createSession id w) as [[]].
Qed.

Lemma getOrCreateSession_forced username id (session : SessRef) w :
  validateAndNormalizeUsername (VString username) = Ok id →
  JsMap.get id (sessions w) = Some session →
  getOrCreateSession username true w =
  let destroyed := cleanupSession id w in
  let fresh := createSession id (final destroyed) in
  MkRun (result fresh) (final fresh) (emitted destroyed ++ emitted fresh).
Proof.
  intros Hv Hg. pose proof (validate_idempotent _ _ Hv) as Hid.
  unfold getOrCreateSession, JsMap.has.
  unfold_M. rewrite Hv. cbn. rewrite Hg. cbn.
  rewrite (cleanupSession_present _ _ _ _ Hid Hg). cbn. rewrite get_delete_eq.
  by destruct (createSession id _) as [[]].
Qed.

End Methods.

(** ** Replacing, reusing and destroying sessions *)

Lemma filter_key_delete {V} (k : JsString) (m : list (JsString * V)) :
  filter (λ e, e.1 = k) (JsMap.delete k m) = [].
Proof.
  unfold JsMap.delete. induction m as [|e m IH]; [done|].
  rewrite (list.filter_cons (λ e, e.1 ≠ k)). destruct (decide (e.1 ≠ k)); [|done].
  rewrite list.filter_cons. by rewrite decide_False.
Qed.

Lemma open_notified_exitNotices (w : World) (session : SessRef) (code : Z) :
  open_notified_once w session
    (exitNotices code (subscribers (heap w session)) (readyState w)).
Proof.
  intros ws Hws. rewrite exitCount_exitNotices.
  rewrite (bool_decide_ext _ (readyState w ws = OPEN)); [done|tauto].
Qed.

Lemma exitCount_cons_other (ws : WsRef) (e : Event) (events : list Event) :
  isExitTo ws e = false → exitCount ws (e :: events) = exitCount ws events.
Proof.
  intros He. unfold exitCount. rewrite list.filter_cons.
  rewrite decide_False by congruence. done.
Qed.

Lemma closeCount_cons_other (ws : WsRef) (e : Event) (events : list Event) :
  e ≠ EvClose ws → closeCount ws (e :: events) = closeCount ws events.
Proof.
  intros He. unfold closeCount. rewrite list.filter_cons. by rewrite decide_False.
Qed.

(** C1. For an identity with a registered session, [getOrCreateSession] with
    [forceNew] first destroys that session - every viewer attached to it
    whose socket is open is sent one exit message and closed, then the
    process is killed - and only then spawns a process and registers a new
    session object for it: when it returns, the registry holds exactly one
    entry for the identity, the new one. *)
Theorem getOrCreateSession_force_replaces
    (username id : JsString) (old : SessRef) (w : World) :
  validateAndNormalizeUsername (VString username) = Ok id →
  JsMap.get id (sessions w) = Some old →
  let r := getOrCreateSession username true w in
  result r = Ok (nextRef w) ∧
  emitted r =
    exitNotices 0 (subscribers (heap w old)) (readyState w)
    ++ [EvKill (pty (heap w old)); EvSpawn (nextPty w) id] ∧
  open_notified_once w old (emitted r) ∧
  (∀ ws, ws ∈ subscribers (heap w old) → readyState w ws = OPEN →
         EvSend ws (MsgExit 0) ∈ emitted r) ∧
  sessions (final r) = JsMap.delete id (sessions w) ++ [(id, nextRef w)] ∧
  JsMap.get id (sessions (final r)) = Some (nextRef w) ∧
  length (filter (λ e, e.1 = id) (sessions (final r))) = 1%nat ∧
  heap (final r) (nextRef w) =
    MkSession (nextPty w) (time w (clock w)) (time w (S (clock w))) [] ∧
  nextPty (final r) = S (nextPty w).
Proof.
  intros Hv Hg r. pose proof (validate_idempotent _ _ Hv) as Hid.
  subst r. rewrite (getOrCreateSession_forced _ _ _ _ Hv Hg). cbv zeta.
  rewrite (cleanupSession_present _ _ _ _ Hid Hg). cbn [final emitted result].
  rewrite (createSession_ok _ _ _ Hid). cbn [final emitted result].
  destruct w as [ss h nr rs dl el kt np tm ck]. fields.
  rewrite <- app_assoc. cbn [app].
  rewrite (set_absent _ _ _ (get_delete_eq ss id)).
  split; [done|]. split; [done|]. split.
  { intros ws Hws. rewrite exitCount_app.
    pose proof (open_notified_exitNotices (MkWorld ss h nr rs dl el kt np tm ck) old 0 ws Hws)
      as Hn.
    fields. rewrite Hn.
    rewrite !exitCount_cons_other by done. change (exitCount ws []) with 0%nat. lia. }
  split.
  { intros ws Hws Hopen. apply elem_of_app. left. by apply exitNotices_sent. }
  split; [done|]. split.
  { rewrite <- (set_absent _ _ _ (get_delete_eq ss id)). apply get_set_eq. }
  split.
  { rewrite list.filter_app, filter_key_delete. rewrite list.filter_cons.
    by rewrite decide_True. }
  split; [|done]. by rewrite fn_lookup_insert.
Qed.


(** C2. For a valid identity, [getOrCreateSession] without [forceNew] returns
    a session that is registered under the identity; and as long as that
    session stays registered (no destroy in between; in particular right
    after the first call), a second call returns the same session object,
    spawns nothing, leaves the registry as it is and sets the session's
    last-activity to the time of the call. *)
Theorem getOrCreateSession_reuses (username id : JsString) (w : World) :
  validateAndNormalizeUsername (VString username) = Ok id →
  let first := getOrCreateSession username false w in
  ∃ session : SessRef,
    result first = Ok session ∧
    JsMap.get id (sessions (final first)) = Some session ∧
    ∀ w', JsMap.get id (sessions w') = Some session →
      let second := getOrCreateSession username false w' in
      result second = Ok session ∧
      emitted second = [] ∧
      sessions (final second) = sessions w' ∧
      nextPty (final second) = nextPty w' ∧
      lastActivity (heap (final second) session) = time w' (clock w') ∧
      pty (heap (final second) session) = pty (heap w' session) ∧
      created (heap (final second) session) = created (heap w' session) ∧
      subscribers (heap (final second) session) = subscribers (heap w' session).
Proof.
  intros Hv first. pose proof (validate_idempotent _ _ Hv) as Hid.
  assert (Hsecond : ∀ session w', JsMap.get id (sessions w') = Some session →
    let second := getOrCreateSession username false w' in
    result second = Ok session ∧ emitted second = [] ∧
    sessions (final second) = sessions w' ∧ nextPty (final second) = nextPty w' ∧
    lastActivity (heap (final second) session) = time w' (clock w') ∧
    pty (heap (final second) session) = pty (heap w' session) ∧
    created (heap (final second) session) = created (heap w' session) ∧
    subscribers (heap (final second) session) = subscribers (heap w' session)).
  { intros session w' Hg second. subst second.
    rewrite (getOrCreateSession_existing _ _ _ _ Hv Hg).
    destruct w'. fields. rewrite fn_lookup_insert. by cbn. }
  subst first. destruct (JsMap.get id (sessions w)) as [session|] eqn:Hg.
  - exists session. rewrite (getOrCreateSession_existing _ _ _ _ Hv Hg).
    split; [done|]. split; [by destruct w|]. apply Hsecond.
  - exists (nextRef w). rewrite (getOrCreateSession_absent _ _ _ _ Hv Hg).
    rewrite (createSession_ok _ _ _ Hid).
    split; [done|]. split; [|apply Hsecond].
    destruct w. fields. apply get_set_eq.
Qed.

(** C4. Destroying is idempotent. For a valid identity: with no session
    registered, [cleanupSession] changes nothing, sends nothing and returns;
    in every case it returns normally and leaves no entry for the identity,
    also when [pty.kill()] throws; and a second call right after the first
    does nothing, so that over the two calls each viewer is sent at most one
    exit message and closed at most once. *)
Theorem cleanupSession_idempotent (username id : JsString) (w : World) :
  validateAndNormalizeUsername (VString username) = Ok id →
  let first := cleanupSession username w in
  let second := cleanupSession username (final first) in
  (JsMap.get id (sessions w) = None → first = MkRun (Ok tt) w []) ∧
  result first = Ok tt ∧
  JsMap.get id (sessions (final first)) = None ∧
  second = MkRun (Ok tt) (final first) [] ∧
  (∀ ws, (exitCount ws (emitted first ++ emitted second) ≤ 1)%nat ∧
         (closeCount ws (emitted first ++ emitted second) ≤ 1)%nat) ∧
  (∀ session, JsMap.get id (sessions w) = Some session →
     killThrows w (pty (heap w session)) = true →
     EvKill (pty (heap w session)) ∈ emitted first ∧
     result first = Ok tt ∧
     JsMap.get id (sessions (final first)) = None).
Proof.
  intros Hv first second.
  assert (Hfirst : result first = Ok tt ∧ JsMap.get id (sessions (final first)) = None).
  { subst first. destruct (JsMap.get id (sessions w)) as [session|] eqn:Hg.
    - rewrite (cleanupSession_present _ _ _ _ Hv Hg). split; [done|].
      destruct w. fields. apply get_delete_eq.
    - by rewrite (cleanupSession_absent _ _ _ Hv Hg). }
  destruct Hfirst as [Hres Hgone].
  assert (Hsecond : second = MkRun (Ok tt) (final first) []).
  { subst second. by apply (cleanupSession_absent _ id). }
  split; [by apply cleanupSession_absent|].
  split; [done|]. split; [done|]. split; [done|]. split.
  - intros ws. rewrite Hsecond. cbn [emitted]. rewrite app_nil_r. subst first.
    destruct (JsMap.get id (sessions w)) as [session|] eqn:Hg.
    + rewrite (cleanupSession_present _ _ _ _ Hv Hg). cbn [emitted].
      rewrite exitCount_app, closeCount_app.
      rewrite exitCount_exitNotices, closeCount_exitNotices.
      rewrite exitCount_cons_other by done. change (exitCount ws []) with 0%nat.
      rewrite closeCount_cons_other by done. change (closeCount ws []) with 0%nat.
      case_bool_decide; lia.
    + rewrite (cleanupSession_absent _ _ _ Hv Hg). cbn. lia.
  - intros session Hg _. split; [|done]. subst first.
    rewrite (cleanupSession_present _ _ _ _ Hv Hg). cbn [emitted].
    apply elem_of_app. right. left.
Qed.

(** ** The exit of a process *)

Lemma forEach_fmap {A B} (f : A → B) (l : list A) (body : B → M unit) (w : World) :
  forEach (f <$> l) body w = forEach l (λ x, body (f x)) w.
Proof.
  revert w. induction l as [|x l IH]; intros w; [done|].
  rewrite fmap_cons. cbn [forEach]. unfold bind.
  destruct (body (f x) w) as [[[]|e] w1 ev1]; [|done]. by rewrite IH.
Qed.

(** The 'exit' event of a process whose listeners are the registry's and
    then those of some viewers: the registry's cleanup runs first, the
    viewers' handlers find what it left. *)
Lemma pty_emit_exit_run (p : PtyRef) (code : Z) (id : JsString) (viewers : list WsRef)
    (w : World) :
  validateAndNormalizeUsername (VString id) = Ok id →
  exitListeners w p = OnExitCleanup id :: (OnceExitHandler <$> viewers) →
  let w0 := set_exitListeners
              (λ ls, <[p := filter (λ l, isOnce l = false) (ls p)]> ls) w in
  let destroyed := cleanupSession id w0 in
  pty_emit_exit p code w =
  MkRun (Ok tt) (set_readyState (closeAll viewers) (final destroyed))
    (emitted destroyed ++ exitNotices code viewers (readyState (final destroyed))).
Proof.
  intros Hv Hl w0 destroyed. unfold pty_emit_exit. unfold_M. rewrite Hl.
  cbn [forEach runExitListener]. unfold bind. fold w0. fold destroyed.
  assert (Hres : result destroyed = Ok tt).
  { subst destroyed. destruct (JsMap.get id (sessions w0)) as [session|] eqn:Hg.
    - by rewrite (cleanupSession_present _ _ _ _ Hv Hg).
    - by rewrite (cleanupSession_absent _ _ _ Hv Hg). }
  destruct destroyed as [res w1 ev1]. cbn in Hres. subst res.
  rewrite forEach_fmap. cbn [runExitListener]. unfold exitHandler.
  change (λ x : nat, notifyExit code x) with (notifyExit code).
  rewrite (forEach_notifyExit code viewers w1). done.
Qed.

Lemma exit_events_count (subs viewers : list WsRef) (rs : WsRef → ReadyState)
    (code : Z) (p : PtyRef) (ws : WsRef) :
  ws ∈ subs →
  exitCount ws
    ((exitNotices 0 subs rs ++ [EvKill p]) ++ exitNotices code viewers (closeAll subs rs)) =
  if bool_decide (rs ws = OPEN) then 1%nat else 0%nat.
Proof.
  intros Hws. rewrite !exitCount_app, !exitCount_exitNotices.
  rewrite exitCount_cons_other by done. change (exitCount ws []) with 0%nat.
  rewrite closeAll_spec.
  destruct (decide (rs ws = OPEN)) as [Hopen|Hclosed].
  - rewrite !(bool_decide_true (rs ws = OPEN)) by done.
    rewrite (bool_decide_true (ws ∈ subs ∧ _)) by done.
    rewrite (bool_decide_false (_ ∧ CLOSING = OPEN)) by (by intros [_ ?]). done.
  - rewrite !(bool_decide_false (rs ws = OPEN)) by done.
    rewrite (bool_decide_false (ws ∈ subs ∧ _)) by (by intros [_ ?]).
    rewrite (bool_decide_false (_ ∧ rs ws = OPEN)) by (by intros [_ ?]). done.
Qed.

(** The exit of the process of a registered session, in full. *)
Lemma pty_emit_exit_registered (code : Z) (id : JsString) (session : SessRef)
    (viewers : list WsRef) (w : World) :
  let p := pty (heap w session) in
  validateAndNormalizeUsername (VString id) = Ok id →
  JsMap.get id (sessions w) = Some session →
  exitListeners w p = OnExitCleanup id :: (OnceExitHandler <$> viewers) →
  ∃ w1,
    pty_emit_exit p code w =
    MkRun (Ok tt) w1
      ((exitNotices 0 (subscribers (heap w session)) (readyState w) ++ [EvKill p])
       ++ exitNotices code viewers (closeAll (subscribers (heap w session)) (readyState w)))
    ∧ JsMap.get id (sessions w1) = None.
Proof.
  intros p Hv Hg Hl.
  rewrite (pty_emit_exit_run p code id viewers w Hv Hl). cbv zeta.
  rewrite (cleanupSession_present id id session) by (exact Hv || exact Hg).
  destruct w. eexists. split; [fields; reflexivity|].
  fields. apply get_delete_eq.
Qed.

(** When the process of a registered session exits, and its listeners are
    the registry's followed by those of viewers, the session is settled; and
    so it is when an explicit destroy comes just before or just after. *)
Lemma process_exit_settles
    (p : PtyRef) (code : Z) (id : JsString) (session : SessRef)
    (viewers : list WsRef) (w : World) :
  validateAndNormalizeUsername (VString id) = Ok id →
  JsMap.get id (sessions w) = Some session →
  pty (heap w session) = p →
  exitListeners w p = OnExitCleanup id :: (OnceExitHandler <$> viewers) →
  exit_settled w id session (pty_emit_exit p code w) ∧
  exit_settled w id session ((cleanupSession id;; pty_emit_exit p code) w) ∧
  exit_settled w id session ((pty_emit_exit p code;; cleanupSession id) w).
Proof.
  intros Hv Hg <- Hl. set (p := pty (heap w session)) in *.
  pose proof (pty_emit_exit_registered code id session viewers w Hv Hg Hl) as Hexit.
  fold p in Hexit.
  destruct Hexit as (w1 & Hrun & Hgone).
  split; [|split].
  - rewrite Hrun. split; [done|]. split; [done|].
    intros ws Hws. by apply exit_events_count.
  - unfold bind. rewrite (cleanupSession_present _ _ _ _ Hv Hg).
    rewrite (pty_emit_exit_run p code id viewers) by (exact Hv || exact Hl).
    cbv zeta. rewrite (cleanupSession_absent id id)
      by (exact Hv || (destruct w; fields; apply get_delete_eq)).
    split; [done|]. split; [destruct w; fields; apply get_delete_eq|].
    intros ws Hws. destruct w. fields. rewrite app_nil_l.
    by apply exit_events_count.
  - unfold bind. rewrite Hrun. rewrite (cleanupSession_absent _ _ _ Hv Hgone).
    split; [done|]. split; [done|].
    intros ws Hws. cbn [emitted]. rewrite app_nil_r. by apply exit_events_count.
Qed.

(** C10. Whenever [cleanupSession] tears a session down, every subscriber
    whose socket is open is sent one exit message, with code 0; nothing else
    is sent, so a subscriber whose socket is not open gets no message. The
    open subscribers are notified and closed in the order of the list, then
    the process is killed. When the teardown is the one the exit of the
    process triggers, the subscribers get code 0 all the same, whatever code
    the process exited with. *)
Theorem cleanupSession_sends_exit_code_0
    (username id : JsString) (session : SessRef) (w : World) :
  validateAndNormalizeUsername (VString username) = Ok id →
  JsMap.get id (sessions w) = Some session →
  let subs := subscribers (heap w session) in
  let events := emitted (cleanupSession username w) in
  (∀ ws, ws ∈ subs → readyState w ws = OPEN →
         EvSend ws (MsgExit 0) ∈ events ∧ exitCount ws events = 1%nat) ∧
  (∀ ws m, EvSend ws m ∈ events →
           m = MsgExit 0 ∧ ws ∈ subs ∧ readyState w ws = OPEN) ∧
  (∀ ws, ws ∈ subs → readyState w ws ≠ OPEN → ∀ m, EvSend ws m ∉ events) ∧
  (NoDup subs →
     events =
       (filter (λ ws, readyState w ws = OPEN) subs
          ≫= λ ws, [EvSend ws (MsgExit 0); EvClose ws])
       ++ [EvKill (pty (heap w session))]) ∧
  (∀ code viewers,
     exitListeners w (pty (heap w session)) =
       OnExitCleanup id :: (OnceExitHandler <$> viewers) →
     ∀ ws m, ws ∈ subs →
       EvSend ws m ∈ emitted (pty_emit_exit (pty (heap w session)) code w) →
       m = MsgExit 0).
Proof.
  intros Hv Hg subs events. pose proof (validate_idempotent _ _ Hv) as Hid.
  subst events. rewrite (cleanupSession_present _ _ _ _ Hv Hg). cbn [emitted].
  fold subs.
  assert (Hsent : ∀ ws m,
    EvSend ws m ∈ exitNotices 0 subs (readyState w) ++ [EvKill (pty (heap w session))] →
    m = MsgExit 0 ∧ ws ∈ subs ∧ readyState w ws = OPEN).
  { intros ws m [Hin|Hin]%elem_of_app.
    - apply elem_of_exitNotices in Hin as (ws' & Hws' & Hopen & [[= -> ->]|[=]]). done.
    - apply list_elem_of_singleton in Hin. discriminate. }
  split; [|split; [exact Hsent|split; [|split]]].
  - intros ws Hws Hopen. split.
    + apply elem_of_app. left. by apply exitNotices_sent.
    + rewrite exitCount_app, exitCount_exitNotices.
      rewrite bool_decide_true by done.
      rewrite exitCount_cons_other by done. done.
  - intros ws Hws Hclosed m Hin. by destruct (Hsent ws m Hin) as (_ & _ & ?).
  - intros Hnd. by rewrite exitNotices_nodup.
  - intros code viewers Hl ws m Hws.
    destruct (pty_emit_exit_registered code id session viewers w Hid Hg Hl)
      as (w1 & -> & _).
    cbn [emitted]. fold subs. intros [Hin|Hin]%elem_of_app.
    + by destruct (Hsent ws m Hin) as (? & _).
    + apply elem_of_exitNotices in Hin as (ws' & _ & Hopen & [[= -> ->]|[=]]).
      rewrite closeAll_spec in Hopen. case_bool_decide as Hc; [discriminate|].
      destruct Hc. done.
Qed.

(** ** The idle sweep *)

Section Sweep.
Implicit Types (w : World) (pre todo : list (JsString * SessRef)).

Lemma get_app_middle {V} (pre rest : list (JsString * V)) (k : JsString) (v : V) :
  k ∉ pre.*1 → JsMap.get k (pre ++ (k, v) :: rest) = Some v.
Proof.
  induction pre as [|[k0 v0] pre IH]; cbn.
  - intros _. by rewrite bool_decide_true.
  - intros [Hne Hpre]%not_elem_of_cons. rewrite bool_decide_false by congruence. auto.
Qed.

Lemma delete_app_middle {V} (pre rest : list (JsString * V)) (k : JsString) (v : V) :
  k ∉ pre.*1 → k ∉ rest.*1 → JsMap.delete k (pre ++ (k, v) :: rest) = pre ++ rest.
Proof.
  intros Hpre Hrest. unfold JsMap.delete.
  rewrite list.filter_app, list.filter_cons. rewrite decide_False by (cbn; tauto).
  fold (JsMap.delete k pre). fold (JsMap.delete k rest).
  by rewrite !delete_absent.
Qed.

Lemma idle_test (h : SessRef → PtySession) (now timeoutMs : Z) (k : JsString)
    (r : SessRef) :
  bool_decide (length (subscribers (h r)) = 0%nat) && (now - lastActivity (h r) >? timeoutMs)
  = bool_decide (idle h now timeoutMs (k, r)).
Proof.
  destruct (decide (idle h now timeoutMs (k, r))) as [[Hs Hl]|Hn].
  - rewrite (bool_decide_true (idle _ _ _ _)) by done. cbn [snd] in *.
    rewrite bool_decide_true by (by rewrite Hs). cbn [andb].
    apply Z.gtb_lt. lia.
  - rewrite (bool_decide_false (idle _ _ _ _)) by done.
    apply not_true_is_false. intros [Hlen Hgt]%andb_true_iff. apply Hn. split.
    + apply bool_decide_eq_true in Hlen. by apply nil_length_inv.
    + apply Z.gtb_lt in Hgt. cbn [snd]. lia.
Qed.

Lemma cleanupInactiveLoop_run (now timeoutMs : Z) todo pre (cleaned : nat) w :
  sessions w = pre ++ todo →
  NoDup (pre ++ todo).*1 →
  Forall (λ e, validateAndNormalizeUsername (VString e.1) = Ok e.1) todo →
  cleanupInactiveLoop now timeoutMs todo.*1 cleaned w =
  MkRun (Ok (cleaned + length (filter (idle (heap w) now timeoutMs) todo))%nat)
    (set_sessions (λ _, pre ++ filter (λ e, ¬ idle (heap w) now timeoutMs e) todo) w)
    ((λ e, EvKill (pty (heap w e.2))) <$> filter (idle (heap w) now timeoutMs) todo).
Proof.
  revert pre cleaned w. induction todo as [|[k r] todo IH]; intros pre cleaned w Hs Hnd Hkeys.
  - cbn. unfold ret. rewrite Nat.add_0_r. f_equal.
    destruct w. fields. by rewrite Hs.
  - rewrite fmap_cons. cbn [cleanupInactiveLoop fst]. unfold deref.
    unfold bind, gets, ret. cbn -[filter fmap].
    rewrite fmap_app, fmap_cons in Hnd. cbn [fst] in Hnd.
    apply list.NoDup_app in Hnd as (Hndpre & Hdisj & [Hk Hndtodo]%list.NoDup_cons).
    assert (Hkpre : k ∉ pre.*1).
    { intros Hin. apply (Hdisj _ Hin). left. }
    apply list.Forall_cons in Hkeys as [Hkv Hkeys]. cbn [fst] in Hkv.
    rewrite Hs, (get_app_middle pre todo k r Hkpre).
    rewrite (idle_test (heap w) now timeoutMs k r).
    rewrite !list.filter_cons.
    destruct (decide (idle (heap w) now timeoutMs (k, r))) as [Hidle|Hbusy].
    + rewrite bool_decide_true by done. rewrite decide_False by tauto.
      assert (Hg : JsMap.get k (sessions w) = Some r)
        by (rewrite Hs; by apply get_app_middle).
      rewrite (cleanupSession_present k k r w Hkv Hg).
      destruct Hidle as [Hsubs Hlate]. cbn [snd] in Hsubs. rewrite Hsubs.
      cbn [exitNotices app].
      rewrite (IH pre (S cleaned)).
      * destruct w. fields. cbn [length fmap list_fmap snd]. f_equal.
        f_equal. lia.
      * destruct w. fields. rewrite Hs. by apply delete_app_middle.
      * rewrite fmap_app. apply list.NoDup_app. split; [done|]. split; [|done].
        intros x Hx Hx'. apply (Hdisj x Hx). by right.
      * done.
    + rewrite bool_decide_false by done. rewrite decide_True by done.
      rewrite (IH (pre ++ [(k, r)]) cleaned).
      * rewrite <- app_assoc. done.
      * by rewrite <- app_assoc.
      * rewrite <- app_assoc. cbn [app]. rewrite fmap_app, fmap_cons. cbn [fst].
        apply list.NoDup_app. split; [done|]. split; [done|].
        by apply list.NoDup_cons.
      * done.
Qed.

End Sweep.

(** The sweep on a registry whose keys are distinct normalized usernames. *)
Lemma cleanupInactiveSessions_run (timeoutMs : Z) (w : World) :
  keys_normalized w →
  let now := time w (clock w) in
  let r := cleanupInactiveSessions timeoutMs w in
  result r = Ok (length (filter (idle (heap w) now timeoutMs) (sessions w))) ∧
  sessions (final r) = filter (λ e, ¬ idle (heap w) now timeoutMs e) (sessions w) ∧
  heap (final r) = heap w ∧
  readyState (final r) = readyState w ∧
  emitted r =
    (λ e, EvKill (pty (heap w e.2))) <$> filter (idle (heap w) now timeoutMs) (sessions w).
Proof.
  intros [Hnd Hkeys] now r. subst r now.
  unfold cleanupInactiveSessions, Date_now. unfold_M. unfold JsMap.keys.
  rewrite (cleanupInactiveLoop_run _ timeoutMs (sessions w) [] 0 (set_clock S w));
    [|done|done|done].
  by destruct w.
Qed.

(** ** The relay's message handler *)

Section Messages.
Implicit Types (w : World) (msg : WebSocketMessage) (v : JsValue).

Lemma dimension_check v :
  negb (Number_isInteger v) || num_lt v 1 || num_gt v 1000 = false ↔ dimension_in_range v.
Proof.
  unfold dimension_in_range. split.
  - destruct v as [| | |[z| | |]| |]; cbn; try discriminate.
    intros H. exists z. split; [done|].
    apply orb_false_iff in H as [Hlt Hgt].
    apply Z.ltb_ge in Hlt. rewrite Z.gtb_ltb in Hgt. apply Z.ltb_ge in Hgt. lia.
  - intros (z & -> & Hz). cbn. apply orb_false_iff. split.
    + apply Z.ltb_ge. lia.
    + rewrite Z.gtb_ltb. apply Z.ltb_ge. lia.
Qed.

Lemma validateTerminalDimensions_ok (cols rows : JsValue) :
  validateTerminalDimensions cols rows = Ok tt ↔
  dimension_in_range cols ∧ dimension_in_range rows.
Proof.
  unfold validateTerminalDimensions. rewrite <- !dimension_check.
  destruct (negb (Number_isInteger cols) || num_lt cols 1 || num_gt cols 1000);
    [split; [discriminate|by intros [? _]]|].
  destruct (negb (Number_isInteger rows) || num_lt rows 1 || num_gt rows 1000);
    [split; [discriminate|by intros [_ ?]]|].
  done.
Qed.

Lemma classic_dimension (cols rows : JsValue) :
  (dimension_in_range cols ∧ dimension_in_range rows) ∨
  ¬ (dimension_in_range cols ∧ dimension_in_range rows).
Proof.
  destruct (validateTerminalDimensions cols rows) as [[]|e] eqn:Hv.
  - left. by apply validateTerminalDimensions_ok.
  - right. intros H%validateTerminalDimensions_ok. congruence.
Qed.

Lemma dimension_truthy v : dimension_in_range v → truthy v = true.
Proof.
  intros (z & -> & Hz). cbn. apply negb_true_iff. apply Z.eqb_neq. lia.
Qed.

Lemma ws_on_message_resize (ws : WsRef) (pty : PtyRef) (username : JsString) msg w :
  msg_type msg = VString (str "resize") →
  ws_on_message ws pty username (Some msg) w =
  MkRun (Ok tt) w
    (if truthy (msg_cols msg) && truthy (msg_rows msg) then
       match validateTerminalDimensions (msg_cols msg) (msg_rows msg) with
       | Ok _ => [EvResize pty (msg_cols msg) (msg_rows msg)]
       | Throw _ => []
       end
     else []).
Proof.
  intros Ht. unfold ws_on_message, pty_resize. rewrite Ht.
  rewrite bool_decide_false by (by vm_compute).
  rewrite bool_decide_true by done.
  unfold_M. destruct (truthy (msg_cols msg) && truthy (msg_rows msg)); [|done].
  cbn. by destruct (validateTerminalDimensions _ _) as [[]|].
Qed.

Lemma ws_on_message_input (ws : WsRef) (pty : PtyRef) (username : JsString) msg w :
  msg_type msg = VString (str "input") →
  ws_on_message ws pty username (Some msg) w =
  MkRun (Ok tt) w
    (if truthy (msg_data msg) then
       match sanitizeTerminalInput (msg_data msg) with
       | Ok sanitizedInput => [EvWrite pty sanitizedInput]
       | Throw _ => [EvSend ws (MsgError "Invalid input")]
       end
     else []).
Proof.
  intros Ht. unfold ws_on_message, pty_write, ws_send. rewrite Ht.
  rewrite bool_decide_true by done.
  unfold_M. destruct (truthy (msg_data msg)); [|done].
  cbn. by destruct (sanitizeTerminalInput _).
Qed.

End Messages.

(** C6. An "input" message never changes the registry or the sockets, and
    the handler returns. If its data is a string of more than 10000 units (or
    something truthy that is not a string), the viewer is sent an error and
    nothing is written to the process. If it is a non-empty string of at most
    10000 units, exactly that string is written. If it is empty (or otherwise
    falsy), nothing is written and nothing is sent. *)
Theorem input_checked_before_write
    (ws : WsRef) (pty : PtyRef) (username : JsString) (msg : WebSocketMessage)
    (w : World) :
  msg_type msg = VString (str "input") →
  let r := ws_on_message ws pty username (Some msg) w in
  result r = Ok tt ∧ final r = w ∧
  (∀ d, msg_data msg = VString d → 10000 < Z.of_nat (length d) →
        emitted r = [EvSend ws (MsgError "Invalid input")]) ∧
  (∀ d, msg_data msg = VString d → d ≠ [] → Z.of_nat (length d) ≤ 10000 →
        emitted r = [EvWrite pty d]) ∧
  (truthy (msg_data msg) = false → emitted r = []) ∧
  (truthy (msg_data msg) = true → (∀ d, msg_data msg ≠ VString d) →
        emitted r = [EvSend ws (MsgError "Invalid input")]).
Proof.
  intros Ht r. subst r. rewrite (ws_on_message_input _ _ _ _ _ Ht). cbn [result final emitted].
  split; [done|]. split; [done|]. split; [|split; [|split]].
  - intros d -> Hlong. cbn.
    destruct d as [|c d]; [cbn in Hlong; lia|]. rewrite bool_decide_false by done.
    cbn [negb]. destruct (Z.gtb_spec (Z.of_nat (length (c :: d))) 10000); [done|lia].
  - intros d -> Hne Hshort. cbn. rewrite bool_decide_false by done. cbn [negb].
    destruct (Z.gtb_spec (Z.of_nat (length d)) 10000); [lia|done].
  - by intros ->.
  - intros -> Hns. destruct (msg_data msg) as [| | | |d|]; try done.
    by destruct (Hns d).
Qed.

(** C7. A "resize" message reaches the process's resize operation, with
    the columns and rows it carries, if and only if both are integers from 1
    to 1000; otherwise nothing is called. In both cases the handler returns
    and neither the registry nor any socket changes. *)
Theorem resize_applied_iff_in_range
    (ws : WsRef) (pty : PtyRef) (username : JsString) (msg : WebSocketMessage)
    (w : World) :
  msg_type msg = VString (str "resize") →
  let r := ws_on_message ws pty username (Some msg) w in
  result r = Ok tt ∧ final r = w ∧
  (dimension_in_range (msg_cols msg) ∧ dimension_in_range (msg_rows msg) →
     emitted r = [EvResize pty (msg_cols msg) (msg_rows msg)]) ∧
  (¬ (dimension_in_range (msg_cols msg) ∧ dimension_in_range (msg_rows msg)) →
     emitted r = []) ∧
  (∀ p cols rows, EvResize p cols rows ∈ emitted r ↔
     p = pty ∧ cols = msg_cols msg ∧ rows = msg_rows msg ∧
     dimension_in_range cols ∧ dimension_in_range rows).
Proof.
  intros Ht r. subst r. rewrite (ws_on_message_resize _ _ _ _ _ Ht).
  cbn [result final emitted].
  assert (Hin : dimension_in_range (msg_cols msg) ∧ dimension_in_range (msg_rows msg) →
    (if truthy (msg_cols msg) && truthy (msg_rows msg) then
       match validateTerminalDimensions (msg_cols msg) (msg_rows msg) with
       | Ok _ => [EvResize pty (msg_cols msg) (msg_rows msg)]
       | Throw _ => []
       end
     else []) = [EvResize pty (msg_cols msg) (msg_rows msg)]).
  { intros [Hc Hr]. rewrite !dimension_truthy by done. cbn [andb].
    by rewrite (proj2 (validateTerminalDimensions_ok _ _)). }
  assert (Hout : ¬ (dimension_in_range (msg_cols msg) ∧ dimension_in_range (msg_rows msg)) →
    (if truthy (msg_cols msg) && truthy (msg_rows msg) then
       match validateTerminalDimensions (msg_cols msg) (msg_rows msg) with
       | Ok _ => [EvResize pty (msg_cols msg) (msg_rows msg)]
       | Throw _ => []
       end
     else []) = []).
  { intros Hn. destruct (truthy (msg_cols msg) && truthy (msg_rows msg)); [|done].
    destruct (validateTerminalDimensions _ _) as [[]|] eqn:Hv; [|done].
    destruct Hn. by apply validateTerminalDimensions_ok. }
  split; [done|]. split; [done|]. split; [exact Hin|]. split; [exact Hout|].
  intros p cols rows.
  destruct (classic_dimension (msg_cols msg) (msg_rows msg)) as [Hok|Hbad].
  - rewrite (Hin Hok). rewrite list_elem_of_singleton. split.
    + intros [= -> -> ->]. tauto.
    + intros (-> & -> & -> & _). done.
  - rewrite (Hout Hbad). split; [by intros []%elem_of_nil|].
    intros (_ & -> & -> & Hc & Hr). by destruct Hbad.
Qed.

Lemma getOrCreateSession_invalid (username : JsString) (forceNew : bool) (e : string)
    (w : World) :
  validateAndNormalizeUsername (VString username) = Throw e →
  getOrCreateSession username forceNew w = MkRun (Throw e) w [].
Proof. intros Hv. unfold getOrCreateSession. unfold_M. by rewrite Hv. Qed.

(** What [getOrCreateSession] returns is registered under the identity. *)
Lemma getOrCreateSession_registered (username : JsString) (forceNew : bool) (w : World)
    (session : SessRef) :
  result (getOrCreateSession username forceNew w) = Ok session →
  ∃ id, validateAndNormalizeUsername (VString username) = Ok id ∧
        JsMap.get id (sessions (final (getOrCreateSession username forceNew w)))
        = Some session.
Proof.
  destruct (validateAndNormalizeUsername (VString username)) as [id|e] eqn:Hv;
    [|by rewrite (getOrCreateSession_invalid _ _ _ _ Hv)].
  pose proof (validate_idempotent _ _ Hv) as Hid.
  intros Hres. exists id. split; [done|]. revert Hres.
  destruct (JsMap.get id (sessions w)) as [old|] eqn:Hg.
  - destruct forceNew.
    + rewrite (getOrCreateSession_forced _ _ _ _ Hv Hg). cbv zeta.
      rewrite (cleanupSession_present _ _ _ _ Hid Hg). cbn [final emitted result].
      rewrite (createSession_ok _ _ _ Hid). cbn [final emitted result].
      intros [= <-]. destruct w. fields. apply get_set_eq.
    + rewrite (getOrCreateSession_existing _ _ _ _ Hv Hg). cbn [final result].
      intros [= <-]. by destruct w.
  - rewrite (getOrCreateSession_absent _ _ _ _ Hv Hg), (createSession_ok _ _ _ Hid).
    cbn [final result]. intros [= <-]. destruct w. fields. apply get_set_eq.
Qed.

Lemma attachToSession_run (username id : JsString) (session : SessRef) (ws : WsRef)
    (w : World) :
  validateAndNormalizeUsername (VString username) = Ok id →
  JsMap.get id (sessions w) = Some session →
  ∃ w', attachToSession username ws w = MkRun (Ok tt) w' [] ∧
        sessions w' = sessions w ∧
        pty (heap w' session) = pty (heap w session) ∧
        subscribers (heap w' session) =
          if bool_decide (ws ∈ subscribers (heap w session))
          then subscribers (heap w session)
          else subscribers (heap w session) ++ [ws].
Proof.
  intros Hv Hg. destruct w as [ss h nr rs dl el kt np tm ck].
  unfold attachToSession, deref, update_subscribers, assign_lastActivity, Date_now.
  unfold_M. rewrite Hv. cbn. cbn in Hg. rewrite Hg. cbn.
  case_bool_decide as Hin; cbn.
  - eexists. split; [reflexivity|]. by repeat split.
  - eexists. split; [reflexivity|]. fields. split; [done|].
    by rewrite !fn_lookup_insert.
Qed.

(** ** Invariants of the registry *)

Section Preservation.
Variable P : World → Prop.
Implicit Types (w : World).

Lemma preserves_ret {A} (a : A) : preserves P (ret a).
Proof. by intros w. Qed.

Lemma preserves_throw {A} (e : string) : preserves P (throw e : M A).
Proof. by intros w. Qed.

Lemma preserves_lift {A} (r : Result A) : preserves P (lift r).
Proof. by intros w. Qed.

Lemma preserves_gets {A} (f : World → A) : preserves P (gets f).
Proof. by intros w. Qed.

Lemma preserves_emit (e : Event) : preserves P (emit e).
Proof. by intros w. Qed.

Lemma preserves_modify (f : World → World) :
  (∀ w, P w → P (f w)) → preserves P (modify f).
Proof. intros Hf w. apply Hf. Qed.

Lemma preserves_bind {A B} (m : M A) (k : A → M B) :
  preserves P m → (∀ a, preserves P (k a)) → preserves P (bind m k).
Proof.
  intros Hm Hk w HP. unfold bind. specialize (Hm w HP).
  destruct (m w) as [[a|e] w1 ev1]; cbn in *; [|done].
  specialize (Hk a w1 Hm). by destruct (k a w1).
Qed.

Lemma preserves_try_catch {A} (body : M A) (handler : string → M A) :
  preserves P body → (∀ e, preserves P (handler e)) → preserves P (try_catch body handler).
Proof.
  intros Hm Hk w HP. unfold try_catch. specialize (Hm w HP).
  destruct (body w) as [[a|e] w1 ev1]; cbn in *; [done|].
  specialize (Hk e w1 Hm). by destruct (handler e w1).
Qed.

Lemma preserves_forEach {A} (l : list A) (body : A → M unit) :
  (∀ x, preserves P (body x)) → preserves P (forEach l body).
Proof.
  intros Hbody. induction l as [|x l IH]; [apply preserves_ret|].
  cbn [forEach]. apply preserves_bind; [apply Hbody|by intros _].
Qed.

Lemma preserves_discard {A} (m : M A) : preserves P m → preserves P (discard m).
Proof.
  intros Hm. unfold discard. apply preserves_bind; [done|]. intros a. apply preserves_ret.
Qed.

Lemma after_preserves (steps : list Step) (w : World) :
  (∀ s, preserves P (step s)) → P w → P (after steps w).
Proof.
  intros Hstep. unfold after. revert w.
  induction steps as [|s steps IH]; intros w HP; [done|].
  cbn [foldl]. apply IH. by apply Hstep.
Qed.

(** What the registry's own updates must keep. Everything else it does
    touches neither the map, nor the session objects, nor the listeners. *)
Hypothesis P_frame : ∀ w w', same_registry w w' → P w → P w'.
Hypothesis P_delete : ∀ w id, P w → P (set_sessions (JsMap.delete id) w).
Hypothesis P_create : ∀ w id,
  validateAndNormalizeUsername (VString id) = Ok id →
  P w → P (final (createSession id w)).
Hypothesis P_subscribers : ∀ w id (session : SessRef) (c l : Z) (subs : list WsRef),
  JsMap.get id (sessions w) = Some session →
  NoDup (subscribers (heap w session)) → NoDup subs →
  P w →
  P (set_heap <[session := MkSession (pty (heap w session)) c l subs]> w).
Hypothesis P_touch : ∀ w (session : SessRef) (c l : Z),
  P w →
  P (set_heap <[session := MkSession (pty (heap w session)) c l
                             (subscribers (heap w session))]> w).
Hypothesis P_nodup : ∀ w id (session : SessRef),
  P w → JsMap.get id (sessions w) = Some session → NoDup (subscribers (heap w session)).
Hypothesis P_exit_listen : ∀ w id (session : SessRef) (ws : WsRef),
  JsMap.get id (sessions w) = Some session →
  P w →
  P (set_exitListeners
       (λ ls, <[pty (heap w session) :=
                  ls (pty (heap w session)) ++ [OnceExitHandler ws]]> ls) w).
Hypothesis P_exit_filter : ∀ w (p : PtyRef),
  P w →
  P (set_exitListeners (λ ls, <[p := filter (λ l, isOnce l = false) (ls p)]> ls) w).

Lemma preserves_frame {A} (m : M A) :
  (∀ w, same_registry w (final (m w))) → preserves P m.
Proof. intros Hm w HP. by apply (P_frame w). Qed.

Lemma notifyExit_preserves (code : Z) (ws : WsRef) : preserves P (notifyExit code ws).
Proof.
  apply preserves_frame. intros w. destruct (decide (readyState w ws = OPEN)).
  - rewrite notifyExit_open by done. by destruct w.
  - by rewrite notifyExit_not_open.
Qed.

Lemma Date_now_preserves : preserves P Date_now.
Proof. apply preserves_frame. intros w. by destruct w. Qed.

Lemma pty_kill_preserves (p : PtyRef) : preserves P (pty_kill p).
Proof.
  apply preserves_frame. intros w. unfold pty_kill. unfold_M.
  by destruct (killThrows w p).
Qed.

Lemma cleanupSession_preserves (username : JsString) :
  preserves P (cleanupSession username).
Proof.
  unfold cleanupSession.
  apply preserves_bind; [apply preserves_lift|intros id].
  apply preserves_bind; [apply preserves_gets|intros [session|]]; [|apply preserves_ret].
  apply preserves_bind; [apply preserves_gets|intros s].
  apply preserves_bind;
    [apply preserves_forEach; intros ws; apply notifyExit_preserves|intros _].
  apply preserves_bind.
  - apply preserves_try_catch; [apply pty_kill_preserves|intros; apply preserves_ret].
  - intros _. apply preserves_modify. intros w. apply P_delete.
Qed.

Lemma createSession_preserves (username : JsString) :
  preserves P (createSession username).
Proof.
  intros w HP. destruct (validateAndNormalizeUsername (VString username)) as [id|e] eqn:Hv.
  - pose proof (validate_idempotent _ _ Hv) as Hid.
    pose proof (P_create w id Hid HP) as HP1.
    rewrite (createSession_ok _ _ _ Hid) in HP1. by rewrite (createSession_ok _ _ _ Hv).
  - unfold createSession. unfold_M. by rewrite Hv.
Qed.

Lemma assign_lastActivity_preserves (session : SessRef) (v : Z) :
  preserves P (assign_lastActivity session v).
Proof.
  intros w HP. unfold assign_lastActivity, modify. cbn [final].
  apply (P_frame (set_heap <[session := MkSession (pty (heap w session))
    (created (heap w session)) v (subscribers (heap w session))]> w));
    [by destruct w|].
  by apply P_touch.
Qed.

Lemma getOrCreateSession_preserves (username : JsString) (forceNew : bool) :
  preserves P (getOrCreateSession username forceNew).
Proof.
  unfold getOrCreateSession.
  apply preserves_bind; [apply preserves_lift|intros id].
  apply preserves_bind; [apply preserves_gets|intros has].
  apply preserves_bind.
  { destruct (forceNew && has); [apply cleanupSession_preserves|apply preserves_ret]. }
  intros _. apply preserves_bind; [apply preserves_gets|intros [session|]].
  - apply preserves_bind; [apply Date_now_preserves|intros now].
    apply preserves_bind; [apply assign_lastActivity_preserves|intros _].
    apply preserves_ret.
  - apply createSession_preserves.
Qed.

Lemma attachToSession_preserves (username : JsString) (ws : WsRef) :
  preserves P (attachToSession username ws).
Proof.
  intros w HP. unfold attachToSession, deref, update_subscribers.
  unfold bind at 1. unfold lift at 1.
  destruct (validateAndNormalizeUsername (VString username)) as [id|e]; [|done].
  unfold bind at 1. unfold gets at 1.
  destruct (JsMap.get id (sessions w)) as [session|] eqn:Hg; [|done].
  unfold bind at 1. unfold gets at 1.
  case_bool_decide as Hin; cbn [negb]; [done|].
  pose proof (P_nodup w id session HP Hg) as Hnd.
  assert (HP1 : P (set_heap <[session := MkSession (pty (heap w session))
    (created (heap w session)) (lastActivity (heap w session))
    (subscribers (heap w session) ++ [ws])]> w)).
  { apply (P_subscribers w id); [done|done| |done].
    apply list.NoDup_app. split; [done|]. split; [|apply NoDup_singleton].
    intros x Hx ->%list_elem_of_singleton. done. }
  set (w1 := set_heap <[session := MkSession (pty (heap w session))
    (created (heap w session)) (lastActivity (heap w session))
    (subscribers (heap w session) ++ [ws])]> w) in *.
  assert (Hrest : preserves P
    (now ← Date_now; assign_lastActivity session now)).
  { apply preserves_bind; [apply Date_now_preserves|intros now].
    apply assign_lastActivity_preserves. }
  specialize (Hrest w1 HP1).
  unfold bind at 1. unfold modify at 1.
  change (set_heap (λ h, <[session := MkSession (pty (h session)) (created (h session))
    (lastActivity (h session)) (subscribers (h session) ++ [ws])]> h) w) with w1.
  destruct ((now ← Date_now; assign_lastActivity session now) w1). exact Hrest.
Qed.

Lemma detachFromSession_preserves (username : JsString) (ws : WsRef) :
  preserves P (detachFromSession username ws).
Proof.
  intros w HP. unfold detachFromSession, deref, update_subscribers.
  unfold bind at 1. unfold lift at 1.
  destruct (validateAndNormalizeUsername (VString username)) as [id|e]; [|done].
  unfold bind at 1. unfold gets at 1.
  destruct (JsMap.get id (sessions w)) as [session|] eqn:Hg; [|done].
  unfold bind at 1. unfold gets at 1.
  destruct (list_find _ _) as [[index x]|]; [|done].
  unfold modify. cbn [final].
  pose proof (P_nodup w id session HP Hg) as Hnd.
  apply (P_subscribers w id session (created (heap w session))
           (lastActivity (heap w session))
           (delete index (subscribers (heap w session))) Hg Hnd); [|done].
  exact (sublist_NoDup _ _ Hnd (sublist_delete _ _)).
Qed.

Lemma preserves_modify_frame (f : World → World) :
  (∀ w, same_registry w (f w)) → preserves P (modify f).
Proof. intros Hf. apply preserves_frame. intros w. apply Hf. Qed.

Local Ltac pres :=
  repeat first
    [ apply preserves_ret | apply preserves_throw | apply preserves_lift
    | apply preserves_gets | apply preserves_emit
    | apply notifyExit_preserves | apply Date_now_preserves
    | apply cleanupSession_preserves | apply createSession_preserves
    | apply getOrCreateSession_preserves | apply attachToSession_preserves
    | apply detachFromSession_preserves
    | apply preserves_discard
    | apply preserves_modify_frame; intros []; done
    | apply preserves_bind; [|intros ?]
    | apply preserves_try_catch; [|intros ?]
    | apply preserves_forEach; intros ? ].

Lemma cleanupInactiveLoop_preserves (now timeoutMs : Z) (usernames : list JsString)
    (cleaned : nat) :
  preserves P (cleanupInactiveLoop now timeoutMs usernames cleaned).
Proof.
  revert cleaned. induction usernames as [|username rest IH]; intros cleaned;
    cbn [cleanupInactiveLoop]; [pres|].
  apply preserves_bind; [pres|intros [session|]]; [|apply IH].
  unfold deref. apply preserves_bind; [pres|intros s].
  destruct (_ && _); [|apply IH].
  apply preserves_bind; [pres|intros _]. apply IH.
Qed.

Lemma ws_on_message_preserves (ws : WsRef) (pty : PtyRef) (username : JsString)
    (message : option WebSocketMessage) :
  preserves P (ws_on_message ws pty username message).
Proof.
  unfold ws_on_message, pty_write, pty_resize, ws_send.
  apply preserves_try_catch; [|intros; pres].
  destruct message as [msg|]; [|pres].
  repeat case_bool_decide; repeat (destruct (truthy _); cbn [andb]); pres.
Qed.

Lemma wss_on_connection_preserves (ws : WsRef) (auth : AuthOutcome) :
  preserves P (wss_on_connection ws auth).
Proof.
  destruct auth as [| |username]; cbn [wss_on_connection];
    [unfold ws_send, ws_close; pres..|].
  intros w HP.
  pose proof (getOrCreateSession_preserves username true w HP) as HP1.
  pose proof (getOrCreateSession_registered username true w) as Hreg.
  unfold bind at 1.
  destruct (getOrCreateSession username true w) as [[session|e] w1 ev1]; [|exact HP1].
  cbn [final result] in HP1, Hreg.
  destruct (Hreg session eq_refl) as (id & Hv & Hg1).
  destruct (attachToSession_run username id session ws w1 Hv Hg1)
    as (w2 & Hatt & Hs2 & Hpty2 & _).
  pose proof (attachToSession_preserves username ws w1 HP1) as HP2.
  rewrite Hatt in HP2. cbn [final] in HP2.
  unfold deref, pty_on_data, pty_on_exit, ws_send.
  unfold bind, gets, modify, emit. rewrite Hatt. cbn [final].
  rewrite <- Hpty2.
  assert (HP3 : P (set_dataListeners
    (λ ls, <[pty (heap w2 session) := ls (pty (heap w2 session)) ++ [ws]]> ls) w2)).
  { apply (P_frame w2); [by destruct w2|done]. }
  assert (Hg3 : JsMap.get id (sessions (set_dataListeners
    (λ ls, <[pty (heap w2 session) := ls (pty (heap w2 session)) ++ [ws]]> ls) w2))
    = Some session) by (by rewrite <- Hs2 in Hg1).
  exact (P_exit_listen _ id session ws Hg3 HP3).
Qed.

(** Every step keeps the property. *)
Lemma step_preserves (s : Step) : preserves P (step s).
Proof.
  destruct s; cbn [step].
  - pres.
  - pres.
  - unfold hasActiveSession. pres.
  - unfold getSession. pres.
  - pres.
  - pres.
  - pres.
  - unfold cleanupInactiveSessions. apply preserves_discard.
    apply preserves_bind; [pres|intros now].
    apply preserves_bind; [pres|intros usernames].
    apply cleanupInactiveLoop_preserves.
  - unfold getStats. pres.
  - unfold shutdownAll. apply preserves_bind; [pres|intros usernames].
    apply preserves_forEach. intros username.
    apply preserves_bind; [pres|intros []]; pres.
  - apply wss_on_connection_preserves.
  - apply ws_on_message_preserves.
  - unfold ws_on_close, pty_removeListener_data. pres.
  - unfold pty_emit_exit. apply preserves_bind; [pres|intros listeners].
    apply preserves_bind; [|intros _].
    { apply preserves_modify. intros w. apply P_exit_filter. }
    apply preserves_forEach. intros [id|ws']; cbn [runExitListener]; [pres|].
    unfold exitHandler. pres.
  - unfold pty_emit_data, dataHandler, ws_send.
    apply preserves_bind; [pres|intros listeners].
    apply preserves_forEach. intros ws'.
    apply preserves_bind; [pres|intros rs]. destruct (_ =? _); pres.
  - unfold ws_peer_closing. pres.
Qed.

End Preservation.

Section SubscribersNoDup.
Implicit Types (w : World).

Lemma nodup_frame w w' :
  sessions w' = sessions w → heap w' = heap w → subscribers_nodup w → subscribers_nodup w'.
Proof. unfold subscribers_nodup. by intros -> ->. Qed.

Lemma nodup_delete w (id : JsString) :
  subscribers_nodup w → subscribers_nodup (set_sessions (JsMap.delete id) w).
Proof.
  unfold subscribers_nodup. rewrite !list.Forall_forall. intros H e He.
  destruct w. fields. apply elem_of_delete in He as [_ He]. by apply H.
Qed.

Lemma nodup_heap_update w (session : SessRef) (s : PtySession) :
  (NoDup (subscribers (heap w session)) → NoDup (subscribers s)) →
  subscribers_nodup w → subscribers_nodup (set_heap <[session := s]> w).
Proof.
  unfold subscribers_nodup. rewrite !list.Forall_forall. intros Hs H e He.
  destruct w. fields. destruct (decide (session = e.2)) as [->|Hne].
  - rewrite fn_lookup_insert. apply Hs. by apply H.
  - rewrite fn_lookup_insert_ne by done. by apply H.
Qed.

Lemma nodup_create w (id : JsString) (p : PtyRef) (c l : Z) :
  subscribers_nodup w →
  subscribers_nodup
    (set_sessions (JsMap.set id (nextRef w))
       (set_heap <[nextRef w := MkSession p c l []]> w)).
Proof.
  intros H. pose proof (nodup_heap_update w (nextRef w) (MkSession p c l [])
    (λ _, NoDup_nil_2) H) as H1.
  revert H1. unfold subscribers_nodup. rewrite !list.Forall_forall. intros H1 e He.
  destruct w. fields. apply elem_of_set in He as [->|He].
  - cbn [snd]. rewrite fn_lookup_insert. apply NoDup_nil_2.
  - by apply H1.
Qed.

Lemma nodup_lookup w (id : JsString) (session : SessRef) :
  subscribers_nodup w → JsMap.get id (sessions w) = Some session →
  NoDup (subscribers (heap w session)).
Proof.
  unfold subscribers_nodup. rewrite list.Forall_forall.
  intros H Hg%get_Some_elem. by apply (H (id, session)).
Qed.

Lemma nodup_createSession w (id : JsString) :
  validateAndNormalizeUsername (VString id) = Ok id →
  subscribers_nodup w → subscribers_nodup (final (createSession id w)).
Proof.
  intros Hid H. rewrite (createSession_ok _ _ _ Hid). cbn [final].
  apply (nodup_frame
    (set_sessions (JsMap.set id (nextRef w))
       (set_heap <[nextRef w :=
            MkSession (nextPty w) (time w (clock w)) (time w (S (clock w))) []]> w)));
    [by destruct w|by destruct w|].
  by apply nodup_create.
Qed.

(** No step makes a registered session list a viewer twice. *)
Lemma nodup_step (s : Step) : preserves subscribers_nodup (step s).
Proof.
  apply step_preserves.
  - intros w w' (Hs & Hh & _). by apply nodup_frame.
  - apply nodup_delete.
  - apply nodup_createSession.
  - intros w id session c l subs _ _ Hsubs. by apply nodup_heap_update.
  - intros w session c l. by apply nodup_heap_update.
  - apply nodup_lookup.
  - intros w id session ws _. apply nodup_frame; by destruct w.
  - intros w p. apply nodup_frame; by destruct w.
Qed.

End SubscribersNoDup.

Section RegistryWf.
Implicit Types (w : World).

Lemma keys_frame w w' : sessions w' = sessions w → keys_normalized w → keys_normalized w'.
Proof. unfold keys_normalized. by intros ->. Qed.

Lemma keys_delete w (id : JsString) :
  keys_normalized w → keys_normalized (set_sessions (JsMap.delete id) w).
Proof.
  intros [Hnd Hkeys]. destruct w. unfold keys_normalized in *. fields. split.
  - by apply keys_delete_NoDup.
  - rewrite list.Forall_forall in *. intros e [_ He]%elem_of_delete. by apply Hkeys.
Qed.

Lemma keys_create w (id : JsString) (s : PtySession) :
  validateAndNormalizeUsername (VString id) = Ok id →
  keys_normalized w →
  keys_normalized (set_sessions (JsMap.set id (nextRef w)) (set_heap <[nextRef w := s]> w)).
Proof.
  intros Hid [Hnd Hkeys]. destruct w. unfold keys_normalized in *. fields. split.
  - by apply keys_set_NoDup.
  - rewrite list.Forall_forall in *. intros e [->|He]%elem_of_set; [done|by apply Hkeys].
Qed.

Lemma keys_createSession w (id : JsString) :
  validateAndNormalizeUsername (VString id) = Ok id →
  keys_normalized w → keys_normalized (final (createSession id w)).
Proof.
  intros Hid H. rewrite (createSession_ok _ _ _ Hid). cbn [final].
  apply (keys_frame
    (set_sessions (JsMap.set id (nextRef w))
       (set_heap <[nextRef w :=
            MkSession (nextPty w) (time w (clock w)) (time w (S (clock w))) []]> w)));
    [by destruct w|].
  by apply keys_create.
Qed.

Lemma wf_frame w w' :
  sessions w' = sessions w → heap w' = heap w → registry_wf w → registry_wf w'.
Proof.
  intros Hs Hh [Hk Hn]. split; [by apply (keys_frame w)|by apply (nodup_frame w)].
Qed.

Lemma wf_delete w (id : JsString) :
  registry_wf w → registry_wf (set_sessions (JsMap.delete id) w).
Proof. intros [Hk Hn]. split; [by apply keys_delete|by apply nodup_delete]. Qed.

Lemma wf_createSession w (id : JsString) :
  validateAndNormalizeUsername (VString id) = Ok id →
  registry_wf w → registry_wf (final (createSession id w)).
Proof.
  intros Hid [Hk Hn]. split; [by apply keys_createSession|by apply nodup_createSession].
Qed.

Lemma wf_heap_update w (session : SessRef) (s : PtySession) :
  (NoDup (subscribers (heap w session)) → NoDup (subscribers s)) →
  registry_wf w → registry_wf (set_heap <[session := s]> w).
Proof.
  intros Hs [Hk Hn]. split.
  - apply (keys_frame w); [by destruct w|done].
  - by apply nodup_heap_update.
Qed.

(** Every step keeps the registry well formed. *)
Lemma wf_step (s : Step) : preserves registry_wf (step s).
Proof.
  apply step_preserves.
  - intros w w' (Hs & Hh & _). by apply wf_frame.
  - apply wf_delete.
  - apply wf_createSession.
  - intros w id session c l subs _ _ Hsubs. by apply wf_heap_update.
  - intros w session c l. by apply wf_heap_update.
  - intros w id session [_ Hn]. by apply nodup_lookup.
  - intros w id session ws _. apply wf_frame; by destruct w.
  - intros w p. apply wf_frame; by destruct w.
Qed.

Lemma wf_init (time : nat → Z) (killThrows : PtyRef → bool) :
  registry_wf (initWorld time killThrows).
Proof.
  split; [split|]; cbn; [apply NoDup_nil_2|apply Forall_nil_2|apply Forall_nil_2].
Qed.

(** Whatever has happened since the server started, the registry is well
    formed. *)
Lemma wf_reachable (time : nat → Z) (killThrows : PtyRef → bool) (steps : list Step) :
  registry_wf (after steps (initWorld time killThrows)).
Proof. apply after_preserves; [apply wf_step|apply wf_init]. Qed.

End RegistryWf.

(** ** The listeners of the registered processes *)

Section ListenersWf.
Implicit Types (w : World).

Lemma filter_once (viewers : list WsRef) :
  filter (λ l, isOnce l = false) (OnceExitHandler <$> viewers) = [].
Proof.
  induction viewers as [|ws viewers IH]; [done|].
  rewrite fmap_cons, list.filter_cons. by rewrite decide_False.
Qed.

Lemma listeners_frame w w' : same_registry w w' → listeners_wf w → listeners_wf w'.
Proof.
  unfold listeners_wf. intros (Hs & Hh & Hl & Hp & Hr). by rewrite Hs, Hh, Hl, Hp, Hr.
Qed.

Lemma listeners_delete w (id : JsString) :
  listeners_wf w → listeners_wf (set_sessions (JsMap.delete id) w).
Proof.
  destruct w. unfold listeners_wf. fields. intros [Hfree Hreg]. split; [done|].
  rewrite list.Forall_forall in *. intros e [_ He]%elem_of_delete. by apply Hreg.
Qed.

Lemma listeners_createSession w (id : JsString) :
  validateAndNormalizeUsername (VString id) = Ok id →
  listeners_wf w → listeners_wf (final (createSession id w)).
Proof.
  intros Hid. rewrite (createSession_ok _ _ _ Hid).
  destruct w as [ss h nr rs dl el kt np tm ck]. unfold listeners_wf. fields.
  intros [Hfree Hreg]. split.
  - intros p Hp. rewrite fn_lookup_insert_ne by lia. apply Hfree. lia.
  - rewrite list.Forall_forall in *. intros e [->|He]%elem_of_set.
    + cbn [fst snd]. rewrite !fn_lookup_insert. cbn [pty].
      split; [lia|]. split; [lia|]. exists []. by rewrite (Hfree np).
    + destruct (Hreg e He) as (Hpty & Href & viewers & Hl).
      rewrite !fn_lookup_insert_ne by lia.
      split; [lia|]. split; [lia|]. by exists viewers.
Qed.

Lemma listeners_heap_update w (session : SessRef) (c l : Z) (subs : list WsRef) :
  listeners_wf w →
  listeners_wf (set_heap <[session := MkSession (pty (heap w session)) c l subs]> w).
Proof.
  destruct w as [ss h nr rs dl el kt np tm ck]. unfold listeners_wf. fields.
  intros [Hfree Hreg]. split; [done|].
  assert (Hpty : ∀ r, pty (<[session := MkSession (pty (h session)) c l subs]> h r)
                      = pty (h r)).
  { intros r. destruct (decide (session = r)) as [->|Hne].
    - by rewrite fn_lookup_insert.
    - by rewrite fn_lookup_insert_ne. }
  rewrite list.Forall_forall in *. intros e He. rewrite Hpty. by apply Hreg.
Qed.

Lemma listeners_exit_listen w (id : JsString) (session : SessRef) (ws : WsRef) :
  JsMap.get id (sessions w) = Some session →
  listeners_wf w →
  listeners_wf (set_exitListeners
    (λ ls, <[pty (heap w session) :=
               ls (pty (heap w session)) ++ [OnceExitHandler ws]]> ls) w).
Proof.
  destruct w as [ss h nr rs dl el kt np tm ck]. unfold listeners_wf. fields.
  intros Hg%get_Some_elem [Hfree Hreg].
  rewrite list.Forall_forall in *.
  destruct (Hreg _ Hg) as (Hp0 & _). cbn [snd] in Hp0. split.
  - intros p Hp. rewrite fn_lookup_insert_ne by lia. by apply Hfree.
  - intros e He. destruct (Hreg e He) as (Hpty & Href & viewers & Hl).
    split; [done|]. split; [done|].
    destruct (decide (pty (h session) = pty (h e.2))) as [Heq|Hne].
    + exists (viewers ++ [ws]). rewrite <- Heq, fn_lookup_insert. rewrite Heq, Hl.
      by rewrite fmap_app.
    + exists viewers. by rewrite fn_lookup_insert_ne.
Qed.

Lemma listeners_exit_filter w (p : PtyRef) :
  listeners_wf w →
  listeners_wf
    (set_exitListeners (λ ls, <[p := filter (λ l, isOnce l = false) (ls p)]> ls) w).
Proof.
  destruct w as [ss h nr rs dl el kt np tm ck]. unfold listeners_wf. fields.
  intros [Hfree Hreg]. split.
  - intros p' Hp'. destruct (decide (p = p')) as [->|Hne].
    + rewrite fn_lookup_insert. by rewrite (Hfree p' Hp').
    + rewrite fn_lookup_insert_ne by done. by apply Hfree.
  - rewrite list.Forall_forall in *. intros e He.
    destruct (Hreg e He) as (Hpty & Href & viewers & Hl).
    split; [done|]. split; [done|].
    destruct (decide (p = pty (h e.2))) as [->|Hne].
    + exists []. rewrite fn_lookup_insert, Hl. rewrite list.filter_cons.
      rewrite decide_True by done. by rewrite filter_once.
    + exists viewers. by rewrite fn_lookup_insert_ne.
Qed.

(** Every step keeps the server well formed. *)
Lemma server_step (s : Step) : preserves server_wf (step s).
Proof.
  apply step_preserves.
  - intros w w' Hsame [Hwf Hl]. split; [|by apply (listeners_frame w)].
    destruct Hsame as (Hs & Hh & _). by apply (wf_frame w).
  - intros w id [Hwf Hl]. split; [by apply wf_delete|by apply listeners_delete].
  - intros w id Hid [Hwf Hl].
    split; [by apply wf_createSession|by apply listeners_createSession].
  - intros w id session c l subs _ _ Hsubs [Hwf Hl].
    split; [by apply wf_heap_update|by apply listeners_heap_update].
  - intros w session c l [Hwf Hl].
    split; [by apply wf_heap_update|by apply listeners_heap_update].
  - intros w id session [[_ Hn] _]. by apply nodup_lookup.
  - intros w id session ws Hg [Hwf Hl]. split.
    + apply (wf_frame w); [by destruct w|by destruct w|done].
    + by apply (listeners_exit_listen w id).
  - intros w p [Hwf Hl]. split.
    + apply (wf_frame w); [by destruct w|by destruct w|done].
    + by apply listeners_exit_filter.
Qed.

Lemma server_init (time : nat → Z) (killThrows : PtyRef → bool) :
  server_wf (initWorld time killThrows).
Proof.
  split; [apply wf_init|]. split; [done|apply Forall_nil_2].
Qed.

(** Whatever has happened since the server started, the server is well
    formed. *)
Lemma server_reachable (time : nat → Z) (killThrows : PtyRef → bool)
    (steps : list Step) :
  server_wf (after steps (initWorld time killThrows)).
Proof. apply after_preserves; [apply server_step|apply server_init]. Qed.

(** In particular, a registered session has the listeners that the exit of
    its process needs. *)
Lemma registered_listeners (w : World) (id : JsString) (session : SessRef) :
  server_wf w →
  JsMap.get id (sessions w) = Some session →
  validateAndNormalizeUsername (VString id) = Ok id ∧
  ∃ viewers, exitListeners w (pty (heap w session)) =
             OnExitCleanup id :: (OnceExitHandler <$> viewers).
Proof.
  intros [[[_ Hkeys] _] [_ Hreg]] Hg%get_Some_elem.
  rewrite list.Forall_forall in Hkeys, Hreg. split.
  - by apply (Hkeys (id, session)).
  - by destruct (Hreg (id, session) Hg) as (_ & _ & Hl).
Qed.

End ListenersWf.

(** C3. Whatever has happened since the server started: when the process
    of a registered session exits, the registry's exit listener removes the
    session from the registry, and of the viewers attached to it those whose
    socket is open are sent exactly one exit message (the others none: their
    sockets are closing or closed already). The same holds when an explicit
    destroy of the session comes just before or just after the exit. *)
Theorem process_exit_notifies_open_viewers_once
    (readings : nat → Z) (failing : PtyRef → bool) (steps : list Step)
    (code : Z) (id : JsString) (session : SessRef) :
  let w := after steps (initWorld readings failing) in
  let p := pty (heap w session) in
  JsMap.get id (sessions w) = Some session →
  exit_settled w id session (pty_emit_exit p code w) ∧
  exit_settled w id session ((cleanupSession id;; pty_emit_exit p code) w) ∧
  exit_settled w id session ((pty_emit_exit p code;; cleanupSession id) w).
Proof.
  intros w p Hg.
  destruct (registered_listeners w id session (server_reachable _ _ _) Hg)
    as (Hv & viewers & Hl).
  by apply (process_exit_settles p code id session viewers w).
Qed.

(** C5. Whatever has happened since the server started,
    [cleanupInactiveSessions] destroys exactly the sessions that have no
    subscriber and whose last activity lies more than [timeoutMs] before the
    time of the call: it kills their processes, returns their number, and
    keeps every other entry, in order, with its session object untouched. *)
Theorem cleanupInactiveSessions_sweeps
    (readings : nat → Z) (failing : PtyRef → bool) (steps : list Step) (timeoutMs : Z) :
  let w := after steps (initWorld readings failing) in
  let now := time w (clock w) in
  let r := cleanupInactiveSessions timeoutMs w in
  result r = Ok (length (filter (idle (heap w) now timeoutMs) (sessions w))) ∧
  sessions (final r) = filter (λ e, ¬ idle (heap w) now timeoutMs e) (sessions w) ∧
  heap (final r) = heap w ∧
  readyState (final r) = readyState w ∧
  emitted r =
    (λ e, EvKill (pty (heap w e.2))) <$> filter (idle (heap w) now timeoutMs) (sessions w).
Proof.
  intros w. apply cleanupInactiveSessions_run.
  by destruct (server_reachable readings failing steps) as [[Hk _] _].
Qed.

(** ** Attaching viewers *)

Lemma count_not_elem (l : list nat) (x : nat) :
  x ∉ l → length (filter (λ y, y = x) l) = 0%nat.
Proof.
  induction l as [|y l IH]; [done|]. intros [Hne Hl]%not_elem_of_cons.
  rewrite list.filter_cons. rewrite decide_False by congruence. by apply IH.
Qed.

Lemma count_NoDup_elem (l : list nat) (x : nat) :
  NoDup l → x ∈ l → length (filter (λ y, y = x) l) = 1%nat.
Proof.
  induction l as [|y l IH]; [by intros _ []%elem_of_nil|].
  intros [Hy Hnd]%list.NoDup_cons Hx. rewrite list.filter_cons.
  destruct (decide (y = x)) as [->|Hne].
  - cbn [length]. by rewrite count_not_elem.
  - apply IH; [done|]. apply elem_of_cons in Hx as [->|Hx]; done.
Qed.

(** C9. Attaching the same viewer twice to a session leaves exactly one
    entry for it in the session's subscribers; and no step - no method of the
    registry, no event of the relay or of a process - makes a registered
    session list a viewer twice. *)
Theorem subscribers_stay_distinct (w : World) :
  subscribers_nodup w →
  (∀ s : Step, subscribers_nodup (final (step s w))) ∧
  (∀ steps : list Step, subscribers_nodup (after steps w)) ∧
  (∀ (username id : JsString) (session : SessRef) (ws : WsRef),
     validateAndNormalizeUsername (VString username) = Ok id →
     JsMap.get id (sessions w) = Some session →
     let w2 := final ((attachToSession username ws;; attachToSession username ws) w) in
     JsMap.get id (sessions w2) = Some session ∧
     length (filter (λ x, x = ws) (subscribers (heap w2 session))) = 1%nat).
Proof.
  intros Hnd. split; [|split].
  - intros s. by apply nodup_step.
  - intros steps. by apply after_preserves; [apply nodup_step|].
  - intros username id session ws Hv Hg w2. subst w2. unfold bind.
    destruct (attachToSession_run username id session ws w Hv Hg)
      as (w1 & -> & Hs1 & _ & Hsubs1).
    assert (Hg1 : JsMap.get id (sessions w1) = Some session) by (by rewrite Hs1).
    destruct (attachToSession_run username id session ws w1 Hv Hg1)
      as (w2 & -> & Hs2 & _ & Hsubs2).
    cbn [final]. split; [by rewrite Hs2|].
    pose proof (nodup_lookup w id session Hnd Hg) as Hnodup.
    assert (Hin1 : ws ∈ subscribers (heap w1 session)).
    { rewrite Hsubs1. destruct (decide (ws ∈ subscribers (heap w session))) as [Hin|Hin].
      - by rewrite bool_decide_true.
      - rewrite bool_decide_false by done. apply elem_of_app. right. left. }
    rewrite Hsubs2, bool_decide_true by done. rewrite Hsubs1.
    destruct (decide (ws ∈ subscribers (heap w session))) as [Hin|Hin].
    + rewrite bool_decide_true by done. by apply count_NoDup_elem.
    + rewrite bool_decide_false by done.
      rewrite list.filter_app, length_app, count_not_elem by done.
      rewrite list.filter_cons. by rewrite decide_True.
Qed.

(** ** The properties at work *)

Lemma getOrCreateSession_force_replaces_witness :
  validateAndNormalizeUsername (VString (str "ALICE")) = Ok alice ∧
  JsMap.get alice (sessions oneClosing) = Some 0%nat ∧
  emitted (getOrCreateSession (str "ALICE") true oneClosing) =
    [EvSend 1 (MsgExit 0); EvClose 1; EvKill 0; EvSpawn 1 alice] ∧
  sessions (final (getOrCreateSession (str "ALICE") true oneClosing)) = [(alice, 1%nat)].
Proof.
  split; [reflexivity|]. split; [reflexivity|].
  destruct (getOrCreateSession_force_replaces (str "ALICE") alice 0 oneClosing)
    as (_ & Hev & _ & _ & Hs & _); [reflexivity|reflexivity|].
  split; [rewrite Hev|rewrite Hs]; vm_compute; reflexivity.
Defined.

(** With a viewer whose socket is already closing, the forced replacement
    sends that viewer nothing. *)
Lemma forced_replacement_skips_closing_viewer :
  JsMap.get alice (sessions viewerClosing) = Some 0%nat ∧
  1%nat ∈ subscribers (heap viewerClosing 0) ∧
  emitted (getOrCreateSession alice true viewerClosing) = [EvKill 0; EvSpawn 1 alice] ∧
  ¬ all_notified viewerClosing 0 (emitted (getOrCreateSession alice true viewerClosing)).
Proof.
  split; [reflexivity|]. split; [vm_compute; left|]. split; [reflexivity|].
  intros H. specialize (H 1%nat). vm_compute in H.
  assert (Hin : 1%nat ∈ [1%nat]) by left. specialize (H Hin). discriminate.
Defined.

Lemma getOrCreateSession_reuses_witness :
  validateAndNormalizeUsername (VString alice) = Ok alice ∧
  ∃ session : SessRef,
    result (getOrCreateSession alice false startWorld) = Ok session ∧
    result (getOrCreateSession alice false
              (final (getOrCreateSession alice false startWorld))) = Ok session ∧
    emitted (getOrCreateSession alice false
               (final (getOrCreateSession alice false startWorld))) = [].
Proof.
  split; [reflexivity|].
  destruct (getOrCreateSession_reuses alice alice startWorld) as (session & H1 & H2 & H3);
    [reflexivity|].
  exists session. split; [exact H1|].
  destruct (H3 _ H2) as (Hr & He & _). by split.
Defined.

Lemma process_exit_notifies_open_viewers_once_witness :
  let w := after [Connection 1 (Authenticated (str " Alice ")); AttachToSession alice 2;
                  PeerClosing 2]
             (initWorld (λ n, 1700000000000 + 1000 * Z.of_nat n) (λ _, false)) in
  JsMap.get alice (sessions w) = Some 0%nat ∧
  exit_settled w alice 0 (pty_emit_exit (pty (heap w 0)) 7 w).
Proof.
  intros w. split; [reflexivity|].
  pose proof (process_exit_notifies_open_viewers_once
                (λ n, 1700000000000 + 1000 * Z.of_nat n) (λ _, false)
                [Connection 1 (Authenticated (str " Alice ")); AttachToSession alice 2;
                 PeerClosing 2] 7 alice 0) as Hexit.
  cbv zeta in Hexit. fold w in Hexit.
  destruct Hexit as (Hexit & _ & _); [reflexivity|].
  exact Hexit.
Defined.

(** A viewer whose socket is closing when the process exits is sent no exit
    message at all, although it is still attached. *)
Lemma process_exit_skips_closing_viewer :
  JsMap.get alice (sessions viewerClosing) = Some 0%nat ∧
  1%nat ∈ subscribers (heap viewerClosing 0) ∧
  emitted (pty_emit_exit 0 7 viewerClosing) = [EvKill 0] ∧
  ¬ all_notified viewerClosing 0 (emitted (pty_emit_exit 0 7 viewerClosing)).
Proof.
  split; [reflexivity|]. split; [vm_compute; left|]. split; [reflexivity|].
  intros H. specialize (H 1%nat). vm_compute in H.
  assert (Hin : 1%nat ∈ [1%nat]) by left. specialize (H Hin). discriminate.
Defined.

Lemma cleanupSession_idempotent_witness :
  validateAndNormalizeUsername (VString alice) = Ok alice ∧
  killThrows stuckProcess (pty (heap stuckProcess 0)) = true ∧
  result (cleanupSession alice stuckProcess) = Ok tt ∧
  JsMap.get alice (sessions (final (cleanupSession alice stuckProcess))) = None ∧
  cleanupSession alice (final (cleanupSession alice stuckProcess)) =
    MkRun (Ok tt) (final (cleanupSession alice stuckProcess)) [].
Proof.
  split; [reflexivity|]. split; [reflexivity|].
  destruct (cleanupSession_idempotent alice alice stuckProcess)
    as (_ & Hr & Hg & H2 & _); [reflexivity|].
  split; [exact Hr|]. split; [exact Hg|exact H2].
Defined.

(** Alice's session has no viewer and was last used four seconds ago, Bob's
    has a viewer: a sweep with a timeout of three seconds destroys Alice's. *)
Example sweep_of_aliceGone :
  result (cleanupInactiveSessions 3000 aliceGone) = Ok 1%nat ∧
  sessions (final (cleanupInactiveSessions 3000 aliceGone)) = [(bob, 1%nat)] ∧
  emitted (cleanupInactiveSessions 3000 aliceGone) = [EvKill 0].
Proof. repeat split; reflexivity. Qed.

Lemma input_checked_before_write_witness :
  msg_type (inputMessage (str "ls")) = VString (str "input") ∧
  emitted (ws_on_message 1 0 alice (Some (inputMessage (str "ls"))) twoViewers) =
    [EvWrite 0 (str "ls")].
Proof.
  split; [reflexivity|].
  destruct (input_checked_before_write 1 0 alice (inputMessage (str "ls")) twoViewers)
    as (_ & _ & _ & Hw & _); [reflexivity|].
  apply (Hw (str "ls")); [reflexivity|discriminate|vm_compute; discriminate].
Defined.

(** An "input" message with empty data is within the size limit, and
    nothing is written for it. *)
Lemma empty_input_not_written :
  emitted (ws_on_message 1 0 alice (Some (inputMessage [])) twoViewers) = [] ∧
  ¬ input_passed_through 1 0 alice [] twoViewers.
Proof.
  split; [reflexivity|]. intros H.
  assert (Hlen : Z.of_nat (length ([] : JsString)) ≤ 10000) by (cbn; lia).
  specialize (H Hlen). vm_compute in H. by apply elem_of_nil in H.
Defined.

Lemma resize_applied_iff_in_range_witness :
  msg_type (MkMessage (VString (str "resize")) VUndefined
              (VNumber (NumInt 120)) (VNumber (NumInt 40))) = VString (str "resize") ∧
  emitted (ws_on_message 1 0 alice
             (Some (MkMessage (VString (str "resize")) VUndefined
                      (VNumber (NumInt 120)) (VNumber (NumInt 40)))) twoViewers) =
    [EvResize 0 (VNumber (NumInt 120)) (VNumber (NumInt 40))].
Proof.
  split; [reflexivity|].
  destruct (resize_applied_iff_in_range 1 0 alice
              (MkMessage (VString (str "resize")) VUndefined
                 (VNumber (NumInt 120)) (VNumber (NumInt 40))) twoViewers)
    as (_ & _ & Hin & _); [reflexivity|].
  apply Hin. split; [exists 120|exists 40]; (split; [reflexivity|lia]).
Defined.

Lemma subscribers_stay_distinct_witness :
  subscribers_nodup twoViewers ∧
  length (filter (λ x, x = 3%nat)
    (subscribers
       (heap (final ((attachToSession alice 3;; attachToSession alice 3)%M twoViewers)) 0)))
  = 1%nat.
Proof.
  assert (Hn : subscribers_nodup twoViewers).
  { apply (bool_decide_unpack _). vm_compute. exact I. }
  split; [exact Hn|].
  destruct (subscribers_stay_distinct twoViewers Hn) as (_ & _ & Hattach).
  by apply (Hattach alice alice 0%nat 3%nat).
Defined.

Lemma cleanupSession_sends_exit_code_0_witness :
  validateAndNormalizeUsername (VString alice) = Ok alice ∧
  JsMap.get alice (sessions oneClosing) = Some 0%nat ∧
  EvSend 1 (MsgExit 0) ∈ emitted (cleanupSession alice oneClosing) ∧
  (∀ m, EvSend 2 m ∉ emitted (cleanupSession alice oneClosing)).
Proof.
  split; [reflexivity|]. split; [reflexivity|].
  destruct (cleanupSession_sends_exit_code_0 alice alice 0 oneClosing)
    as (Hopen & _ & Hclosed & _ & _); [reflexivity|reflexivity|].
  split.
  - apply (Hopen 1%nat); [vm_compute; left|reflexivity].
  - apply (Hclosed 2%nat); [vm_compute; right; left|vm_compute; discriminate].
Defined.

(** What the exit listener of a replaced process does: it is closed over the
    username, so when the old process exits after a forced replacement it
    tears down the session that replaced it. *)
Example exit_of_replaced_process :
  let w := after [Connection 1 (Authenticated alice);
                  Connection 2 (Authenticated alice)] startWorld in
  sessions w = [(alice, 1%nat)] ∧ pty (heap w 1) = 1%nat ∧
  sessions (after [ProcessExit 0 0] w) = [] ∧
  emitted (pty_emit_exit 0 0 w) = [EvSend 2 (MsgExit 0); EvClose 2; EvKill 1].
Proof. repeat split; reflexivity. Qed.

(** The scenario of the specification: one session for two tabs, kept when
    both close, swept after the timeout. *)
Example alice_scenario :
  let connected := after [GetOrCreateSession alice false; AttachToSession alice 1] startWorld in
  let second := after [GetOrCreateSession alice false; AttachToSession alice 2] connected in
  let closed := after [Close 1 0 alice; Close 2 0 alice] second in
  result (getStats connected) =
    Ok (1%nat, [MkStats alice 1700000000000 1700000002000 1]) ∧
  result (getStats second) =
    Ok (1%nat, [MkStats alice 1700000000000 1700000004000 2]) ∧
  sessions closed = [(alice, 0%nat)] ∧ subscribers (heap closed 0) = [] ∧
  sessions (after [CleanupInactiveSessions 0] closed) = [].
Proof. repeat split; reflexivity. Qed.

(** * Further properties of the code *)

(** ** Substrings *)

Section Includes.
Implicit Types (needle s : JsString) (c : N).

Lemma startsWith_spec needle s :
  Js.startsWith needle s = true ↔ ∃ rest, s = needle ++ rest.
Proof.
  revert s. induction needle as [|n needle IH]; intros s; cbn.
  - split; [intros _; by exists s|done].
  - destruct s as [|c s].
    + split; [done|]. by intros (rest & ?).
    + rewrite andb_true_iff, N.eqb_eq, IH. split.
      * intros (-> & rest & ->). by exists rest.
      * intros (rest & [= -> ->]). split; [done|by exists rest].
Qed.

(** [s.includes(needle)]: the needle occurs somewhere in [s]. *)
Lemma includes_spec needle s :
  Js.includes needle s = true ↔ ∃ before rest, s = before ++ needle ++ rest.
Proof.
  induction s as [|c s IH].
  - cbn [Js.includes]. rewrite orb_false_r, startsWith_spec. split.
    + intros (rest & ->). by exists [], rest.
    + intros (before & rest & H). symmetry in H.
      apply app_eq_nil in H as (-> & H). exists rest. by rewrite H.
  - cbn [Js.includes]. rewrite orb_true_iff, startsWith_spec, IH. split.
    + intros [(rest & ->)|(before & rest & ->)].
      * by exists [], rest.
      * by exists (c :: before), rest.
    + intros ([|c' before] & rest & H).
      * left. by exists rest.
      * right. injection H as -> ->. by exists before, rest.
Qed.

Lemma includes_unit c s : Js.includes [c] s = true ↔ c ∈ s.
Proof.
  rewrite includes_spec. split.
  - intros (before & rest & ->). apply elem_of_app. right. left.
  - intros (before & rest & ->)%list_elem_of_split. by exists before, rest.
Qed.

Lemma includes_unit_false c s : Js.includes [c] s = false ↔ c ∉ s.
Proof. rewrite <- includes_unit. by destruct (Js.includes [c] s). Qed.

End Includes.

(** ** What the checks of security.ts accept *)

(** X19. A path component passes [validatePathComponent] exactly when it holds
    no NUL, no slash, no backslash and no "..", and is not "."; the empty
    string passes. The last comparison, with "..", never decides: such an
    input is refused before as a traversal. *)
Theorem validatePathComponent_accepts (input : JsString) :
  (validatePathComponent input = Ok tt ↔
     (0%N ∉ input) ∧ (47%N ∉ input) ∧ (92%N ∉ input) ∧
     (∀ before rest, input ≠ before ++ str ".." ++ rest) ∧ input ≠ str ".") ∧
  (validatePathComponent input = Throw "Invalid path component" ↔ input = str ".") ∧
  (input = str ".." → validatePathComponent input = Throw "Directory traversal not allowed").
Proof.
  assert (Hdots : Js.includes (str "..") input = false ↔
                  ∀ before rest, input ≠ before ++ str ".." ++ rest).
  { pose proof (includes_spec (str "..") input) as Hspec.
    destruct (Js.includes (str "..") input).
    - split; [done|]. intros Hn. destruct (proj1 Hspec eq_refl) as (b & r & ->).
      by destruct (Hn b r).
    - split; [|done]. intros _ b r ->.
      assert (false = true) by (apply Hspec; by exists b, r). done. }
  split; [|split; [split|]]; [| |by intros ->|by intros ->].
  - unfold validatePathComponent.
    change (str "/") with [47%N]. change (str "\") with [92%N].
    rewrite <- Hdots, <- !includes_unit_false.
    destruct (Js.includes [0%N] input); [by split; [|intros (? & _)]|].
    destruct (Js.includes (str "..") input) eqn:Hinc;
      [by split; [|intros (_ & _ & _ & ? & _)]|].
    destruct (Js.includes [47%N] input); [by split; [|intros (_ & ? & _)]|].
    destruct (Js.includes [92%N] input); [by split; [|intros (_ & _ & ? & _)]|].
    cbn [orb]. case_bool_decide as Hdot; [by split; [|intros (_ & _ & _ & _ & ?)]|].
    case_bool_decide as Hdd; [|done]. subst input. by vm_compute in Hinc.
  - unfold validatePathComponent.
    destruct (Js.includes [0%N] input); [done|].
    destruct (Js.includes (str "..") input) eqn:Hinc; [done|].
    destruct (Js.includes (str "/") input || Js.includes (str "\") input); [done|].
    case_bool_decide as Hdot; [done|].
    case_bool_decide as Hdd; [|done]. subst input. by vm_compute in Hinc.
Qed.

Lemma regex_dotfree (n : JsString) :
  USERNAME_REGEX_test n = true →
  n ≠ str "." ∧ n ≠ str ".." ∧ Js.includes (str "..") n = false.
Proof.
  intros Hre. pose proof (regex_units n Hre) as Hunits.
  assert (Hdot : 46%N ∉ n) by (by apply username_lacks).
  split; [|split].
  - intros ->. apply Hdot. change (str ".") with [46%N]. left.
  - intros ->. apply Hdot. change (str "..") with [46%N; 46%N]. left.
  - change (str "..") with [46%N; 46%N]. by apply includes_absent.
Qed.

(** X18. A username is accepted exactly when its trimmed, lower-cased form is 1
    to 32 units of [a-z0-9_-], and that form is what comes back. The two
    checks that follow the pattern, for "." and "..", never fire: no input
    makes the function throw their "Invalid username". *)
Theorem validateAndNormalizeUsername_accepts (v : JsValue) (id : JsString) :
  (validateAndNormalizeUsername v = Ok id ↔
     ∃ s, v = VString s ∧ id = Js.toLowerCase (Js.trim s) ∧
          (1 ≤ length id ≤ 32)%nat ∧ Forall (λ c, isUsernameUnit c = true) id) ∧
  validateAndNormalizeUsername v ≠ Throw "Invalid username".
Proof.
  split.
  - split.
    + intros (s & -> & -> & Hlen & Hmax & Hre & _)%validate_ok_inv.
      exists s. split; [done|]. split; [done|]. split; [lia|].
      apply Forall_forall. intros c Hc. pose proof (regex_units _ Hre) as Hunits.
      rewrite forallb_forall in Hunits. by apply Hunits.
    + intros (s & -> & -> & [Hmin Hmax] & Hunits).
      unfold validateAndNormalizeUsername. cbv zeta.
      set (normalized := Js.toLowerCase (Js.trim s)) in *.
      assert (Hre : USERNAME_REGEX_test normalized = true).
      { unfold USERNAME_REGEX_test. rewrite !andb_true_iff, !Nat.leb_le.
        split; [done|]. apply forallb_forall. rewrite Forall_forall in Hunits. done. }
      destruct (regex_dotfree _ Hre) as (Hdot & Hdots & Hinc).
      rewrite bool_decide_false by lia.
      destruct (Nat.ltb_spec 32 (length normalized)); [lia|].
      rewrite Hre. cbn [negb]. rewrite !bool_decide_false by done. cbn [orb].
      by rewrite Hinc.
  - destruct v as [| | | |s|]; try discriminate.
    unfold validateAndNormalizeUsername. cbv zeta.
    set (normalized := Js.toLowerCase (Js.trim s)).
    case_bool_decide; [discriminate|].
    destruct (32 <? length normalized)%nat; [discriminate|].
    destruct (USERNAME_REGEX_test normalized) eqn:Hre; [|discriminate].
    destruct (regex_dotfree _ Hre) as (Hdot & Hdots & Hinc).
    cbn [negb]. rewrite !bool_decide_false by done. cbn [orb]. by rewrite Hinc.
Qed.

(** ** The registry's methods and the username they are given *)

(** X17. A username that does not validate makes every method of the registry,
    and the connection handler with it, throw the validation's error before
    anything is read, changed or sent. *)
Theorem invalid_username_changes_nothing (username : JsString) (e : string) (w : World) :
  validateAndNormalizeUsername (VString username) = Throw e →
  (∀ forceNew, getOrCreateSession username forceNew w = MkRun (Throw e) w []) ∧
  createSession username w = MkRun (Throw e) w [] ∧
  hasActiveSession username w = MkRun (Throw e) w [] ∧
  getSession username w = MkRun (Throw e) w [] ∧
  (∀ ws, attachToSession username ws w = MkRun (Throw e) w []) ∧
  (∀ ws, detachFromSession username ws w = MkRun (Throw e) w []) ∧
  cleanupSession username w = MkRun (Throw e) w [] ∧
  (∀ ws, wss_on_connection ws (Authenticated username) w = MkRun (Throw e) w []).
Proof.
  intros Hv. repeat split; intros.
  - by apply getOrCreateSession_invalid.
  - unfold createSession. unfold_M. by rewrite Hv.
  - unfold hasActiveSession. unfold_M. by rewrite Hv.
  - unfold getSession. unfold_M. by rewrite Hv.
  - unfold attachToSession. unfold_M. by rewrite Hv.
  - unfold detachFromSession. unfold_M. by rewrite Hv.
  - by apply cleanupSession_invalid.
  - cbn [wss_on_connection]. unfold bind at 1.
    by rewrite (getOrCreateSession_invalid _ _ _ _ Hv).
Qed.

Lemma invalid_username_changes_nothing_witness :
  validateAndNormalizeUsername (VString (str "../etc")) =
    Throw "Username must contain only lowercase letters, numbers, hyphens, and underscores" ∧
  cleanupSession (str "../etc") twoViewers =
    MkRun (Throw "Username must contain only lowercase letters, numbers, hyphens, and underscores")
      twoViewers [].
Proof.
  split; [reflexivity|].
  by destruct (invalid_username_changes_nothing (str "../etc")
    "Username must contain only lowercase letters, numbers, hyphens, and underscores"
    twoViewers eq_refl) as (_ & _ & _ & _ & _ & _ & H & _).
Defined.

Section Spelling.
Implicit Types (username id : JsString) (w : World).

Lemma getOrCreateSession_normalized username id (forceNew : bool) w :
  validateAndNormalizeUsername (VString username) = Ok id →
  getOrCreateSession username forceNew w = getOrCreateSession id forceNew w.
Proof.
  intros Hv. pose proof (validate_idempotent _ _ Hv) as Hid.
  unfold getOrCreateSession. unfold_M. by rewrite Hv, Hid.
Qed.

Lemma createSession_normalized username id w :
  validateAndNormalizeUsername (VString username) = Ok id →
  createSession username w = createSession id w.
Proof.
  intros Hv. pose proof (validate_idempotent _ _ Hv) as Hid.
  by rewrite (createSession_ok _ _ _ Hv), (createSession_ok _ _ _ Hid).
Qed.

Lemma cleanupSession_normalized username id w :
  validateAndNormalizeUsername (VString username) = Ok id →
  cleanupSession username w = cleanupSession id w.
Proof.
  intros Hv. pose proof (validate_idempotent _ _ Hv) as Hid.
  unfold cleanupSession. unfold_M. by rewrite Hv, Hid.
Qed.

Lemma attachToSession_normalized username id (ws : WsRef) w :
  validateAndNormalizeUsername (VString username) = Ok id →
  attachToSession username ws w = attachToSession id ws w.
Proof.
  intros Hv. pose proof (validate_idempotent _ _ Hv) as Hid.
  unfold attachToSession. unfold_M. by rewrite Hv, Hid.
Qed.

Lemma detachFromSession_normalized username id (ws : WsRef) w :
  validateAndNormalizeUsername (VString username) = Ok id →
  detachFromSession username ws w = detachFromSession id ws w.
Proof.
  intros Hv. pose proof (validate_idempotent _ _ Hv) as Hid.
  unfold detachFromSession. unfold_M. by rewrite Hv, Hid.
Qed.

Lemma hasActiveSession_run username id w :
  validateAndNormalizeUsername (VString username) = Ok id →
  hasActiveSession username w = MkRun (Ok (JsMap.has id (sessions w))) w [].
Proof. intros Hv. unfold hasActiveSession. unfold_M. by rewrite Hv. Qed.

Lemma getSession_run username id w :
  validateAndNormalizeUsername (VString username) = Ok id →
  getSession username w = MkRun (Ok (JsMap.get id (sessions w))) w [].
Proof. intros Hv. unfold getSession. unfold_M. by rewrite Hv. Qed.

End Spelling.

(** X16. Two spellings of a username that normalize to the same identity are
    interchangeable in every method of the registry: same result, same
    effect, same calls. *)
Theorem username_spelling_irrelevant (u1 u2 id : JsString) (w : World) :
  validateAndNormalizeUsername (VString u1) = Ok id →
  validateAndNormalizeUsername (VString u2) = Ok id →
  (∀ forceNew, getOrCreateSession u1 forceNew w = getOrCreateSession u2 forceNew w) ∧
  createSession u1 w = createSession u2 w ∧
  hasActiveSession u1 w = hasActiveSession u2 w ∧
  getSession u1 w = getSession u2 w ∧
  (∀ ws, attachToSession u1 ws w = attachToSession u2 ws w) ∧
  (∀ ws, detachFromSession u1 ws w = detachFromSession u2 ws w) ∧
  cleanupSession u1 w = cleanupSession u2 w.
Proof.
  intros H1 H2. repeat split; intros.
  - by rewrite (getOrCreateSession_normalized u1 id), (getOrCreateSession_normalized u2 id).
  - by rewrite (createSession_normalized u1 id), (createSession_normalized u2 id).
  - by rewrite (hasActiveSession_run u1 id), (hasActiveSession_run u2 id).
  - by rewrite (getSession_run u1 id), (getSession_run u2 id).
  - by rewrite (attachToSession_normalized u1 id), (attachToSession_normalized u2 id).
  - by rewrite (detachFromSession_normalized u1 id), (detachFromSession_normalized u2 id).
  - by rewrite (cleanupSession_normalized u1 id), (cleanupSession_normalized u2 id).
Qed.

Lemma username_spelling_irrelevant_witness :
  validateAndNormalizeUsername (VString (str " Alice ")) = Ok alice ∧
  validateAndNormalizeUsername (VString (str "ALICE")) = Ok alice ∧
  cleanupSession (str " Alice ") twoViewers = cleanupSession (str "ALICE") twoViewers.
Proof.
  split; [reflexivity|]. split; [reflexivity|].
  by destruct (username_spelling_irrelevant (str " Alice ") (str "ALICE") alice twoViewers
                 eq_refl eq_refl) as (_ & _ & _ & _ & _ & _ & H).
Defined.

(** ** Looking sessions up *)

Lemma getOrCreateSession_returns (username id : JsString) (forceNew : bool) (w : World) :
  validateAndNormalizeUsername (VString username) = Ok id →
  ∃ session, result (getOrCreateSession username forceNew w) = Ok session.
Proof.
  intros Hv. pose proof (validate_idempotent _ _ Hv) as Hid.
  destruct (JsMap.get id (sessions w)) as [old|] eqn:Hg.
  - destruct forceNew.
    + rewrite (getOrCreateSession_forced _ _ _ _ Hv Hg). cbv zeta.
      rewrite (createSession_ok _ _ _ Hid). by eexists.
    + rewrite (getOrCreateSession_existing _ _ _ _ Hv Hg). by eexists.
  - rewrite (getOrCreateSession_absent _ _ _ _ Hv Hg), (createSession_ok _ _ _ Hid).
    by eexists.
Qed.

(** X12. [hasActiveSession] and [getSession] only read the registry, and agree
    with each other. What [getOrCreateSession] has returned is what
    [getSession] finds right after it, under any spelling of the name; after
    [cleanupSession] it finds nothing. *)
Theorem lookup_follows_registry (username id : JsString) (forceNew : bool) (w : World) :
  validateAndNormalizeUsername (VString username) = Ok id →
  let made := getOrCreateSession username forceNew w in
  let gone := cleanupSession username (final made) in
  (∀ w', final (getSession username w') = w' ∧ emitted (getSession username w') = [] ∧
         final (hasActiveSession username w') = w' ∧
         emitted (hasActiveSession username w') = [] ∧
         (result (hasActiveSession username w') = Ok true ↔
          ∃ session, result (getSession username w') = Ok (Some session)) ∧
         (result (hasActiveSession username w') = Ok false ↔
          result (getSession username w') = Ok None)) ∧
  (∃ session, result made = Ok session ∧
     result (getSession username (final made)) = Ok (Some session) ∧
     result (hasActiveSession username (final made)) = Ok true) ∧
  result (getSession username (final gone)) = Ok None ∧
  result (hasActiveSession username (final gone)) = Ok false.
Proof.
  intros Hv made gone. split; [|split].
  - intros w'. rewrite (getSession_run _ _ _ Hv), (hasActiveSession_run _ _ _ Hv).
    cbn [final emitted result]. unfold JsMap.has.
    destruct (JsMap.get id (sessions w')) as [session|].
    + cbn. repeat split; try done. intros _. by exists session.
    + cbn. repeat split; try done. by intros (? & ?).
  - destruct (getOrCreateSession_returns username id forceNew w Hv) as (session & Hres).
    fold made in Hres. exists session. split; [done|].
    destruct (getOrCreateSession_registered username forceNew w session Hres)
      as (id' & Hv' & Hreg).
    assert (id' = id) as -> by congruence. fold made in Hreg.
    rewrite (getSession_run _ _ _ Hv), (hasActiveSession_run _ _ _ Hv).
    cbn [result]. unfold JsMap.has. by rewrite Hreg.
  - assert (Hgone : JsMap.get id (sessions (final gone)) = None).
    { subst gone. destruct (JsMap.get id (sessions (final made))) as [session|] eqn:Hg.
      - rewrite (cleanupSession_present _ _ _ _ Hv Hg).
        destruct (final made). fields. apply get_delete_eq.
      - by rewrite (cleanupSession_absent _ _ _ Hv Hg). }
    rewrite (getSession_run _ _ _ Hv), (hasActiveSession_run _ _ _ Hv).
    cbn [result]. unfold JsMap.has. by rewrite Hgone.
Qed.

(** ** Attaching and detaching viewers *)

Section AttachDetach.
Implicit Types (username id : JsString) (w : World) (ws : WsRef) (session : SessRef).

Lemma attachToSession_absent username id ws w :
  validateAndNormalizeUsername (VString username) = Ok id →
  JsMap.get id (sessions w) = None →
  attachToSession username ws w = MkRun (Ok tt) w [].
Proof. intros Hv Hg. unfold attachToSession. unfold_M. rewrite Hv. cbn. by rewrite Hg. Qed.

Lemma attachToSession_known username id session ws w :
  validateAndNormalizeUsername (VString username) = Ok id →
  JsMap.get id (sessions w) = Some session →
  ws ∈ subscribers (heap w session) →
  attachToSession username ws w = MkRun (Ok tt) w [].
Proof.
  intros Hv Hg Hin. unfold attachToSession, deref. unfold_M. rewrite Hv. cbn.
  rewrite Hg. cbn. by rewrite bool_decide_true.
Qed.

Lemma attachToSession_new username id session ws w :
  validateAndNormalizeUsername (VString username) = Ok id →
  JsMap.get id (sessions w) = Some session →
  ws ∉ subscribers (heap w session) →
  ∃ w', attachToSession username ws w = MkRun (Ok tt) w' [] ∧
        same_outside_heap w w' ∧ clock w' = S (clock w) ∧
        heap w' session =
          MkSession (pty (heap w session)) (created (heap w session))
            (time w (clock w)) (subscribers (heap w session) ++ [ws]) ∧
        ∀ other, other ≠ session → heap w' other = heap w other.
Proof.
  intros Hv Hg Hin.
  unfold attachToSession, deref, update_subscribers, assign_lastActivity, Date_now.
  unfold_M. rewrite Hv. cbn. rewrite Hg. cbn. rewrite bool_decide_false by done. cbn.
  eexists. split; [reflexivity|]. destruct w. unfold same_outside_heap. fields.
  split; [done|]. split; [done|]. split.
  - by rewrite !fn_lookup_insert.
  - intros other Hne. by rewrite !fn_lookup_insert_ne.
Qed.

Lemma detachFromSession_absent username id ws w :
  validateAndNormalizeUsername (VString username) = Ok id →
  JsMap.get id (sessions w) = None →
  detachFromSession username ws w = MkRun (Ok tt) w [].
Proof. intros Hv Hg. unfold detachFromSession. unfold_M. rewrite Hv. cbn. by rewrite Hg. Qed.

Lemma list_find_absent (l : list nat) (x : nat) :
  x ∉ l → list_find (λ y, y = x) l = None.
Proof.
  intros Hx. apply list_find_None. apply list.Forall_forall. intros y Hy ->. done.
Qed.

(** [indexOf] finds the first occurrence, [splice] takes it out. *)
Lemma list_find_first (before rest : list nat) (x : nat) :
  x ∉ before →
  list_find (λ y, y = x) (before ++ x :: rest) = Some (length before, x) ∧
  delete (length before) (before ++ x :: rest) = before ++ rest.
Proof.
  intros Hx. split.
  - apply list_find_Some. split; [by apply list_lookup_middle|]. split; [done|].
    intros j y Hj Hlt ->. apply Hx. rewrite lookup_app_l in Hj by done.
    by apply list_elem_of_lookup_2 in Hj.
  - induction before as [|b before IH]; [done|]. cbn. f_equal. apply IH.
    by apply not_elem_of_cons in Hx as [_ ?].
Qed.

Lemma detachFromSession_stranger username id session ws w :
  validateAndNormalizeUsername (VString username) = Ok id →
  JsMap.get id (sessions w) = Some session →
  ws ∉ subscribers (heap w session) →
  detachFromSession username ws w = MkRun (Ok tt) w [].
Proof.
  intros Hv Hg Hin. unfold detachFromSession, deref. unfold_M. rewrite Hv. cbn.
  rewrite Hg. cbn. by rewrite (list_find_absent _ _ Hin).
Qed.

Lemma detachFromSession_first username id session ws (before rest : list WsRef) w :
  validateAndNormalizeUsername (VString username) = Ok id →
  JsMap.get id (sessions w) = Some session →
  subscribers (heap w session) = before ++ ws :: rest →
  ws ∉ before →
  ∃ w', detachFromSession username ws w = MkRun (Ok tt) w' [] ∧
        same_outside_heap w w' ∧ clock w' = clock w ∧
        heap w' session =
          MkSession (pty (heap w session)) (created (heap w session))
            (lastActivity (heap w session)) (before ++ rest) ∧
        ∀ other, other ≠ session → heap w' other = heap w other.
Proof.
  intros Hv Hg Hsubs Hin. unfold detachFromSession, deref, update_subscribers.
  unfold_M. rewrite Hv. cbn. rewrite Hg. cbn. rewrite Hsubs.
  destruct (list_find_first before rest ws Hin) as [-> Hdel]. cbn.
  eexists. split; [reflexivity|]. destruct w. unfold same_outside_heap. fields.
  split; [done|]. split; [done|]. split.
  - by rewrite fn_lookup_insert, Hsubs, Hdel.
  - intros other Hne. by rewrite fn_lookup_insert_ne.
Qed.

End AttachDetach.

Lemma same_outside_heap_refl (w : World) : same_outside_heap w w.
Proof. by repeat split. Qed.

Lemma detachFromSession_outside (username : JsString) (ws : WsRef) (w : World) :
  same_outside_heap w (final (detachFromSession username ws w)).
Proof.
  destruct (validateAndNormalizeUsername (VString username)) as [id|e] eqn:Hv.
  2:{ unfold detachFromSession. unfold_M. rewrite Hv. apply same_outside_heap_refl. }
  destruct (JsMap.get id (sessions w)) as [session|] eqn:Hg.
  2:{ rewrite (detachFromSession_absent _ _ _ _ Hv Hg). apply same_outside_heap_refl. }
  destruct (decide (ws ∈ subscribers (heap w session))) as [Hin|Hin].
  - destruct (list_elem_of_split_l _ _ Hin) as (before & rest & Hsubs & Hbefore).
    by destruct (detachFromSession_first _ _ _ _ _ _ _ Hv Hg Hsubs Hbefore)
      as (w' & -> & Hsame & _).
  - rewrite (detachFromSession_stranger _ _ _ _ _ Hv Hg Hin).
    apply same_outside_heap_refl.
Qed.

(** X13. [attachToSession] never throws for a valid username and calls nothing.
    Without a session for the identity it silently does nothing; for a viewer
    that is attached already it changes nothing, not even the last-activity
    time; otherwise the viewer goes to the end of the subscribers and
    last-activity becomes the time of the call. *)
Theorem attachToSession_cases (username id : JsString) (ws : WsRef) (w : World) :
  validateAndNormalizeUsername (VString username) = Ok id →
  let r := attachToSession username ws w in
  result r = Ok tt ∧ emitted r = [] ∧ same_outside_heap w (final r) ∧
  (JsMap.get id (sessions w) = None → final r = w) ∧
  (∀ session, JsMap.get id (sessions w) = Some session →
     (∀ other, other ≠ session → heap (final r) other = heap w other) ∧
     (ws ∈ subscribers (heap w session) → final r = w) ∧
     (ws ∉ subscribers (heap w session) →
        heap (final r) session =
          MkSession (pty (heap w session)) (created (heap w session))
            (time w (clock w)) (subscribers (heap w session) ++ [ws]) ∧
        clock (final r) = S (clock w))).
Proof.
  intros Hv r. subst r. destruct (JsMap.get id (sessions w)) as [session|] eqn:Hg.
  - destruct (decide (ws ∈ subscribers (heap w session))) as [Hin|Hin].
    + rewrite (attachToSession_known _ _ _ _ _ Hv Hg Hin). cbn [result emitted final].
      split; [done|]. split; [done|]. split; [apply same_outside_heap_refl|].
      split; [done|]. intros ? [= <-]. by repeat split.
    + destruct (attachToSession_new _ _ _ _ _ Hv Hg Hin)
        as (w' & -> & Hsame & Hclock & Hnew & Hother).
      cbn [result emitted final].
      split; [done|]. split; [done|]. split; [done|].
      split; [done|]. intros ? [= <-]. by repeat split.
  - rewrite (attachToSession_absent _ _ _ _ Hv Hg). cbn [result emitted final].
    split; [done|]. split; [done|]. split; [apply same_outside_heap_refl|]. by split.
Qed.

Lemma attachToSession_cases_witness :
  validateAndNormalizeUsername (VString (str "ALICE")) = Ok alice ∧
  subscribers (heap (final (attachToSession (str "ALICE") 3 twoViewers)) 0) = [1; 2; 3]%nat ∧
  final (attachToSession (str "ALICE") 2 twoViewers) = twoViewers ∧
  final (attachToSession bob 3 twoViewers) = twoViewers.
Proof.
  split; [reflexivity|].
  destruct (attachToSession_cases (str "ALICE") alice 3 twoViewers eq_refl)
    as (_ & _ & _ & _ & Hthree).
  destruct (attachToSession_cases (str "ALICE") alice 2 twoViewers eq_refl)
    as (_ & _ & _ & _ & Htwo).
  destruct (attachToSession_cases bob bob 3 twoViewers eq_refl)
    as (_ & _ & _ & Hbob & _).
  split; [|split].
  - destruct (Hthree 0%nat eq_refl) as (_ & _ & Hnew).
    destruct Hnew as [-> _]; [|reflexivity].
    vm_compute. by intros [[=]|[[=]|[]%elem_of_nil]%elem_of_cons]%elem_of_cons.
  - destruct (Htwo 0%nat eq_refl) as (_ & Hknown & _). apply Hknown.
    vm_compute. right. left.
  - by apply Hbob.
Defined.

(** X14. [detachFromSession] never throws for a valid username, calls nothing and
    reads no clock: last-activity stays what it was. It takes the first
    occurrence of the viewer out of the subscribers; without a session, or
    for a viewer that is not attached, it does nothing. When no viewer is
    listed twice the viewer is gone afterwards. *)
Theorem detachFromSession_cases (username id : JsString) (ws : WsRef) (w : World) :
  validateAndNormalizeUsername (VString username) = Ok id →
  let r := detachFromSession username ws w in
  result r = Ok tt ∧ emitted r = [] ∧ same_outside_heap w (final r) ∧
  clock (final r) = clock w ∧
  (JsMap.get id (sessions w) = None → final r = w) ∧
  (∀ session, JsMap.get id (sessions w) = Some session →
     let old := heap w session in
     let new := heap (final r) session in
     (∀ other, other ≠ session → heap (final r) other = heap w other) ∧
     pty new = pty old ∧ created new = created old ∧ lastActivity new = lastActivity old ∧
     (ws ∉ subscribers old → final r = w) ∧
     (∀ before rest, subscribers old = before ++ ws :: rest → ws ∉ before →
        subscribers new = before ++ rest) ∧
     (NoDup (subscribers old) → ws ∉ subscribers new)).
Proof.
  intros Hv r. subst r. destruct (JsMap.get id (sessions w)) as [session|] eqn:Hg.
  - destruct (decide (ws ∈ subscribers (heap w session))) as [Hin|Hin].
    + destruct (list_elem_of_split_l _ _ Hin) as (before & rest & Hsubs & Hbefore).
      destruct (detachFromSession_first _ _ _ _ _ _ _ Hv Hg Hsubs Hbefore)
        as (w' & -> & Hsame & Hclock & Hnew & Hother).
      cbn [result emitted final].
      split; [done|]. split; [done|]. split; [done|]. split; [done|].
      split; [done|]. intros ? [= <-]. cbv zeta. rewrite Hnew. cbn.
      split; [done|]. split; [done|]. split; [done|]. split; [done|].
      split; [done|]. split.
      * intros before' rest' Hsubs' Hbefore'. rewrite Hsubs in Hsubs'.
        destruct (decide (length before = length before')) as [Hlen|Hlen].
        -- apply app_inj_1 in Hsubs' as [-> [= ->]]; done.
        -- exfalso. assert (Hl : (before ++ ws :: rest) !! length before = Some ws)
             by (by apply list_lookup_middle).
           assert (Hl' : (before' ++ ws :: rest') !! length before' = Some ws)
             by (by apply list_lookup_middle).
           destruct (decide (length before < length before')%nat).
           ++ rewrite Hsubs', lookup_app_l in Hl by done.
              apply Hbefore'. by apply list_elem_of_lookup_2 in Hl.
           ++ rewrite <- Hsubs', lookup_app_l in Hl' by lia.
              apply Hbefore. by apply list_elem_of_lookup_2 in Hl'.
      * rewrite Hsubs. intros Hnd Hws. apply list.NoDup_app in Hnd as (_ & Hdisj & Hnd).
        apply list.NoDup_cons in Hnd as [Hrest _].
        apply elem_of_app in Hws as [Hws|Hws]; [by apply Hbefore|by apply Hrest].
    + rewrite (detachFromSession_stranger _ _ _ _ _ Hv Hg Hin). cbn [result emitted final].
      split; [done|]. split; [done|]. split; [apply same_outside_heap_refl|].
      split; [done|]. split; [done|]. intros ? [= <-]. cbv zeta.
      split; [done|]. split; [done|]. split; [done|]. split; [done|].
      split; [done|]. split.
      * intros before rest Hsubs _. destruct Hin. rewrite Hsubs.
        apply elem_of_app. right. left.
      * done.
  - rewrite (detachFromSession_absent _ _ _ _ Hv Hg). cbn [result emitted final].
    split; [done|]. split; [done|]. split; [apply same_outside_heap_refl|].
    split; [done|]. by split.
Qed.

Lemma detachFromSession_cases_witness :
  validateAndNormalizeUsername (VString alice) = Ok alice ∧
  subscribers (heap twoViewers 0) = [1; 2]%nat ∧
  subscribers (heap (final (detachFromSession alice 1 twoViewers)) 0) = [2]%nat ∧
  lastActivity (heap (final (detachFromSession alice 1 twoViewers)) 0) =
    lastActivity (heap twoViewers 0).
Proof.
  split; [reflexivity|]. split; [reflexivity|].
  destruct (detachFromSession_cases alice alice 1 twoViewers eq_refl)
    as (_ & _ & _ & _ & _ & Hcases).
  destruct (Hcases 0%nat eq_refl) as (_ & _ & _ & Hlast & _ & Hfirst & _).
  split; [|exact Hlast].
  apply (Hfirst [] [2%nat]); [reflexivity|]. by intros []%elem_of_nil.
Defined.

(** X15. Attaching a new viewer and detaching it again leaves the subscribers as
    they were; the last-activity time stays refreshed. *)
Theorem attach_then_detach (username id : JsString) (session : SessRef) (ws : WsRef)
    (w : World) :
  validateAndNormalizeUsername (VString username) = Ok id →
  JsMap.get id (sessions w) = Some session →
  ws ∉ subscribers (heap w session) →
  let r := (attachToSession username ws;; detachFromSession username ws) w in
  result r = Ok tt ∧ emitted r = [] ∧ sessions (final r) = sessions w ∧
  heap (final r) session =
    MkSession (pty (heap w session)) (created (heap w session)) (time w (clock w))
      (subscribers (heap w session)) ∧
  ∀ other, other ≠ session → heap (final r) other = heap w other.
Proof.
  intros Hv Hg Hin r. subst r. unfold bind.
  destruct (attachToSession_new _ _ _ _ _ Hv Hg Hin)
    as (w1 & -> & Hsame1 & Hclock1 & Hnew1 & Hother1).
  assert (Hg1 : JsMap.get id (sessions w1) = Some session).
  { destruct Hsame1 as (-> & _). done. }
  assert (Hsubs1 : subscribers (heap w1 session) = subscribers (heap w session) ++ ws :: [])
    by (by rewrite Hnew1).
  destruct (detachFromSession_first _ _ _ _ _ _ _ Hv Hg1 Hsubs1 Hin)
    as (w2 & -> & Hsame2 & Hclock2 & Hnew2 & Hother2).
  cbn [result emitted final app].
  split; [done|]. split; [done|]. split.
  { destruct Hsame2 as (-> & _). by destruct Hsame1 as (-> & _). }
  split.
  - rewrite Hnew2, Hnew1. cbn. by rewrite app_nil_r.
  - intros other Hne. by rewrite Hother2, Hother1.
Qed.

Lemma attach_then_detach_witness :
  validateAndNormalizeUsername (VString alice) = Ok alice ∧
  JsMap.get alice (sessions twoViewers) = Some 0%nat ∧
  subscribers (heap (final ((attachToSession alice 3;; detachFromSession alice 3)%M
                              twoViewers)) 0) = [1; 2]%nat.
Proof.
  split; [reflexivity|]. split; [reflexivity|].
  destruct (attach_then_detach alice alice 0 3 twoViewers eq_refl eq_refl)
    as (_ & _ & _ & -> & _); [|reflexivity].
  vm_compute. by intros [[=]|[[=]|[]%elem_of_nil]%elem_of_cons]%elem_of_cons.
Defined.

(** ** Statistics *)

Lemma has_elem {V} (m : list (JsString * V)) (k : JsString) :
  JsMap.has k m = true ↔ k ∈ m.*1.
Proof.
  unfold JsMap.has. pose proof (get_None m k) as Hnone.
  destruct (JsMap.get k m) as [v|].
  - split; [intros _|done]. destruct (decide (k ∈ m.*1)) as [|Hn]; [done|].
    by apply Hnone in Hn.
  - split; [done|]. intros Hin. by destruct (proj1 Hnone eq_refl).
Qed.

(** X11. Whatever has happened since the server started, [getStats] changes
    nothing and reports every registered identity exactly once: the total is
    the number of lines, the usernames of the lines are distinct and are the
    identities [hasActiveSession] answers true for, and each line gives the
    times and the number of subscribers of the session [getSession] finds
    under the line's username. *)
Theorem getStats_reports_registry
    (readings : nat → Z) (failing : PtyRef → bool) (steps : list Step) :
  let w := after steps (initWorld readings failing) in
  let r := getStats w in
  final r = w ∧ emitted r = [] ∧
  ∃ total lines, result r = Ok (total, lines) ∧ total = length lines ∧
    NoDup (stats_username <$> lines) ∧
    (∀ username id, validateAndNormalizeUsername (VString username) = Ok id →
       result (hasActiveSession username w) = Ok true ↔ id ∈ stats_username <$> lines) ∧
    (∀ line, line ∈ lines →
       ∃ session, result (getSession (stats_username line) w) = Ok (Some session) ∧
         stats_created line = created (heap w session) ∧
         stats_lastActivity line = lastActivity (heap w session) ∧
         stats_subscribers line = length (subscribers (heap w session))).
Proof.
  intros w r. destruct (wf_reachable readings failing steps) as [[Hnd Hkeys] _].
  fold w in Hnd, Hkeys. subst r. unfold getStats, gets. cbn [final emitted result].
  split; [done|]. split; [done|]. eexists _, _. split; [reflexivity|].
  assert (Hnames : stats_username <$>
    ((λ e, MkStats e.1 (created (heap w e.2)) (lastActivity (heap w e.2))
             (length (subscribers (heap w e.2)))) <$> sessions w) = (sessions w).*1).
  { rewrite <- list_fmap_compose. by apply list_fmap_ext. }
  rewrite Hnames. split; [by rewrite length_fmap|]. split; [done|]. split.
  - intros username id Hv. rewrite (hasActiveSession_run _ _ _ Hv). cbn [result].
    rewrite <- has_elem. split; [by intros [= ->]|by intros ->].
  - intros line ([k session] & -> & Hin)%list_elem_of_fmap. cbn [stats_username fst snd].
    rewrite list.Forall_forall in Hkeys. pose proof (Hkeys _ Hin) as Hk. cbn [fst] in Hk.
    exists session. rewrite (getSession_run _ _ _ Hk). cbn [result].
    by rewrite (get_NoDup _ _ _ Hnd Hin).
Qed.

Lemma lookup_follows_registry_witness :
  validateAndNormalizeUsername (VString (str " Alice ")) = Ok alice ∧
  result (getSession (str " Alice ")
            (final (getOrCreateSession (str " Alice ") false startWorld))) = Ok (Some 0%nat) ∧
  result (hasActiveSession (str " Alice ")
            (final (cleanupSession (str " Alice ")
                      (final (getOrCreateSession (str " Alice ") false startWorld))))) = Ok false.
Proof.
  split; [reflexivity|].
  destruct (lookup_follows_registry (str " Alice ") alice false startWorld eq_refl)
    as (_ & (session & Hmade & Hget & _) & _ & Hgone).
  split; [|exact Hgone]. rewrite Hget. f_equal. f_equal.
  assert (Ok session = Ok 0%nat :> Result SessRef) as [= ->]; [|done].
  rewrite <- Hmade. reflexivity.
Defined.

(** ** The relay: messages, output, close *)

Section Relay.
Implicit Types (w : World) (ws : WsRef) (p : PtyRef) (username : JsString).

Lemma ws_on_message_unparsable ws p username w :
  ws_on_message ws p username None w = MkRun (Ok tt) w [].
Proof. reflexivity. Qed.

Lemma ws_on_message_other ws p username (msg : WebSocketMessage) w :
  msg_type msg ≠ VString (str "input") →
  msg_type msg ≠ VString (str "resize") →
  ws_on_message ws p username (Some msg) w = MkRun (Ok tt) w [].
Proof.
  intros Hi Hr. unfold ws_on_message. by rewrite !bool_decide_false by done.
Qed.

Lemma dataHandler_run ws (data : JsString) w :
  dataHandler ws data w =
  MkRun (Ok tt) w (if bool_decide (readyState w ws = OPEN)
                   then [EvSend ws (MsgData data)] else []).
Proof.
  unfold dataHandler, ws_send. unfold_M.
  destruct (readyStateCode (readyState w ws) =? 1) eqn:Hrs.
  - apply readyState_open in Hrs. by rewrite bool_decide_true.
  - apply readyState_not_open in Hrs. by rewrite bool_decide_false.
Qed.

Lemma forEach_dataHandler (l : list WsRef) (data : JsString) w :
  forEach l (λ ws, dataHandler ws data) w =
  MkRun (Ok tt) w
    ((λ ws, EvSend ws (MsgData data)) <$> filter (λ ws, readyState w ws = OPEN) l).
Proof.
  induction l as [|ws l IH]; [done|].
  cbn [forEach]. unfold bind. rewrite dataHandler_run, IH, list.filter_cons.
  case_bool_decide; [by rewrite decide_True|by rewrite decide_False].
Qed.

Lemma pty_emit_data_run p (data : JsString) w :
  pty_emit_data p data w =
  MkRun (Ok tt) w
    ((λ ws, EvSend ws (MsgData data))
       <$> filter (λ ws, readyState w ws = OPEN) (dataListeners w p)).
Proof.
  unfold pty_emit_data. unfold bind at 1. unfold gets at 1.
  by rewrite forEach_dataHandler.
Qed.

Lemma ws_on_message_quiet ws p username (message : option WebSocketMessage) w :
  final (ws_on_message ws p username message w) = w.
Proof.
  destruct message as [msg|]; [|done].
  destruct (decide (msg_type msg = VString (str "input"))) as [Hi|Hi].
  { by rewrite (ws_on_message_input _ _ _ _ _ Hi). }
  destruct (decide (msg_type msg = VString (str "resize"))) as [Hr|Hr].
  { by rewrite (ws_on_message_resize _ _ _ _ _ Hr). }
  by rewrite (ws_on_message_other _ _ _ _ _ Hi Hr).
Qed.

End Relay.

(** X7. Whatever a viewer sends, parsable or not, the message handler returns
    normally and changes nothing in the server. It makes at most one call:
    a write of a non-empty text of at most 10000 units or a resize with both
    dimensions in range, on the process of its own connection, or an
    "Invalid input" error to its own socket. A message that does not parse,
    or whose type is neither "input" nor "resize", is ignored in silence. *)
Theorem ws_on_message_contained
    (ws : WsRef) (pty : PtyRef) (username : JsString) (message : option WebSocketMessage)
    (w : World) :
  let r := ws_on_message ws pty username message w in
  result r = Ok tt ∧ final r = w ∧ (length (emitted r) ≤ 1)%nat ∧
  (∀ e, e ∈ emitted r →
     (∃ d, e = EvWrite pty d ∧ d ≠ [] ∧ Z.of_nat (length d) ≤ 10000) ∨
     (∃ cols rows, e = EvResize pty cols rows ∧
                   dimension_in_range cols ∧ dimension_in_range rows) ∨
     e = EvSend ws (MsgError "Invalid input")) ∧
  (message = None → emitted r = []) ∧
  (∀ msg, message = Some msg →
     msg_type msg ≠ VString (str "input") → msg_type msg ≠ VString (str "resize") →
     emitted r = []).
Proof.
  intros r. subst r. destruct message as [msg|].
  2:{ rewrite ws_on_message_unparsable. cbn. repeat split; try done; try lia.
      by intros e []%elem_of_nil. }
  destruct (decide (msg_type msg = VString (str "input"))) as [Hi|Hi].
  { rewrite (ws_on_message_input _ _ _ _ _ Hi). cbn [result final emitted].
    split; [done|]. split; [done|].
    destruct (truthy (msg_data msg)) eqn:Ht.
    - destruct (msg_data msg) as [| | | |d|] eqn:Hd; cbn [sanitizeTerminalInput];
        try (split; [cbn; lia|]; split;
             [intros e ->%list_elem_of_singleton; by right; right|]; split;
             [done|by intros ? [= <-] ?]).
      destruct (Z.gtb_spec (Z.of_nat (length d)) 10000).
      + split; [cbn; lia|]. split; [|split; [done|by intros ? [= <-] ?]].
        intros e ->%list_elem_of_singleton. by right; right.
      + split; [cbn; lia|]. split; [|split; [done|by intros ? [= <-] ?]].
        intros e ->%list_elem_of_singleton. left. exists d. split; [done|]. split; [|done].
        intros ->. by vm_compute in Ht.
    - split; [cbn; lia|]. split; [by intros e []%elem_of_nil|]. by split. }
  destruct (decide (msg_type msg = VString (str "resize"))) as [Hr|Hr].
  { rewrite (ws_on_message_resize _ _ _ _ _ Hr). cbn [result final emitted].
    split; [done|]. split; [done|].
    destruct (truthy (msg_cols msg) && truthy (msg_rows msg)).
    - destruct (validateTerminalDimensions _ _) as [[]|] eqn:Hv.
      + apply validateTerminalDimensions_ok in Hv as [Hc Hrows].
        split; [cbn; lia|]. split; [|split; [done|by intros ? [= <-] ?]].
        intros e ->%list_elem_of_singleton. right. left. by eexists _, _.
      + split; [cbn; lia|]. split; [by intros e []%elem_of_nil|].
        split; [done|by intros ? [= <-] ?].
    - split; [cbn; lia|]. split; [by intros e []%elem_of_nil|].
      split; [done|by intros ? [= <-] ?]. }
  rewrite (ws_on_message_other _ _ _ _ _ Hi Hr). cbn.
  repeat split; try done; try lia. by intros e []%elem_of_nil.
Qed.

Lemma step_traffic (s : Step) (w : World) : isTraffic s = true → final (step s w) = w.
Proof.
  destruct s; try discriminate; cbn [step]; intros _.
  - apply ws_on_message_quiet.
  - by rewrite pty_emit_data_run.
Qed.

(** X6. Terminal traffic is not activity: however many messages viewers send
    and however much output processes produce, nothing in the server
    changes, and in particular no session's last-activity time. *)
Theorem traffic_is_not_activity (steps : list Step) (w : World) :
  Forall (λ s, isTraffic s = true) steps → after steps w = w.
Proof.
  unfold after. induction steps as [|s steps IH]; [done|].
  intros [Hs Hsteps]%list.Forall_cons. cbn [foldl].
  rewrite (step_traffic s w Hs). by apply IH.
Qed.

Lemma traffic_is_not_activity_witness :
  Forall (λ s, isTraffic s = true)
    [Message 1 0 alice (Some (inputMessage (str "ls"))); ProcessData 0 (str "a.txt")] ∧
  after [Message 1 0 alice (Some (inputMessage (str "ls"))); ProcessData 0 (str "a.txt")]
    twoViewers = twoViewers.
Proof.
  assert (H : Forall (λ s, isTraffic s = true)
    [Message 1 0 alice (Some (inputMessage (str "ls"))); ProcessData 0 (str "a.txt")])
    by (by repeat constructor).
  split; [exact H|]. exact (traffic_is_not_activity _ twoViewers H).
Defined.

(** X8. The output of a process goes, unchanged, to each of its 'data'
    listeners whose socket is open, in the order of registration, and to
    nobody else; relaying it changes nothing. Once the close handler of a
    connection has run, no output of that process reaches its socket. *)
Theorem output_reaches_open_listeners (p : PtyRef) (data : JsString) (w : World) :
  pty_emit_data p data w =
    MkRun (Ok tt) w
      ((λ ws, EvSend ws (MsgData data))
         <$> filter (λ ws, readyState w ws = OPEN) (dataListeners w p)) ∧
  ∀ (ws : WsRef) (username : JsString) (m : ServerMessage),
    EvSend ws m ∉ emitted (pty_emit_data p data (final (ws_on_close ws p username w))).
Proof.
  split; [apply pty_emit_data_run|].
  intros ws username m. rewrite pty_emit_data_run. cbn [emitted].
  intros (ws' & [= <- _] & [_ Hin]%list_elem_of_filter)%list_elem_of_fmap.
  revert Hin. unfold ws_on_close, pty_removeListener_data. unfold bind at 1.
  unfold modify at 1.
  set (w1 := set_dataListeners _ w).
  assert (Hgone : ws ∉ dataListeners w1 p).
  { subst w1. destruct w. fields. rewrite fn_lookup_insert.
    by intros [? _]%list_elem_of_filter. }
  assert (Hkeep : dataListeners (final (detachFromSession username ws w1)) = dataListeners w1)
    by (by destruct (detachFromSession_outside username ws w1) as (_ & _ & _ & -> & _)).
  destruct (detachFromSession username ws w1) as [res w2 ev2]. cbn [final] in *.
  by rewrite Hkeep.
Qed.

(** ** Connections *)

Section Connections.
Implicit Types (w : World) (ws : WsRef) (username id : JsString).

(** What [cleanupSession] leaves, whether or not there was a session. *)
Lemma cleanupSession_final username id w :
  validateAndNormalizeUsername (VString username) = Ok id →
  ∃ rs, cleanupSession username w =
        MkRun (Ok tt) (set_sessions (JsMap.delete id) (set_readyState (λ _, rs) w))
          (emitted (cleanupSession username w)).
Proof.
  intros Hv. destruct (JsMap.get id (sessions w)) as [session|] eqn:Hg.
  - rewrite (cleanupSession_present _ _ _ _ Hv Hg). cbn [emitted].
    exists (closeAll (subscribers (heap w session)) (readyState w)). by destruct w.
  - rewrite (cleanupSession_absent _ _ _ Hv Hg). cbn [emitted].
    exists (readyState w). destruct w. fields. do 2 f_equal.
    symmetry. apply delete_absent. by apply get_None.
Qed.

(** With [forceNew], whatever is registered for the identity is destroyed
    and a session is created. *)
Lemma getOrCreateSession_true_run username id w :
  validateAndNormalizeUsername (VString username) = Ok id →
  getOrCreateSession username true w =
  let destroyed := cleanupSession id w in
  let fresh := createSession id (final destroyed) in
  MkRun (result fresh) (final fresh) (emitted destroyed ++ emitted fresh).
Proof.
  intros Hv. pose proof (validate_idempotent _ _ Hv) as Hid.
  destruct (JsMap.get id (sessions w)) as [session|] eqn:Hg.
  - by apply (getOrCreateSession_forced _ _ session).
  - rewrite (getOrCreateSession_absent _ _ _ _ Hv Hg).
    rewrite (cleanupSession_absent _ _ _ Hid Hg). cbv zeta. cbn [final emitted app].
    by rewrite (createSession_ok _ _ _ Hid).
Qed.

End Connections.

Lemma wss_on_connection_run (ws : WsRef) (username id : JsString) (w : World) :
  validateAndNormalizeUsername (VString username) = Ok id →
  ∃ w', wss_on_connection ws (Authenticated username) w =
          MkRun (Ok tt) w'
            (emitted (cleanupSession id w)
             ++ [EvSpawn (nextPty w) id; EvSend ws MsgConnected]) ∧
    sessions w' = JsMap.delete id (sessions w) ++ [(id, nextRef w)] ∧
    heap w' (nextRef w) =
      MkSession (nextPty w) (time w (clock w)) (time w (S (S (clock w)))) [ws] ∧
    (∀ other, other ≠ nextRef w → heap w' other = heap w other) ∧
    dataListeners w' (nextPty w) = dataListeners w (nextPty w) ++ [ws] ∧
    exitListeners w' (nextPty w) =
      exitListeners w (nextPty w) ++ [OnExitCleanup id; OnceExitHandler ws] ∧
    (∀ q, q ≠ nextPty w → dataListeners w' q = dataListeners w q ∧
                          exitListeners w' q = exitListeners w q) ∧
    nextPty w' = S (nextPty w) ∧ nextRef w' = S (nextRef w) ∧
    time w' = time w ∧ clock w' = S (S (S (clock w))).
Proof.
  intros Hv. pose proof (validate_idempotent _ _ Hv) as Hid.
  cbn [wss_on_connection]. unfold bind at 1.
  rewrite (getOrCreateSession_true_run _ _ _ Hv). cbv zeta.
  destruct (cleanupSession_final id id w Hid) as (rs & ->). cbn [final emitted].
  rewrite (createSession_ok _ _ _ Hid). cbn [final emitted result].
  set (ev0 := emitted (cleanupSession id w)). clearbody ev0.
  destruct w as [ss h nr rs0 dl el kt np tm ck]. fields.
  unfold bind at 1. unfold deref at 1. unfold gets at 1. cbn [heap pty].
  rewrite fn_lookup_insert. cbn [pty].
  set (w2 := MkWorld _ _ _ _ _ _ _ _ _ _).
  assert (Hg2 : JsMap.get id (sessions w2) = Some nr) by apply get_set_eq.
  assert (Hin2 : ws ∉ subscribers (heap w2 nr)).
  { subst w2. cbn [heap]. rewrite fn_lookup_insert. by intros []%elem_of_nil. }
  destruct (attachToSession_new username id nr ws w2 Hv Hg2 Hin2)
    as (w3 & Hatt & Hsame & Hclock & Hnew & Hother).
  unfold bind at 1. rewrite Hatt.
  unfold pty_on_data, pty_on_exit, ws_send. unfold_M.
  destruct Hsame as (Hs3 & Hnr3 & Hrs3 & Hdl3 & Hel3 & Hkt3 & Hnp3 & Htm3).
  destruct w3 as [ss3 h3 nr3 rs3 dl3 el3 kt3 np3 tm3 ck3]. subst w2. fields. subst.
  rewrite fn_lookup_insert in Hnew.
  eexists. split; [by rewrite <- !app_assoc|]. fields.
  split; [by apply set_absent, get_delete_eq|].
  split; [exact Hnew|]. split.
  { intros other Hne. rewrite Hother by done. by rewrite fn_lookup_insert_ne. }
  rewrite !fn_lookup_insert. split; [done|]. split; [by rewrite <- app_assoc|].
  split; [|by repeat split]. intros q Hq. by rewrite !fn_lookup_insert_ne.
Qed.

(** X4. An authenticated connection always starts a process of its own: what
    is registered for the identity is destroyed first (its open viewers get
    their exit message), then a process is spawned and registered, the new
    socket becomes the only subscriber of the new session and a listener of
    the new process's output and exit, and "connected" is the last thing
    sent. No session is ever taken over by a new connection. *)
Theorem connection_starts_fresh_session (ws : WsRef) (username id : JsString) (w : World) :
  validateAndNormalizeUsername (VString username) = Ok id →
  let r := wss_on_connection ws (Authenticated username) w in
  let session := nextRef w in
  let p := nextPty w in
  result r = Ok tt ∧
  emitted r = emitted (cleanupSession id w) ++ [EvSpawn p id; EvSend ws MsgConnected] ∧
  sessions (final r) = JsMap.delete id (sessions w) ++ [(id, session)] ∧
  heap (final r) session =
    MkSession p (time w (clock w)) (time w (S (S (clock w)))) [ws] ∧
  (∀ other, other ≠ session → heap (final r) other = heap w other) ∧
  dataListeners (final r) p = dataListeners w p ++ [ws] ∧
  exitListeners (final r) p =
    exitListeners w p ++ [OnExitCleanup id; OnceExitHandler ws] ∧
  (∀ q, q ≠ p → dataListeners (final r) q = dataListeners w q ∧
                exitListeners (final r) q = exitListeners w q) ∧
  nextPty (final r) = S p ∧ nextRef (final r) = S session.
Proof.
  intros Hv r session p. subst r session p.
  destruct (wss_on_connection_run ws username id w Hv)
    as (w' & -> & Hs & Hnew & Hother & Hdl & Hel & Hrest & Hnp & Hnr & _).
  cbn [result emitted final].
  split; [done|]. split; [done|]. split; [exact Hs|]. split; [exact Hnew|].
  split; [exact Hother|]. split; [exact Hdl|]. split; [exact Hel|].
  split; [exact Hrest|]. by split.
Qed.

Lemma connection_starts_fresh_session_witness :
  validateAndNormalizeUsername (VString (str "Alice")) = Ok alice ∧
  emitted (wss_on_connection 3 (Authenticated (str "Alice")) twoViewers) =
    [EvSend 1 (MsgExit 0); EvClose 1; EvSend 2 (MsgExit 0); EvClose 2; EvKill 0;
     EvSpawn 1 alice; EvSend 3 MsgConnected] ∧
  subscribers (heap (final (wss_on_connection 3 (Authenticated (str "Alice")) twoViewers)) 1)
    = [3%nat].
Proof.
  split; [reflexivity|].
  destruct (connection_starts_fresh_session 3 (str "Alice") alice twoViewers eq_refl)
    as (_ & Hev & _ & Hnew & _).
  split; [rewrite Hev; reflexivity|]. exact (f_equal subscribers Hnew).
Defined.

(** ** How long a session lives *)

Lemma get_filter {V} (P : JsString * V → Prop) `{!∀ e, Decision (P e)}
    (m : list (JsString * V)) (k : JsString) (v : V) :
  NoDup m.*1 → (k, v) ∈ m →
  JsMap.get k (filter P m) = if decide (P (k, v)) then Some v else None.
Proof.
  induction m as [|[k' v'] m IH]; [by intros _ []%elem_of_nil|].
  rewrite fmap_cons. cbn [fst].
  intros [Hk Hnd]%list.NoDup_cons [[= <- <-]|Hin]%elem_of_cons.
  - rewrite list.filter_cons. destruct (decide (P (k, v))).
    + cbn. by rewrite bool_decide_true.
    + apply get_None. intros ([k0 v0] & Hk0 & [_ Hin0]%list_elem_of_filter)%list_elem_of_fmap.
      cbn in Hk0. subst k0. apply Hk. apply list_elem_of_fmap. by exists (k, v0).
  - assert (Hne : k' ≠ k).
    { intros ->. apply Hk. apply list_elem_of_fmap. by exists (k, v). }
    rewrite list.filter_cons. destruct (decide (P (k', v'))).
    + cbn. rewrite bool_decide_false by done. by apply IH.
    + by apply IH.
Qed.

Lemma traffic_keeps_world (traffic : list Step) (w : World) :
  Forall (λ s, isTraffic s = true) traffic → after traffic w = w.
Proof.
  unfold after. induction traffic as [|s traffic IH]; [done|].
  intros [Hs Htraffic]%list.Forall_cons. cbn [foldl].
  rewrite (step_traffic s w Hs). by apply IH.
Qed.

(** X5. The idle time of a session counts from the moment its viewer connected,
    whatever was typed or printed in between. Whatever has happened before: a
    viewer connects, any amount of traffic follows, the viewer's socket
    closes. The session is still registered then, without a subscriber, and
    its last-activity time is the one read when the viewer was attached. The
    next sweep destroys it exactly when the time it reads exceeds that time
    by more than the timeout. *)
Theorem session_idle_since_connection
    (readings : nat → Z) (failing : PtyRef → bool) (steps : list Step)
    (ws : WsRef) (username id : JsString) (traffic : list Step) (timeoutMs : Z) :
  validateAndNormalizeUsername (VString username) = Ok id →
  Forall (λ s, isTraffic s = true) traffic →
  let w := after steps (initWorld readings failing) in
  let connected := final (wss_on_connection ws (Authenticated username) w) in
  let closed := final (ws_on_close ws (nextPty w) username (after traffic connected)) in
  let sweep := cleanupInactiveSessions timeoutMs closed in
  let attachedAt := time w (S (S (clock w))) in
  let sweptAt := time w (S (S (S (clock w)))) in
  JsMap.get id (sessions closed) = Some (nextRef w) ∧
  heap closed (nextRef w) = MkSession (nextPty w) (time w (clock w)) attachedAt [] ∧
  (timeoutMs < sweptAt - attachedAt →
     JsMap.get id (sessions (final sweep)) = None ∧ EvKill (nextPty w) ∈ emitted sweep) ∧
  (sweptAt - attachedAt ≤ timeoutMs →
     JsMap.get id (sessions (final sweep)) = Some (nextRef w)).
Proof.
  intros Hv Htraffic w connected closed sweep attachedAt sweptAt.
  assert (Hwf : registry_wf closed).
  { subst closed connected.
    apply (wf_step (Close ws (nextPty w) username)).
    apply after_preserves; [apply wf_step|].
    apply (wf_step (Connection ws (Authenticated username))).
    apply wf_reachable. }
  subst sweep. revert Hwf. subst closed connected.
  destruct (wss_on_connection_run ws username id w Hv)
    as (w1 & -> & Hs1 & Hnew1 & _ & _ & _ & _ & _ & _ & Htm1 & Hck1).
  cbn [final]. rewrite (traffic_keeps_world traffic w1 Htraffic).
  assert (Hclose : ∃ w2, final (ws_on_close ws (nextPty w) username w1) = w2 ∧
            sessions w2 = sessions w1 ∧ time w2 = time w1 ∧ clock w2 = clock w1 ∧
            heap w2 (nextRef w) = MkSession (nextPty w) (time w (clock w)) attachedAt []).
  { unfold ws_on_close, pty_removeListener_data. unfold bind, modify.
    set (w1' := set_dataListeners _ w1).
    assert (Hg1 : JsMap.get id (sessions w1') = Some (nextRef w)).
    { subst w1'. destruct w1. fields. rewrite Hs1.
      rewrite <- (set_absent _ _ _ (get_delete_eq _ id)). apply get_set_eq. }
    assert (Hsubs1 : subscribers (heap w1' (nextRef w)) = [] ++ ws :: []).
    { subst w1'. destruct w1. fields. by rewrite Hnew1. }
    destruct (detachFromSession_first username id (nextRef w) ws [] [] w1' Hv Hg1 Hsubs1)
      as (w2 & -> & Hsame2 & Hck2 & Hnew2 & _); [by intros []%elem_of_nil|].
    exists w2. cbn [final]. split; [done|].
    destruct Hsame2 as (Hs2 & _ & _ & _ & _ & _ & _ & Htm2).
    rewrite Hs2, Htm2, Hck2, Hnew2. subst w1'. destruct w1. fields.
    by rewrite Hnew1. }
  destruct Hclose as (w2 & -> & Hs2 & Htm2 & Hck2 & Hheap2).
  intros [Hkeys _].
  assert (Hg2 : JsMap.get id (sessions w2) = Some (nextRef w)).
  { rewrite Hs2, Hs1. rewrite <- (set_absent _ _ _ (get_delete_eq _ id)). apply get_set_eq. }
  assert (Hnow : time w2 (clock w2) = sweptAt) by (by rewrite Htm2, Hck2, Htm1, Hck1).
  split; [done|]. split; [done|].
  destruct (cleanupInactiveSessions_run timeoutMs w2 Hkeys) as (_ & -> & _ & _ & ->).
  rewrite Hnow.
  destruct Hkeys as [Hnd _]. pose proof (get_Some_elem _ _ _ Hg2) as Hin.
  assert (Hidle : idle (heap w2) sweptAt timeoutMs (id, nextRef w) ↔
                  timeoutMs < sweptAt - attachedAt).
  { unfold idle. cbn [snd]. rewrite Hheap2. cbn [subscribers lastActivity]. tauto. }
  split.
  - intros Hlate. split.
    + rewrite (get_filter _ _ _ _ Hnd Hin). rewrite decide_False; [done|].
      intros Hn. apply Hn. by apply Hidle.
    + apply list_elem_of_fmap. exists (id, nextRef w). cbn [snd].
      split; [by rewrite Hheap2|]. apply list_elem_of_filter. split; [|done].
      by apply Hidle.
  - intros Hearly. rewrite (get_filter _ _ _ _ Hnd Hin). rewrite decide_True; [done|].
    intros Hi%Hidle. lia.
Qed.

Lemma session_idle_since_connection_witness :
  let traffic := [Message 1 0 alice (Some (inputMessage (str "ls")));
                  ProcessData 0 (str "a.txt")] in
  let w := after [] (initWorld (λ n, 1700000000000 + 1000 * Z.of_nat n) (λ _, false)) in
  let connected := final (wss_on_connection 1 (Authenticated alice) w) in
  let closed := final (ws_on_close 1 (nextPty w) alice (after traffic connected)) in
  validateAndNormalizeUsername (VString alice) = Ok alice ∧
  Forall (λ s, isTraffic s = true) traffic ∧
  JsMap.get alice (sessions (final (cleanupInactiveSessions 500 closed))) = None.
Proof.
  intros traffic w connected closed.
  assert (Ht : Forall (λ s, isTraffic s = true) traffic) by (by repeat constructor).
  split; [reflexivity|]. split; [exact Ht|].
  pose proof (session_idle_since_connection
                (λ n, 1700000000000 + 1000 * Z.of_nat n) (λ _, false) []
                1 alice alice traffic 500 eq_refl Ht) as H.
  cbv zeta in H. fold w in H. fold connected in H. fold closed in H.
  destruct H as (_ & _ & Hswept & _).
  destruct Hswept as [Hgone _]; [vm_compute; reflexivity|]. exact Hgone.
Defined.

(** ** Matching by derivatives *)

Section RegExps.
Implicit Types (r : RegExp) (s : JsString) (c : N).

Lemma matches_none_inv s : ¬ matches ReNone s.
Proof. intros H. inversion H. Qed.

Lemma matches_empty_inv s : matches ReEmpty s → s = [].
Proof. intros H. by inversion H. Qed.

Lemma matches_class_inv (units : N → bool) s :
  matches (ReClass units) s → ∃ c, s = [c] ∧ units c = true.
Proof. intros H. inversion H; subst. by eexists. Qed.

Lemma matches_seq_inv r1 r2 s :
  matches (ReSeq r1 r2) s → ∃ a b, s = a ++ b ∧ matches r1 a ∧ matches r2 b.
Proof. intros H. inversion H; subst. by eexists _, _. Qed.

Lemma matches_alt_inv r1 r2 s : matches (ReAlt r1 r2) s → matches r1 s ∨ matches r2 s.
Proof. intros H. inversion H; subst; auto. Qed.

Lemma nullable_spec r : nullable r = true ↔ matches r [].
Proof.
  induction r as [| |units|r1 IH1 r2 IH2|r1 IH1 r2 IH2|r IH]; cbn.
  - split; [done|]. by intros ?%matches_none_inv.
  - split; [constructor|done].
  - split; [done|]. by intros (c & ? & _)%matches_class_inv.
  - rewrite andb_true_iff, IH1, IH2. split.
    + intros [H1 H2]. by apply (matches_seq r1 r2 [] []).
    + intros (a & b & Heq & Ha & Hb)%matches_seq_inv.
      symmetry in Heq. apply app_eq_nil in Heq as [-> ->]. done.
  - rewrite orb_true_iff, IH1, IH2. split.
    + intros [H|H]; [by apply matches_alt_l|by apply matches_alt_r].
    + apply matches_alt_inv.
  - split; [constructor|done].
Qed.

Lemma matches_star_cons_inv r c s :
  matches (ReStar r) (c :: s) →
  ∃ a b, s = a ++ b ∧ matches r (c :: a) ∧ matches (ReStar r) b.
Proof.
  intros H. remember (ReStar r) as r' eqn:Hr. remember (c :: s) as s' eqn:Hs.
  revert s Hs. induction H as [| | | | | |r0 a b Ha _ Hb IH]; intros t Ht; try discriminate.
  injection Hr as ->. destruct a as [|c' a].
  - cbn in Ht. by apply IH.
  - injection Ht as -> <-. by exists a, b.
Qed.

Lemma derive_spec c r s : matches (derive c r) s ↔ matches r (c :: s).
Proof.
  revert s. induction r as [| |units|r1 IH1 r2 IH2|r1 IH1 r2 IH2|r IH]; intros s; cbn.
  - split; by intros ?%matches_none_inv.
  - split; [by intros ?%matches_none_inv|by intros ?%matches_empty_inv].
  - destruct (units c) eqn:Hc.
    + split.
      * intros ->%matches_empty_inv. by constructor.
      * intros (c' & [= <- ->] & _)%matches_class_inv. constructor.
    + split; [by intros ?%matches_none_inv|].
      intros (c' & [= <- ->] & ?)%matches_class_inv. congruence.
  - assert (Hleft : ∀ a b, matches (derive c r1) a → matches r2 b →
                           matches (ReSeq r1 r2) (c :: a ++ b)).
    { intros a b Ha Hb. apply (matches_seq r1 r2 (c :: a) b); [by apply IH1|done]. }
    assert (Hinv : matches (ReSeq r1 r2) (c :: s) →
      (∃ a b, s = a ++ b ∧ matches (derive c r1) a ∧ matches r2 b) ∨
      (matches r1 [] ∧ matches (derive c r2) s)).
    { intros ([|c' a] & b & Heq & Ha & Hb)%matches_seq_inv.
      - right. cbn in Heq. subst b. split; [done|by apply IH2].
      - left. injection Heq as <- ->. exists a, b. split; [done|]. split; [by apply IH1|done]. }
    destruct (nullable r1) eqn:Hn.
    + split.
      * intros [(a & b & -> & Ha & Hb)%matches_seq_inv|H2]%matches_alt_inv.
        -- by apply Hleft.
        -- apply (matches_seq r1 r2 [] (c :: s)); [by apply nullable_spec|by apply IH2].
      * intros [(a & b & -> & Ha & Hb)|[_ H2]]%Hinv.
        -- apply matches_alt_l. by constructor.
        -- by apply matches_alt_r.
    + split.
      * intros (a & b & -> & Ha & Hb)%matches_seq_inv. by apply Hleft.
      * intros [(a & b & -> & Ha & Hb)|[H1 _]]%Hinv; [by constructor|].
        apply nullable_spec in H1. congruence.
  - split.
    + intros [H|H]%matches_alt_inv;
        [apply matches_alt_l; by apply IH1|apply matches_alt_r; by apply IH2].
    + intros [H|H]%matches_alt_inv;
        [apply matches_alt_l; by apply IH1|apply matches_alt_r; by apply IH2].
  - split.
    + intros (a & b & -> & Ha & Hb)%matches_seq_inv.
      apply (matches_star_cons r (c :: a) b); [by apply IH|done].
    + intros (a & b & -> & Ha & Hb)%matches_star_cons_inv.
      constructor; [by apply IH|done].
Qed.

(** The derivative matcher decides the language of the pattern. *)
Lemma RegExp_test_spec r s : RegExp_test r s = true ↔ matches r s.
Proof.
  unfold RegExp_test. revert r. induction s as [|c s IH]; intros r; cbn [foldl].
  - apply nullable_spec.
  - rewrite IH. apply derive_spec.
Qed.

Lemma matches_star_class (units : N → bool) s :
  matches (ReStar (ReClass units)) s ↔ Forall (λ c, units c = true) s.
Proof.
  split.
  - intros H. remember (ReStar (ReClass units)) as r eqn:Hr.
    induction H as [| | | | | |r0 a b Ha _ Hb IH]; try discriminate; [constructor|].
    injection Hr as ->. apply list.Forall_app. split; [|by apply IH].
    apply matches_class_inv in Ha as (c & -> & Hc). by repeat constructor.
  - induction 1 as [|c s Hc _ IH]; [constructor|].
    apply (matches_star_cons _ [c] s); [by constructor|done].
Qed.

End RegExps.

(** ** What the checks of config.ts accept *)

Section Hostnames.
Implicit Types (s : JsString) (c : N).

Lemma alnum_cases c :
  isAlnum c = true ↔ (97 ≤ c ≤ 122 ∨ 65 ≤ c ≤ 90 ∨ 48 ≤ c ≤ 57)%N.
Proof.
  unfold isAlnum. rewrite !orb_true_iff, !andb_true_iff, !N.leb_le. tauto.
Qed.

Lemma alnum_hostname_unit c : isAlnum c = true → isHostnameUnit c = true.
Proof. unfold isHostnameUnit. by intros ->. Qed.

Lemma alnum_not_whitespace c : isAlnum c = true → Js.isWhiteSpace c = false.
Proof.
  intros H%alnum_cases. apply not_true_is_false. unfold Js.isWhiteSpace.
  rewrite !orb_true_iff, !andb_true_iff, !N.leb_le, !N.eqb_eq. lia.
Qed.

(** The strings of the hostname pattern: units of the class only, an
    alphanumeric one first and last. *)
Lemma hostname_matches s :
  matches hostnameRegex s ↔
  Forall (λ c, isHostnameUnit c = true) s ∧
  (∃ c, list.head s = Some c ∧ isAlnum c = true) ∧
  (∃ c, list.last s = Some c ∧ isAlnum c = true).
Proof.
  unfold hostnameRegex, ReOpt. split.
  - intros (a & b & -> & (c & -> & Hc)%matches_class_inv & Hb)%matches_seq_inv.
    apply matches_alt_inv in Hb as [Hb| ->%matches_empty_inv].
    + apply matches_seq_inv in Hb as (mid & l' & -> & Hmid & Hl).
      apply matches_star_class in Hmid.
      apply matches_class_inv in Hl as (l & -> & Hl).
      split; [|split].
      * apply list.Forall_cons. split; [by apply alnum_hostname_unit|].
        apply list.Forall_app. split; [done|].
        apply list.Forall_cons. split; [by apply alnum_hostname_unit|constructor].
      * by exists c.
      * exists l. split; [|done].
        change ([c] ++ mid ++ [l]) with ((c :: mid) ++ [l]). apply last_snoc.
    + split; [|split].
      * apply list.Forall_cons. split; [by apply alnum_hostname_unit|constructor].
      * by exists c.
      * by exists c.
  - intros (Hall & (c & Hhead & Hc) & (l & Hlast & Hl)).
    destruct s as [|c' rest]; [done|]. injection Hhead as ->.
    apply (matches_seq _ _ [c] rest); [by constructor|].
    destruct rest as [|x rest _] using rev_ind; [apply matches_alt_r; constructor|].
    apply matches_alt_l.
    change (c :: rest ++ [x]) with ((c :: rest) ++ [x]) in Hlast.
    rewrite last_snoc in Hlast. injection Hlast as ->.
    apply matches_seq; [|by constructor].
    apply matches_star_class.
    apply list.Forall_cons in Hall as [_ Hall].
    by apply list.Forall_app in Hall as [Hall _].
Qed.

(** A string that starts and ends with something else than white space is
    left alone by [trim]. *)
Lemma trim_id s (first l : N) :
  list.head s = Some first → Js.isWhiteSpace first = false →
  list.last s = Some l → Js.isWhiteSpace l = false →
  Js.trim s = s.
Proof.
  intros Hhead Hfirst Hlast Hl. unfold Js.trim, Js.trimEnd.
  assert (Hstart : Js.trimStart s = s).
  { destruct s as [|c s]; [done|]. injection Hhead as ->. cbn. by rewrite Hfirst. }
  rewrite Hstart.
  destruct s as [|x rest _] using rev_ind; [done|].
  rewrite last_snoc in Hlast. injection Hlast as ->.
  rewrite reverse_snoc. cbn [Js.trimStart]. rewrite Hl.
  by rewrite <- reverse_snoc, reverse_involutive.
Qed.

Lemma for_of_ok {A} (xs : list A) (body : A → Result unit) :
  Forall (λ x, body x = Ok tt) xs → for_of xs body = Ok tt.
Proof. induction 1 as [|x xs Hx _ IH]; [done|]. cbn. by rewrite Hx. Qed.

(** None of the characters the loop looks for is in the class of the
    pattern. *)
Lemma dangerousChars_outside :
  Forall (λ char, ∃ d, char = [d] ∧ isHostnameUnit d = false) dangerousChars.
Proof. unfold dangerousChars. repeat constructor; by eexists. Qed.

Lemma dangerousChars_absent s :
  Forall (λ c, isHostnameUnit c = true) s →
  Forall (λ char, Js.includes char s = false) dangerousChars.
Proof.
  intros Hall. eapply list.Forall_impl; [apply dangerousChars_outside|].
  intros char (d & -> & Hd). apply includes_unit_false. intros Hin.
  rewrite list.Forall_forall in Hall. specialize (Hall d Hin). congruence.
Qed.

End Hostnames.

Lemma validateHostname_run (s : JsString) :
  validateHostname (VString s) =
  let trimmed := Js.trim s in
  if bool_decide (length trimmed = 0%nat) then Throw "Hostname cannot be empty"
  else if (253 <? length trimmed)%nat then Throw "Hostname too long"
  else if RegExp_test hostnameRegex trimmed then Ok trimmed
  else Throw "Invalid hostname format".
Proof.
  unfold validateHostname. cbv zeta.
  case_bool_decide; [done|]. destruct (253 <? _)%nat; [done|].
  destruct (RegExp_test hostnameRegex (Js.trim s)) eqn:Hre; [|done]. cbn [negb].
  apply RegExp_test_spec, hostname_matches in Hre as (Hall & _).
  rewrite for_of_ok; [done|].
  eapply list.Forall_impl; [by apply dangerousChars_absent|].
  intros char Hc. cbn. by rewrite Hc.
Qed.

Lemma validateHostname_ok (v : JsValue) (h : JsString) :
  validateHostname v = Ok h ↔
  ∃ s, v = VString s ∧ h = Js.trim s ∧ (1 ≤ length h ≤ 253)%nat ∧
       Forall (λ c, isHostnameUnit c = true) h ∧
       (∃ c, list.head h = Some c ∧ isAlnum c = true) ∧
       (∃ c, list.last h = Some c ∧ isAlnum c = true).
Proof.
  split.
  - destruct v as [| | | |s|]; try discriminate. rewrite validateHostname_run. cbv zeta.
    case_bool_decide as Hlen; [discriminate|].
    destruct (Nat.ltb_spec 253 (length (Js.trim s))); [discriminate|].
    destruct (RegExp_test hostnameRegex (Js.trim s)) eqn:Hre; [|discriminate].
    intros [= <-]. exists s. split; [done|]. split; [done|]. split; [lia|].
    by apply hostname_matches, RegExp_test_spec.
  - intros (s & -> & -> & [Hmin Hmax] & Hshape). rewrite validateHostname_run. cbv zeta.
    rewrite bool_decide_false by lia.
    destruct (Nat.ltb_spec 253 (length (Js.trim s))); [lia|].
    by rewrite (proj2 (RegExp_test_spec _ _) (proj2 (hostname_matches _) Hshape)).
Qed.

(** X20. A hostname is accepted exactly when its trimmed form has 1 to 253
    units, all of them letters, digits, '-', '_' or '.', the first and the
    last a letter or a digit; the trimmed form comes back, and validates to
    itself. None of the characters of the loop that follows the pattern can
    occur in what the pattern has let through: no input makes the function
    throw "Hostname contains invalid characters". *)
Theorem validateHostname_accepts (v : JsValue) (h : JsString) :
  (validateHostname v = Ok h ↔
     ∃ s, v = VString s ∧ h = Js.trim s ∧ (1 ≤ length h ≤ 253)%nat ∧
          Forall (λ c, isHostnameUnit c = true) h ∧
          (∃ c, list.head h = Some c ∧ isAlnum c = true) ∧
          (∃ c, list.last h = Some c ∧ isAlnum c = true)) ∧
  (validateHostname v = Ok h →
     validateHostname (VString h) = Ok h ∧
     Forall (λ char, Js.includes char h = false) dangerousChars) ∧
  validateHostname v ≠ Throw "Hostname contains invalid characters".
Proof.
  split; [apply validateHostname_ok|]. split.
  - intros (s & -> & -> & Hlen & Hall & (c & Hhead & Hc) & (l & Hlast & Hl))%validateHostname_ok.
    split; [|by apply dangerousChars_absent].
    set (h := Js.trim s) in *.
    assert (Htrim : Js.trim h = h)
      by (apply (trim_id h c l); auto using alnum_not_whitespace).
    apply validateHostname_ok. exists h. rewrite Htrim. split; [done|]. split; [done|].
    split; [done|]. split; [done|]. split; [by exists c|by exists l].
  - destruct v as [| | | |s|]; try discriminate. rewrite validateHostname_run. cbv zeta.
    case_bool_decide; [discriminate|]. destruct (253 <? _)%nat; [discriminate|].
    by destruct (RegExp_test hostnameRegex (Js.trim s)).
Qed.

Example hostname_examples :
  validateHostname (VString (str " chat.example.org ")) = Ok (str "chat.example.org") ∧
  validateHostname (VString (str "a")) = Ok (str "a") ∧
  validateHostname (VString (str "-a")) = Throw "Invalid hostname format" ∧
  validateHostname (VString (str "a.")) = Throw "Invalid hostname format" ∧
  validateHostname (VString (str "localhost:3000")) = Throw "Invalid hostname format" ∧
  validateHostname (VString (str "a;b")) = Throw "Invalid hostname format".
Proof. repeat split; reflexivity. Qed.

Section ParseInt.
Implicit Types (s pad digits junk : JsString) (c : N) (v : JsValue).

Lemma trimStart_pad pad s :
  Forall (λ c, Js.isWhiteSpace c = true) pad → Js.trimStart (pad ++ s) = Js.trimStart s.
Proof. induction 1 as [|c pad Hc _ IH]; [done|]. cbn. by rewrite Hc. Qed.

Lemma digit_cases c : isDigit c = true ↔ (48 ≤ c ≤ 57)%N.
Proof. unfold isDigit. by rewrite andb_true_iff, !N.leb_le. Qed.

Lemma digit_not_whitespace c : isDigit c = true → Js.isWhiteSpace c = false.
Proof.
  intros H%digit_cases. apply not_true_is_false. unfold Js.isWhiteSpace.
  rewrite !orb_true_iff, !andb_true_iff, !N.leb_le, !N.eqb_eq. lia.
Qed.

Lemma digitsPrefix_app digits junk :
  Forall (λ c, isDigit c = true) digits →
  (∀ c, list.head junk = Some c → isDigit c = false) →
  digitsPrefix (digits ++ junk) = digits.
Proof.
  intros Hd Hj. induction Hd as [|c digits Hc _ IH]; cbn.
  - destruct junk as [|c junk]; [done|]. cbn. by rewrite (Hj c).
  - by rewrite Hc, IH.
Qed.

(** [parseInt] of decimal digits between white space and anything that does
    not start with a digit. *)
Lemma parseInt10_digits pad digits junk :
  Forall (λ c, Js.isWhiteSpace c = true) pad →
  digits ≠ [] →
  Forall (λ c, isDigit c = true) digits →
  (∀ c, list.head junk = Some c → isDigit c = false) →
  digitsValue digits < infinityFrom →
  parseInt10 (pad ++ digits ++ junk) = NumInt (digitsValue digits).
Proof.
  intros Hpad Hne Hd Hj Hfin. unfold parseInt10. rewrite (trimStart_pad _ _ Hpad).
  destruct digits as [|c digits]; [done|].
  apply list.Forall_cons in Hd as [Hc Hd].
  assert (Hstart : Js.trimStart ((c :: digits) ++ junk) = (c :: digits) ++ junk).
  { cbn. by rewrite (digit_not_whitespace c Hc). }
  rewrite Hstart. cbn [app]. cbv zeta.
  apply digit_cases in Hc as Hrange.
  destruct (N.eqb_spec c 43); [lia|]. destruct (N.eqb_spec c 45); [lia|]. cbn [orb].
  change (c :: digits ++ junk) with ((c :: digits) ++ junk).
  rewrite digitsPrefix_app by (done || by apply list.Forall_cons).
  rewrite bool_decide_false by done.
  destruct (Z.leb_spec infinityFrom (digitsValue (c :: digits))); [lia|done].
Qed.

(** [!Number.isInteger(v) || v < low || v > high] *)
Lemma integer_range_check v (low high : Z) :
  negb (Number_isInteger v) || num_lt v low || num_gt v high = false ↔
  ∃ z, v = VNumber (NumInt z) ∧ low ≤ z ≤ high.
Proof.
  split.
  - destruct v as [| | |[z| | |]| |]; cbn; try discriminate.
    intros H. exists z. split; [done|].
    apply orb_false_iff in H as [Hlt Hgt].
    apply Z.ltb_ge in Hlt. rewrite Z.gtb_ltb in Hgt. apply Z.ltb_ge in Hgt. lia.
  - intros (z & -> & Hz). cbn. apply orb_false_iff. split.
    + apply Z.ltb_ge. lia.
    + rewrite Z.gtb_ltb. apply Z.ltb_ge. lia.
Qed.

Lemma infinityFrom_large : 86400000 < infinityFrom.
Proof. by vm_compute. Qed.

End ParseInt.

Lemma validatePort_ok (port n : JsValue) :
  validatePort port = Ok n ↔
  toNumberOrParse port = n ∧ ∃ z, n = VNumber (NumInt z) ∧ 1 ≤ z ≤ 65535.
Proof.
  unfold validatePort. cbv zeta.
  pose proof (integer_range_check (toNumberOrParse port) 1 65535) as Hcheck.
  destruct (negb _ || _ || _).
  - split; [done|]. intros [<- Hz]. by apply Hcheck in Hz.
  - split.
    + intros [= <-]. split; [done|]. by apply Hcheck.
    + by intros [<- _].
Qed.

Lemma validateTimeout_ok (timeout n : JsValue) :
  validateTimeout timeout = Ok n ↔
  toNumberOrParse timeout = n ∧ ∃ z, n = VNumber (NumInt z) ∧ 1000 ≤ z ≤ 86400000.
Proof.
  unfold validateTimeout. cbv zeta.
  pose proof (integer_range_check (toNumberOrParse timeout) 1000 86400000) as Hcheck.
  destruct (negb _ || _ || _).
  - split; [done|]. intros [<- Hz]. by apply Hcheck in Hz.
  - split.
    + intros [= <-]. split; [done|]. by apply Hcheck.
    + by intros [<- _].
Qed.

(** X21. A port is accepted exactly when it is, or as a string parses to, an
    integer from 1 to 65535, which is what comes back. A string is read the
    way [parseInt] reads it: white space in front is skipped and whatever
    follows the digits is ignored, so that "8080/tcp" is the port 8080. *)
Theorem validatePort_accepts (port : JsValue) :
  (∀ n, validatePort port = Ok n ↔
        toNumberOrParse port = n ∧ ∃ z, n = VNumber (NumInt z) ∧ 1 ≤ z ≤ 65535) ∧
  (∀ pad digits junk,
     port = VString (pad ++ digits ++ junk) →
     Forall (λ c, Js.isWhiteSpace c = true) pad →
     digits ≠ [] → Forall (λ c, isDigit c = true) digits →
     (∀ c, list.head junk = Some c → isDigit c = false) →
     1 ≤ digitsValue digits ≤ 65535 →
     validatePort port = Ok (VNumber (NumInt (digitsValue digits)))).
Proof.
  split; [intros n; apply validatePort_ok|].
  intros pad digits junk -> Hpad Hne Hd Hj Hrange. apply validatePort_ok.
  cbn [toNumberOrParse]. pose proof infinityFrom_large.
  rewrite parseInt10_digits by (done || lia). split; [done|]. by eexists.
Qed.

(** X22. A session timeout is accepted exactly when it is, or as a string parses
    to, an integer from 1000 to 86400000 milliseconds, which is what comes
    back; a string is read the way [parseInt] reads it. *)
Theorem validateTimeout_accepts (timeout : JsValue) :
  (∀ n, validateTimeout timeout = Ok n ↔
        toNumberOrParse timeout = n ∧
        ∃ z, n = VNumber (NumInt z) ∧ 1000 ≤ z ≤ 86400000) ∧
  (∀ pad digits junk,
     timeout = VString (pad ++ digits ++ junk) →
     Forall (λ c, Js.isWhiteSpace c = true) pad →
     digits ≠ [] → Forall (λ c, isDigit c = true) digits →
     (∀ c, list.head junk = Some c → isDigit c = false) →
     1000 ≤ digitsValue digits ≤ 86400000 →
     validateTimeout timeout = Ok (VNumber (NumInt (digitsValue digits)))).
Proof.
  split; [intros n; apply validateTimeout_ok|].
  intros pad digits junk -> Hpad Hne Hd Hj Hrange. apply validateTimeout_ok.
  cbn [toNumberOrParse]. pose proof infinityFrom_large.
  rewrite parseInt10_digits by (done || lia). split; [done|]. by eexists.
Qed.

Example port_examples :
  validatePort (VString (str "3000")) = Ok (VNumber (NumInt 3000)) ∧
  validatePort (VString (str " 8080/tcp")) = Ok (VNumber (NumInt 8080)) ∧
  validatePort (VString (str "+80")) = Ok (VNumber (NumInt 80)) ∧
  validatePort (VString (str "1e3")) = Ok (VNumber (NumInt 1)) ∧
  validatePort (VString (str "0x50")) = Throw "Port must be between 1 and 65535" ∧
  validatePort (VString (str "-80")) = Throw "Port must be between 1 and 65535" ∧
  validatePort (VString (str "http")) = Throw "Port must be between 1 and 65535" ∧
  validatePort (VNumber NumFrac) = Throw "Port must be between 1 and 65535" ∧
  validatePort (VBool true) = Throw "Port must be between 1 and 65535".
Proof. repeat split; reflexivity. Qed.

Lemma validateProtocol_ok (v : JsValue) (p : JsString) :
  validateProtocol v = Ok p ↔
  ∃ s, v = VString s ∧ p = Js.toLowerCase (Js.trim s) ∧ (p = str "ws" ∨ p = str "wss").
Proof.
  split.
  - destruct v as [| | | |s|]; try discriminate. unfold validateProtocol. cbv zeta.
    case_bool_decide as Hws; case_bool_decide as Hwss; cbn [andb]; try discriminate;
      intros [= <-]; exists s; split; try done; split; try done.
    + right. by destruct (decide (Js.toLowerCase (Js.trim s) = str "wss")).
    + left. by destruct (decide (Js.toLowerCase (Js.trim s) = str "ws")).
    + left. by destruct (decide (Js.toLowerCase (Js.trim s) = str "ws")).
  - intros (s & -> & -> & Hp). unfold validateProtocol. cbv zeta.
    destruct Hp as [Hp|Hp]; rewrite Hp; reflexivity.
Qed.

(** X23. The server starts only with a configuration within bounds: if the
    configuration object gets built, its port is an integer from 1 to 65535,
    its session timeout an integer from 1000 to 86400000, its protocol "ws"
    or "wss", and its host made of letters, digits, '-', '_' and '.' only,
    so that the endpoint the credentials are checked against is the
    protocol, "://", that host and "/api/ws". A variable that is unset or
    empty stands for its default, and the defaults are accepted. *)
Theorem loadConfig_within_bounds (env : Env) :
  (∀ config, loadConfig env = Ok config →
     (∃ port, PORT config = VNumber (NumInt port) ∧ 1 ≤ port ≤ 65535) ∧
     (∃ timeout, SESSION_TIMEOUT_MS config = VNumber (NumInt timeout) ∧
                 1000 ≤ timeout ≤ 86400000) ∧
     (SKYCHAT_PROTOCOL config = str "ws" ∨ SKYCHAT_PROTOCOL config = str "wss") ∧
     (1 ≤ length (SKYCHAT_HOST config) ≤ 253)%nat ∧
     Forall (λ c, isHostnameUnit c = true) (SKYCHAT_HOST config) ∧
     (getEndPointUrl (SKYCHAT_PROTOCOL config) (SKYCHAT_HOST config) =
        str "ws://" ++ SKYCHAT_HOST config ++ str "/api/ws" ∨
      getEndPointUrl (SKYCHAT_PROTOCOL config) (SKYCHAT_HOST config) =
        str "wss://" ++ SKYCHAT_HOST config ++ str "/api/ws")) ∧
  (truthy (env_PORT env) = false → truthy (env_NODE_ENV env) = false →
   truthy (env_SKYCHAT_HOST env) = false → truthy (env_SKYCHAT_PROTOCOL env) = false →
   truthy (env_SESSION_TIMEOUT_MS env) = false →
   loadConfig env =
     Ok (MkConfig (VNumber (NumInt 3000)) (VString (str "development"))
           (str "localhost") (str "wss") (VNumber (NumInt 7200000)))).
Proof.
  split.
  - intros config. unfold loadConfig, bindR.
    destruct (validatePort _) as [port|] eqn:Hport; [|discriminate].
    destruct (validateHostname _) as [host|] eqn:Hhost; [|discriminate].
    destruct (validateProtocol _) as [protocol|] eqn:Hprotocol; [|discriminate].
    destruct (validateTimeout _) as [timeout|] eqn:Htimeout; [|discriminate].
    intros [= <-]. cbn [PORT SESSION_TIMEOUT_MS SKYCHAT_PROTOCOL SKYCHAT_HOST].
    apply validatePort_ok in Hport as (_ & Hport).
    apply validateTimeout_ok in Htimeout as (_ & Htimeout).
    apply validateProtocol_ok in Hprotocol as (_ & _ & _ & Hprotocol).
    apply validateHostname_ok in Hhost as (_ & _ & _ & Hlen & Hall & _).
    split; [done|]. split; [done|]. split; [done|]. split; [done|]. split; [done|].
    unfold getEndPointUrl. destruct Hprotocol as [-> | ->]; [by left|by right].
  - intros Ha Hb Hc Hd He. unfold loadConfig, js_or.
    rewrite Ha, Hb, Hc, Hd, He. reflexivity.
Qed.

(** ** Shutting down *)

Section Shutdown.
Implicit Types (w : World) (rs : WsRef → ReadyState) (l : list WsRef)
  (ss : list (JsString * SessRef)) (h : SessRef → PtySession).

Lemma closeAll_app l1 l2 rs : closeAll (l1 ++ l2) rs = closeAll l2 (closeAll l1 rs).
Proof.
  revert rs. induction l1 as [|ws l1 IH]; intros rs; [done|]. cbn.
  by destruct (readyStateCode (rs ws) =? 1).
Qed.

Lemma exitNotices_app (code : Z) l1 l2 rs :
  exitNotices code (l1 ++ l2) rs =
  exitNotices code l1 rs ++ exitNotices code l2 (closeAll l1 rs).
Proof.
  revert rs. induction l1 as [|ws l1 IH]; intros rs; [done|]. cbn.
  destruct (readyStateCode (rs ws) =? 1); [|done]. cbn. by rewrite IH.
Qed.

Lemma kills_app (a b : list Event) : kills (a ++ b) = kills a ++ kills b.
Proof. unfold kills. apply omap_app. Qed.

Lemma kills_exitNotices (code : Z) l rs : kills (exitNotices code l rs) = [].
Proof.
  revert rs. induction l as [|ws l IH]; intros rs; [done|]. cbn.
  destruct (readyStateCode (rs ws) =? 1); [|done]. cbn. apply IH.
Qed.

Lemma kills_shutdownEvents h ss rs :
  kills (shutdownEvents h ss rs) = (λ e, pty (h e.2)) <$> ss.
Proof.
  revert rs. induction ss as [|e ss IH]; intros rs; [done|].
  cbn [shutdownEvents]. rewrite kills_app, kills_exitNotices. cbn. by rewrite IH.
Qed.

Lemma exitCount_shutdownEvents h ss rs (ws : WsRef) :
  exitCount ws (shutdownEvents h ss rs) =
  exitCount ws (exitNotices 0 (ss ≫= λ e, subscribers (h e.2)) rs).
Proof.
  revert rs. induction ss as [|e ss IH]; intros rs; [done|].
  cbn [shutdownEvents]. rewrite bind_cons, exitNotices_app, !exitCount_app.
  rewrite exitCount_cons_other by done. by rewrite IH.
Qed.

Lemma sends_shutdownEvents h ss rs (ws : WsRef) (m : ServerMessage) :
  EvSend ws m ∈ shutdownEvents h ss rs → m = MsgExit 0.
Proof.
  revert rs. induction ss as [|e ss IH]; intros rs; [by intros []%elem_of_nil|].
  cbn [shutdownEvents]. intros [Hin|[[=]|Hin]%elem_of_cons]%elem_of_app.
  - by apply elem_of_exitNotices in Hin as (ws' & _ & _ & [[= _ ->]|[=]]).
  - by apply IH in Hin.
Qed.

(** The loop of [shutdownAll] over the keys of a registry whose keys are
    distinct normalized usernames. *)
Lemma shutdownLoop_run ss w :
  sessions w = ss → NoDup ss.*1 →
  Forall (λ e, validateAndNormalizeUsername (VString e.1) = Ok e.1) ss →
  forEach ss.*1 (λ username,
    present ← gets (λ w, JsMap.has username (sessions w));
    if present then cleanupSession username else ret tt) w =
  MkRun (Ok tt)
    (set_sessions (λ _, [])
       (set_readyState (closeAll (ss ≫= λ e, subscribers (heap w e.2))) w))
    (shutdownEvents (heap w) ss (readyState w)).
Proof.
  revert w. induction ss as [|[k r] ss IH]; intros w Hs Hnd Hkeys.
  - cbn. unfold ret. destruct w. fields. by rewrite Hs.
  - rewrite fmap_cons in Hnd. apply list.NoDup_cons in Hnd as [Hk Hnd].
    apply list.Forall_cons in Hkeys as [Hkv Hkeys]. cbn [fst] in Hkv, Hk.
    assert (Hg : JsMap.get k (sessions w) = Some r).
    { rewrite Hs. cbn. by rewrite bool_decide_true. }
    assert (Hhas : JsMap.has k (sessions w) = true) by (unfold JsMap.has; by rewrite Hg).
    rewrite fmap_cons. cbn [forEach fst]. unfold bind at 1. unfold bind at 1.
    unfold gets at 1. rewrite Hhas.
    rewrite (cleanupSession_present k k r w Hkv Hg).
    set (w1 := set_sessions _ _).
    assert (Hs1 : sessions w1 = ss).
    { subst w1. destruct w. fields. rewrite Hs. unfold JsMap.delete.
      rewrite list.filter_cons. rewrite decide_False by (cbn; tauto).
      by apply delete_absent. }
    rewrite (IH w1 Hs1 Hnd Hkeys). cbn [app].
    subst w1. destruct w. fields. rewrite bind_cons, closeAll_app. cbn [snd].
    by rewrite <- app_assoc.
Qed.

Lemma shutdownAll_run w :
  keys_normalized w →
  shutdownAll w =
  MkRun (Ok tt)
    (set_sessions (λ _, []) (set_readyState (closeAll (allSubscribers w)) w))
    (shutdownEvents (heap w) (sessions w) (readyState w)).
Proof.
  intros [Hnd Hkeys]. unfold shutdownAll. unfold bind at 1. unfold gets at 1.
  unfold JsMap.keys. by rewrite (shutdownLoop_run (sessions w) w eq_refl Hnd Hkeys).
Qed.

Lemma spawns_shutdownEvents h ss rs : spawns (shutdownEvents h ss rs) = [].
Proof.
  revert rs. induction ss as [|e ss IH]; intros rs; [done|].
  cbn [shutdownEvents]. unfold spawns in *. rewrite omap_app. cbn. rewrite IH.
  rewrite app_nil_r. clear IH. revert rs.
  induction (subscribers (h e.2)) as [|x l IHl]; intros rs; [done|]. cbn.
  destruct (readyStateCode (rs x) =? 1); [cbn|]; apply IHl.
Qed.

End Shutdown.

(** X10. Whatever has happened since the server started, [shutdownAll] returns
    normally and leaves the registry empty. It calls [kill] once on the
    process of every registered session, in the order of registration, and
    nothing else on any process. Every viewer attached to some session whose
    socket was open gets one exit message, all others none; every message it
    sends is an exit with code 0; and no attached viewer's socket is open
    afterwards. *)
Theorem shutdownAll_empties_registry
    (readings : nat → Z) (failing : PtyRef → bool) (steps : list Step) :
  let w := after steps (initWorld readings failing) in
  let r := shutdownAll w in
  result r = Ok tt ∧ sessions (final r) = [] ∧ heap (final r) = heap w ∧
  kills (emitted r) = (λ e, pty (heap w e.2)) <$> sessions w ∧
  spawns (emitted r) = [] ∧
  (∀ ws, exitCount ws (emitted r) =
         if bool_decide (ws ∈ allSubscribers w ∧ readyState w ws = OPEN)
         then 1%nat else 0%nat) ∧
  (∀ ws m, EvSend ws m ∈ emitted r → m = MsgExit 0) ∧
  (∀ ws, ws ∈ allSubscribers w → readyState (final r) ws ≠ OPEN).
Proof.
  intros w r. destruct (wf_reachable readings failing steps) as [Hkeys _].
  fold w in Hkeys. subst r. rewrite (shutdownAll_run w Hkeys).
  cbn [result final emitted].
  split; [done|]. split; [by destruct w|]. split; [by destruct w|].
  split; [apply kills_shutdownEvents|]. split; [apply spawns_shutdownEvents|].
  split.
  { intros ws. rewrite exitCount_shutdownEvents. apply exitCount_exitNotices. }
  split; [intros ws m; apply sends_shutdownEvents|].
  intros ws Hws. destruct w as [ss h nr rs dl el kt np tm ck]. fields.
  unfold allSubscribers in Hws. cbn [sessions heap] in Hws.
  rewrite closeAll_spec. case_bool_decide as Hc; [done|].
  intros Hopen. by apply Hc.
Qed.

(** ** Processes and listeners over the life of the server *)

Section Events.
Implicit Types (events a b : list Event) (p : PtyRef) (id : JsString).

Lemma elem_of_kills p events : p ∈ kills events ↔ EvKill p ∈ events.
Proof.
  unfold kills. rewrite list_elem_of_omap. split.
  - intros (e & He & Hp). destruct e; try discriminate. by injection Hp as ->.
  - intros He. by exists (EvKill p).
Qed.

Lemma elem_of_spawns p id events : (p, id) ∈ spawns events ↔ EvSpawn p id ∈ events.
Proof.
  unfold spawns. rewrite list_elem_of_omap. split.
  - intros (e & He & Hp). destruct e; try discriminate. by injection Hp as -> ->.
  - intros He. by exists (EvSpawn p id).
Qed.

Lemma spawns_app a b : spawns (a ++ b) = spawns a ++ spawns b.
Proof. unfold spawns. apply omap_app. Qed.

Lemma spawns_exitNotices (code : Z) (l : list WsRef) (rs : WsRef → ReadyState) :
  spawns (exitNotices code l rs) = [].
Proof.
  revert rs. induction l as [|ws l IH]; intros rs; [done|]. cbn.
  destruct (readyStateCode (rs ws) =? 1); [|done]. cbn. apply IH.
Qed.

Lemma spawns_kills_only (l : list PtyRef) : spawns (EvKill <$> l) = [].
Proof. by induction l. Qed.

End Events.

Section Footprints.
Implicit Types (w : World) (events : list Event) (username id : JsString) (ws : WsRef).

Lemma untouched_same w events : spawns events = [] → untouched w w events.
Proof. intros Hs. by repeat split. Qed.

Lemma only_destroys_same w events :
  NoDup (sessions w).*1 → spawns events = [] → only_destroys w w events.
Proof. intros Hnd Hs. repeat split; try done. by left. Qed.

Lemma only_destroys_trans w1 w2 w3 (ev1 ev2 : list Event) :
  only_destroys w1 w2 ev1 → only_destroys w2 w3 ev2 → only_destroys w1 w3 (ev1 ++ ev2).
Proof.
  intros (Hh1 & Hp1 & Hr1 & Hd1 & Hs1 & Hsub1 & Hgone1 & _)
         (Hh2 & Hp2 & Hr2 & Hd2 & Hs2 & Hsub2 & Hgone2 & Hnd).
  split; [by rewrite Hh2|]. split; [by rewrite Hp2|]. split; [by rewrite Hr2|].
  split; [by rewrite Hd2|]. split; [by rewrite spawns_app, Hs1, Hs2|].
  split; [auto|]. split; [|done].
  intros e He. rewrite kills_app, elem_of_app.
  destruct (Hgone1 e He) as [He1|Hk]; [|auto].
  destruct (Hgone2 e He1) as [He2|Hk]; [auto|]. rewrite Hh1 in Hk. auto.
Qed.

(** [cleanupSession] at most destroys the session of its identity. *)
Lemma cleanupSession_destroys username w :
  NoDup (sessions w).*1 →
  only_destroys w (final (cleanupSession username w)) (emitted (cleanupSession username w)).
Proof.
  intros Hnd. destruct (validateAndNormalizeUsername (VString username)) as [id|e] eqn:Hv.
  2:{ rewrite (cleanupSession_invalid _ _ _ Hv). by apply only_destroys_same. }
  destruct (JsMap.get id (sessions w)) as [session|] eqn:Hg.
  2:{ rewrite (cleanupSession_absent _ _ _ Hv Hg). by apply only_destroys_same. }
  rewrite (cleanupSession_present _ _ _ _ Hv Hg). cbn [final emitted].
  destruct w as [ss h nr rs dl el kt np tm ck]. unfold only_destroys. fields.
  split; [done|]. split; [done|]. split; [done|]. split; [done|].
  split; [by rewrite spawns_app, spawns_exitNotices|].
  split; [by intros e [_ He]%elem_of_delete|].
  split; [|by apply keys_delete_NoDup].
  intros [k r] He. destruct (decide (k = id)) as [->|Hne].
  - right. rewrite (get_NoDup _ _ _ Hnd He) in Hg. injection Hg as ->.
    apply elem_of_kills, elem_of_app. right. left.
  - left. by apply elem_of_delete.
Qed.

Lemma notifyExit_destroys (code : Z) ws w :
  NoDup (sessions w).*1 →
  only_destroys w (final (notifyExit code ws w)) (emitted (notifyExit code ws w)).
Proof.
  intros Hnd. destruct (decide (readyState w ws = OPEN)) as [Hopen|Hclosed].
  - rewrite (notifyExit_open _ _ _ Hopen). cbn [final emitted].
    destruct w. unfold only_destroys. fields. repeat split; try done. by left.
  - rewrite (notifyExit_not_open _ _ _ Hclosed). by apply only_destroys_same.
Qed.

(** The listeners of an 'exit' event, whatever they are, at most destroy
    sessions. *)
Lemma exitListeners_destroy (code : Z) (listeners : list ExitListener) w :
  NoDup (sessions w).*1 →
  only_destroys w (final (forEach listeners (runExitListener code) w))
    (emitted (forEach listeners (runExitListener code) w)).
Proof.
  revert w. induction listeners as [|l listeners IH]; intros w Hnd.
  - by apply only_destroys_same.
  - cbn [forEach]. unfold bind.
    assert (Hl : only_destroys w (final (runExitListener code l w))
                   (emitted (runExitListener code l w))).
    { destruct l as [id|ws]; cbn [runExitListener].
      - by apply cleanupSession_destroys.
      - by apply notifyExit_destroys. }
    destruct (runExitListener code l w) as [[[]|e] w1 ev1]; cbn [final emitted] in *;
      [|done].
    assert (Hnd1 : NoDup (sessions w1).*1) by (by destruct Hl as (_ & _ & _ & _ & _ & _ & _ & ?)).
    specialize (IH w1 Hnd1).
    destruct (forEach listeners (runExitListener code) w1) as [res w2 ev2].
    cbn [final emitted] in *. by apply (only_destroys_trans w w1 w2).
Qed.

Lemma pty_emit_exit_unfold (p : PtyRef) (code : Z) w :
  pty_emit_exit p code w =
  forEach (exitListeners w p) (runExitListener code)
    (set_exitListeners (λ ls, <[p := filter (λ l, isOnce l = false) (ls p)]> ls) w).
Proof.
  unfold pty_emit_exit. unfold bind at 1. unfold gets at 1.
  unfold bind at 1. unfold modify at 1. by destruct (forEach _ _ _).
Qed.

Lemma pty_emit_exit_destroys (p : PtyRef) (code : Z) w :
  NoDup (sessions w).*1 →
  only_destroys w (final (pty_emit_exit p code w)) (emitted (pty_emit_exit p code w)).
Proof.
  intros Hnd. rewrite pty_emit_exit_unfold.
  set (w0 := set_exitListeners _ w).
  assert (H0 : only_destroys w w0 []).
  { subst w0. destruct w. unfold only_destroys. fields. repeat split; try done. by left. }
  assert (Hnd0 : NoDup (sessions w0).*1) by (by destruct H0 as (_ & _ & _ & _ & _ & _ & _ & ?)).
  pose proof (exitListeners_destroy code (exitListeners w p) w0 Hnd0) as H1.
  by apply (only_destroys_trans w w0 _ []).
Qed.

Lemma cleanupInactiveSessions_unfold (timeoutMs : Z) w :
  keys_normalized w →
  cleanupInactiveSessions timeoutMs w =
  MkRun (Ok (length (filter (idle (heap w) (time w (clock w)) timeoutMs) (sessions w))))
    (set_sessions (filter (λ e, ¬ idle (heap w) (time w (clock w)) timeoutMs e))
       (set_clock S w))
    ((λ e, EvKill (pty (heap w e.2)))
       <$> filter (idle (heap w) (time w (clock w)) timeoutMs) (sessions w)).
Proof.
  intros [Hnd Hvalid]. unfold cleanupInactiveSessions, Date_now. unfold_M.
  unfold JsMap.keys.
  rewrite (cleanupInactiveLoop_run _ timeoutMs (sessions w) [] 0 (set_clock S w));
    [|done|done|done].
  by destruct w.
Qed.

Lemma cleanupInactiveSessions_destroys (timeoutMs : Z) w :
  keys_normalized w →
  only_destroys w (final (cleanupInactiveSessions timeoutMs w))
    (emitted (cleanupInactiveSessions timeoutMs w)).
Proof.
  intros Hkeys. pose proof Hkeys as [Hnd Hvalid].
  rewrite (cleanupInactiveSessions_unfold _ _ Hkeys). cbn [final emitted].
  destruct w as [ss h nr rs dl el kt np tm ck]. unfold only_destroys. fields.
  set (now := tm ck).
  split; [done|]. split; [done|]. split; [done|]. split; [done|].
  split.
  { rewrite (list_fmap_compose (λ e : JsString * SessRef, pty (h e.2)) EvKill).
    apply spawns_kills_only. }
  split; [by intros e [_ He]%list_elem_of_filter|]. split.
  - intros e He. destruct (decide (idle h now timeoutMs e)) as [Hidle|Hbusy].
    + right. apply elem_of_kills, list_elem_of_fmap. exists e. split; [done|].
      by apply list_elem_of_filter.
    + left. by apply list_elem_of_filter.
  - apply (sublist_NoDup _ _ Hnd), fmap_sublist, sublist_filter.
Qed.

Lemma shutdownAll_destroys w :
  keys_normalized w →
  only_destroys w (final (shutdownAll w)) (emitted (shutdownAll w)).
Proof.
  intros Hkeys. rewrite (shutdownAll_run w Hkeys). cbn [final emitted].
  pose proof (kills_shutdownEvents (heap w) (sessions w) (readyState w)) as Hk.
  pose proof (spawns_shutdownEvents (heap w) (sessions w) (readyState w)) as Hs.
  destruct w as [ss h nr rs dl el kt np tm ck]. unfold only_destroys. fields.
  split; [done|]. split; [done|]. split; [done|]. split; [done|]. split; [done|].
  split; [by intros e []%elem_of_nil|]. split; [|apply NoDup_nil_2].
  intros e He. right. rewrite Hk. apply list_elem_of_fmap. by exists e.
Qed.

End Footprints.

Section Quiet.
Implicit Types (w : World) (username id : JsString) (ws : WsRef).

Lemma discard_run {A} (m : M A) w :
  final (discard m w) = final (m w) ∧ emitted (discard m w) = emitted (m w).
Proof.
  unfold discard, bind, ret. destruct (m w) as [[a|e] w1 ev1]; [|done].
  cbn. by rewrite app_nil_r.
Qed.

Lemma hasActiveSession_quiet username w :
  final (hasActiveSession username w) = w ∧ emitted (hasActiveSession username w) = [].
Proof.
  unfold hasActiveSession. unfold_M.
  by destruct (validateAndNormalizeUsername (VString username)).
Qed.

Lemma getSession_quiet username w :
  final (getSession username w) = w ∧ emitted (getSession username w) = [].
Proof.
  unfold getSession. unfold_M.
  by destruct (validateAndNormalizeUsername (VString username)).
Qed.

Lemma untouched_heap_update w (session : SessRef) (s : PtySession) w' :
  same_outside_heap w w' →
  heap w' session = s → pty s = pty (heap w session) →
  (∀ other, other ≠ session → heap w' other = heap w other) →
  untouched w w' [].
Proof.
  intros (Hs & Hnr & _ & Hdl & _ & _ & Hnp & _) Hnew Hpty Hother.
  split; [done|]. split.
  { intros r. destruct (decide (r = session)) as [->|Hne]; [by rewrite Hnew|].
    by rewrite Hother. }
  split; [done|]. split; [done|]. split; [done|]. intros p x. by rewrite Hdl.
Qed.

Lemma attachToSession_untouched username ws w :
  untouched w (final (attachToSession username ws w))
    (emitted (attachToSession username ws w)).
Proof.
  destruct (validateAndNormalizeUsername (VString username)) as [id|e] eqn:Hv.
  2:{ unfold attachToSession. unfold_M. rewrite Hv. by apply untouched_same. }
  destruct (JsMap.get id (sessions w)) as [session|] eqn:Hg.
  2:{ rewrite (attachToSession_absent _ _ _ _ Hv Hg). by apply untouched_same. }
  destruct (decide (ws ∈ subscribers (heap w session))) as [Hin|Hin].
  { rewrite (attachToSession_known _ _ _ _ _ Hv Hg Hin). by apply untouched_same. }
  destruct (attachToSession_new _ _ _ _ _ Hv Hg Hin)
    as (w' & -> & Hsame & _ & Hnew & Hother).
  cbn [final emitted]. by apply (untouched_heap_update w session _ w' Hsame Hnew).
Qed.

Lemma detachFromSession_untouched username ws w :
  untouched w (final (detachFromSession username ws w))
    (emitted (detachFromSession username ws w)).
Proof.
  destruct (validateAndNormalizeUsername (VString username)) as [id|e] eqn:Hv.
  2:{ unfold detachFromSession. unfold_M. rewrite Hv. by apply untouched_same. }
  destruct (JsMap.get id (sessions w)) as [session|] eqn:Hg.
  2:{ rewrite (detachFromSession_absent _ _ _ _ Hv Hg). by apply untouched_same. }
  destruct (decide (ws ∈ subscribers (heap w session))) as [Hin|Hin].
  - destruct (list_elem_of_split_l _ _ Hin) as (before & rest & Hsubs & Hbefore).
    destruct (detachFromSession_first _ _ _ _ _ _ _ Hv Hg Hsubs Hbefore)
      as (w' & -> & Hsame & _ & Hnew & Hother).
    cbn [final emitted]. by apply (untouched_heap_update w session _ w' Hsame Hnew).
  - rewrite (detachFromSession_stranger _ _ _ _ _ Hv Hg Hin). by apply untouched_same.
Qed.

Lemma untouched_trans w1 w2 w3 (ev1 ev2 : list Event) :
  untouched w1 w2 ev1 → untouched w2 w3 ev2 → untouched w1 w3 (ev1 ++ ev2).
Proof.
  intros (Hs1 & Hp1 & Hn1 & Hr1 & He1 & Hd1) (Hs2 & Hp2 & Hn2 & Hr2 & He2 & Hd2).
  split; [by rewrite Hs2|]. split; [intros r; by rewrite Hp2|].
  split; [by rewrite Hn2|]. split; [by rewrite Hr2|].
  split; [by rewrite spawns_app, He1, He2|]. auto.
Qed.

Lemma ws_on_close_untouched ws (p : PtyRef) username w :
  untouched w (final (ws_on_close ws p username w)) (emitted (ws_on_close ws p username w)).
Proof.
  unfold ws_on_close, pty_removeListener_data. unfold bind, modify.
  set (w1 := set_dataListeners _ w).
  assert (H1 : untouched w w1 []).
  { subst w1. destruct w as [ss h nr rs dl el kt np tm ck]. unfold untouched. fields.
    repeat split; try done. intros q x. destruct (decide (p = q)) as [->|Hne].
    - rewrite fn_lookup_insert. by intros [_ ?]%list_elem_of_filter.
    - by rewrite fn_lookup_insert_ne. }
  pose proof (detachFromSession_untouched username ws w1) as H2.
  destruct (detachFromSession username ws w1) as [res w2 ev2]. cbn [final emitted] in *.
  by apply (untouched_trans w w1 w2 []).
Qed.

Lemma ws_on_message_untouched ws (p : PtyRef) username
    (message : option WebSocketMessage) w :
  untouched w (final (ws_on_message ws p username message w))
    (emitted (ws_on_message ws p username message w)).
Proof.
  rewrite ws_on_message_quiet. apply untouched_same.
  destruct message as [msg|]; [|done].
  destruct (decide (msg_type msg = VString (str "input"))) as [Hi|Hi].
  { rewrite (ws_on_message_input _ _ _ _ _ Hi). cbn [emitted].
    destruct (truthy _); [|done]. by destruct (sanitizeTerminalInput _). }
  destruct (decide (msg_type msg = VString (str "resize"))) as [Hr|Hr].
  { rewrite (ws_on_message_resize _ _ _ _ _ Hr). cbn [emitted].
    destruct (_ && _); [|done]. by destruct (validateTerminalDimensions _ _). }
  by rewrite (ws_on_message_other _ _ _ _ _ Hi Hr).
Qed.

Lemma pty_emit_data_untouched (p : PtyRef) (data : JsString) w :
  untouched w (final (pty_emit_data p data w)) (emitted (pty_emit_data p data w)).
Proof.
  rewrite pty_emit_data_run. cbn [final emitted]. apply untouched_same.
  by induction (filter _ _).
Qed.

Lemma getOrCreateSession_existing_untouched username id (session : SessRef) w :
  validateAndNormalizeUsername (VString username) = Ok id →
  JsMap.get id (sessions w) = Some session →
  untouched w (final (getOrCreateSession username false w))
    (emitted (getOrCreateSession username false w)).
Proof.
  intros Hv Hg. rewrite (getOrCreateSession_existing _ _ _ _ Hv Hg). cbn [final emitted].
  destruct w as [ss h nr rs dl el kt np tm ck]. unfold untouched. fields.
  repeat split; try done. intros r. destruct (decide (session = r)) as [->|Hne].
  - by rewrite fn_lookup_insert.
  - by rewrite fn_lookup_insert_ne.
Qed.

Lemma connection_rejected_untouched ws (auth : AuthOutcome) w :
  (∀ username, auth ≠ Authenticated username) →
  untouched w (final (wss_on_connection ws auth w)) (emitted (wss_on_connection ws auth w)).
Proof.
  intros Hauth. destruct auth as [| |username]; [| |by destruct (Hauth username)];
    destruct w; by repeat split.
Qed.

End Quiet.

Section StepFacts.
Implicit Types (w : World) (s : Step) (events : list Event) (username id : JsString).

Lemma registered_untouched w w' events (p : PtyRef) :
  untouched w w' events → registered w p → registered w' p.
Proof.
  intros (Hs & Hpty & _) (e & He & Hp). exists e. by rewrite Hs, Hpty.
Qed.

Lemma facts_of_untouched s w w' events : untouched w w' events → step_facts s w w' events.
Proof.
  intros Hu. pose proof Hu as (Hs & Hpty & Hnp & _ & Hspawn & Hdata).
  split; [by left|]. split.
  - intros _ p Hp. left. by apply (registered_untouched w w' events).
  - intros p ws Hin. left. by apply Hdata.
Qed.

Lemma facts_of_destroys s w w' events : only_destroys w w' events → step_facts s w w' events.
Proof.
  intros (Hh & Hnp & _ & Hdl & Hspawn & Hsub & Hgone & _).
  split; [by left|]. split.
  - intros _ p (e & He & Hp). destruct (Hgone e He) as [He'|Hk].
    + left. exists e. by rewrite Hh.
    + right. by rewrite <- Hp.
  - intros p ws Hin. left. by rewrite <- Hdl.
Qed.

(** A step that, after destroying what [ev0] tells, registers a new session
    object for [id] with a process spawned for it. *)
Lemma facts_of_spawn s w w' (ev0 tail : list Event) id (ss0 : list (JsString * SessRef)) :
  server_wf w →
  spawns ev0 = [] → spawns tail = [] →
  (isCreateSession s = false →
   JsMap.get id ss0 = None ∧
   ∀ e, e ∈ sessions w → e ∈ ss0 ∨ pty (heap w e.2) ∈ kills ev0) →
  sessions w' = JsMap.set id (nextRef w) ss0 →
  pty (heap w' (nextRef w)) = nextPty w →
  (∀ other, other ≠ nextRef w → heap w' other = heap w other) →
  nextPty w' = S (nextPty w) →
  (∀ p ws, ws ∈ dataListeners w' p →
     ws ∈ dataListeners w p ∨
     ∃ username id', s = Connection ws (Authenticated username) ∧
       validateAndNormalizeUsername (VString username) = Ok id' ∧
       p = nextPty w ∧ id' = id) →
  step_facts s w w' (ev0 ++ EvSpawn (nextPty w) id :: tail).
Proof.
  intros [_ [_ Hreg]] Hev0 Htail Hkept Hs Hpty Hother Hnp Hdata.
  assert (Hspawns : spawns (ev0 ++ EvSpawn (nextPty w) id :: tail) = [(nextPty w, id)]).
  { rewrite spawns_app, Hev0. cbn. fold (spawns tail). by rewrite Htail. }
  rewrite list.Forall_forall in Hreg.
  split; [|split].
  - right. exists id. split; [done|]. split; [done|].
    exists (id, nextRef w). split; [|done]. rewrite Hs.
    apply (get_Some_elem _ _ _ (get_set_eq ss0 id (nextRef w))).
  - intros Hs' p (e & He & Hp). destruct (Hkept Hs') as [Hnone Hold].
    destruct (Hold e He) as [He0|Hk].
    + left. exists e. split.
      * rewrite Hs, (set_absent _ _ _ Hnone). apply elem_of_app. by left.
      * rewrite Hother; [done|]. destruct (Hreg e He) as (_ & Hlt & _). lia.
    + right. rewrite kills_app, elem_of_app. left. by rewrite <- Hp.
  - intros p ws Hin. destruct (Hdata p ws Hin) as [Hold|(u & id' & -> & Hv & -> & ->)].
    + by left.
    + right. by exists u, id.
Qed.

Lemma cleanupSession_kept id w :
  validateAndNormalizeUsername (VString id) = Ok id →
  NoDup (sessions w).*1 →
  spawns (emitted (cleanupSession id w)) = [] ∧
  ∀ e, e ∈ sessions w →
    e ∈ JsMap.delete id (sessions w) ∨ pty (heap w e.2) ∈ kills (emitted (cleanupSession id w)).
Proof.
  intros Hv Hnd. destruct (JsMap.get id (sessions w)) as [session|] eqn:Hg.
  - rewrite (cleanupSession_present _ _ _ _ Hv Hg). cbn [emitted].
    split; [by rewrite spawns_app, spawns_exitNotices|].
    intros [k r] He. destruct (decide (k = id)) as [->|Hne]; [|left; by apply elem_of_delete].
    right. rewrite (get_NoDup _ _ _ Hnd He) in Hg. injection Hg as ->.
    apply elem_of_kills, elem_of_app. right. left.
  - rewrite (cleanupSession_absent _ _ _ Hv Hg). cbn [emitted]. split; [done|].
    intros [k r] He. left. apply elem_of_delete. split; [|done]. cbn. intros ->.
    apply get_None in Hg. apply Hg. apply list_elem_of_fmap. by exists (id, r).
Qed.

Lemma getOrCreateSession_true_world username id w :
  validateAndNormalizeUsername (VString username) = Ok id →
  ∃ w', getOrCreateSession username true w =
          MkRun (Ok (nextRef w)) w'
            (emitted (cleanupSession id w) ++ [EvSpawn (nextPty w) id]) ∧
    sessions w' = JsMap.set id (nextRef w) (JsMap.delete id (sessions w)) ∧
    pty (heap w' (nextRef w)) = nextPty w ∧
    (∀ other, other ≠ nextRef w → heap w' other = heap w other) ∧
    nextPty w' = S (nextPty w) ∧ dataListeners w' = dataListeners w.
Proof.
  intros Hv. pose proof (validate_idempotent _ _ Hv) as Hid.
  rewrite (getOrCreateSession_true_run _ _ _ Hv). cbv zeta.
  destruct (cleanupSession_final id id w Hid) as (rs & ->). cbn [final emitted].
  rewrite (createSession_ok _ _ _ Hid). cbn [final emitted result].
  eexists. split; [destruct w; reflexivity|].
  destruct w as [ss h nr rs0 dl el kt np tm ck]. fields.
  split; [done|]. split; [by rewrite fn_lookup_insert|]. split; [|done].
  intros other Hne. by rewrite fn_lookup_insert_ne.
Qed.

Lemma createSession_world username id w :
  validateAndNormalizeUsername (VString username) = Ok id →
  ∃ w', createSession username w = MkRun (Ok (nextRef w)) w' [EvSpawn (nextPty w) id] ∧
    sessions w' = JsMap.set id (nextRef w) (sessions w) ∧
    pty (heap w' (nextRef w)) = nextPty w ∧
    (∀ other, other ≠ nextRef w → heap w' other = heap w other) ∧
    nextPty w' = S (nextPty w) ∧ dataListeners w' = dataListeners w.
Proof.
  intros Hv. rewrite (createSession_ok _ _ _ Hv).
  eexists. split; [reflexivity|].
  destruct w as [ss h nr rs0 dl el kt np tm ck]. fields.
  split; [done|]. split; [by rewrite fn_lookup_insert|]. split; [|done].
  intros other Hne. by rewrite fn_lookup_insert_ne.
Qed.

Lemma wss_on_connection_invalid (ws : WsRef) username (e : string) w :
  validateAndNormalizeUsername (VString username) = Throw e →
  wss_on_connection ws (Authenticated username) w = MkRun (Throw e) w [].
Proof.
  intros Hv. cbn [wss_on_connection]. unfold bind at 1.
  by rewrite (getOrCreateSession_invalid _ _ _ _ Hv).
Qed.

(** What every step does to the processes and the listeners. *)
Lemma step_has_facts s w :
  server_wf w → step_facts s w (final (step s w)) (emitted (step s w)).
Proof.
  intros Hwf. pose proof Hwf as [[Hkeys _] _]. pose proof Hkeys as [Hnd _].
  destruct s as [username forceNew|username|username|username|username ws|username ws
                |username|timeoutMs| | |ws auth|ws p username message|ws p username
                |p code|p data|ws]; cbn [step].
  - (* getOrCreateSession *)
    destruct (discard_run (getOrCreateSession username forceNew) w) as [-> ->].
    destruct (validateAndNormalizeUsername (VString username)) as [id|e] eqn:Hv.
    2:{ rewrite (getOrCreateSession_invalid _ _ _ _ Hv). by apply facts_of_untouched,
          untouched_same. }
    pose proof (validate_idempotent _ _ Hv) as Hid.
    destruct (JsMap.get id (sessions w)) as [session|] eqn:Hg.
    + destruct forceNew.
      * destruct (getOrCreateSession_true_world username id w Hv)
          as (w' & -> & Hs & Hpty & Hother & Hnp & Hdl).
        cbn [final emitted]. destruct (cleanupSession_kept id w Hid Hnd) as [Hspawn Hkept].
        apply (facts_of_spawn _ w w' _ [] id (JsMap.delete id (sessions w)));
          try done.
        -- intros _. split; [apply get_delete_eq|done].
        -- intros p ws Hin. left. by rewrite <- Hdl.
      * by apply facts_of_untouched, (getOrCreateSession_existing_untouched _ id session).
    + rewrite (getOrCreateSession_absent _ _ _ _ Hv Hg).
      destruct (createSession_world id id w Hid) as (w' & -> & Hs & Hpty & Hother & Hnp & Hdl).
      cbn [final emitted].
      apply (facts_of_spawn _ w w' [] [] id (sessions w)); try done.
      -- intros _. split; [done|]. intros e He. by left.
      -- intros p ws Hin. left. by rewrite <- Hdl.
  - (* createSession, called from outside *)
    destruct (discard_run (createSession username) w) as [-> ->].
    destruct (validateAndNormalizeUsername (VString username)) as [id|e] eqn:Hv.
    2:{ unfold createSession. unfold_M. rewrite Hv. by apply facts_of_untouched,
          untouched_same. }
    destruct (createSession_world username id w Hv)
      as (w' & -> & Hs & Hpty & Hother & Hnp & Hdl).
    cbn [final emitted].
    apply (facts_of_spawn _ w w' [] [] id (sessions w)); try done.
    intros p ws Hin. left. by rewrite <- Hdl.
  - destruct (discard_run (hasActiveSession username) w) as [-> ->].
    destruct (hasActiveSession_quiet username w) as [-> ->].
    by apply facts_of_untouched, untouched_same.
  - destruct (discard_run (getSession username) w) as [-> ->].
    destruct (getSession_quiet username w) as [-> ->].
    by apply facts_of_untouched, untouched_same.
  - apply facts_of_untouched, attachToSession_untouched.
  - apply facts_of_untouched, detachFromSession_untouched.
  - by apply facts_of_destroys, cleanupSession_destroys.
  - destruct (discard_run (cleanupInactiveSessions timeoutMs) w) as [-> ->].
    by apply facts_of_destroys, cleanupInactiveSessions_destroys.
  - by apply facts_of_untouched, untouched_same.
  - by apply facts_of_destroys, shutdownAll_destroys.
  - (* a connection *)
    destruct auth as [| |username];
      [by apply facts_of_untouched, connection_rejected_untouched..|].
    destruct (validateAndNormalizeUsername (VString username)) as [id|e] eqn:Hv.
    2:{ rewrite (wss_on_connection_invalid _ _ _ _ Hv).
        by apply facts_of_untouched, untouched_same. }
    pose proof (validate_idempotent _ _ Hv) as Hid.
    destruct (wss_on_connection_run ws username id w Hv)
      as (w' & -> & Hs & Hnew & Hother & Hdl & _ & Hrest & Hnp & _).
    cbn [final emitted]. destruct (cleanupSession_kept id w Hid Hnd) as [Hspawn Hkept].
    apply (facts_of_spawn _ w w' _ [EvSend ws MsgConnected] id
             (JsMap.delete id (sessions w))); try done.
    + intros _. split; [apply get_delete_eq|done].
    + by rewrite Hs, (set_absent _ _ _ (get_delete_eq _ id)).
    + by rewrite Hnew.
    + intros q x Hin. destruct (decide (q = nextPty w)) as [->|Hne].
      * rewrite Hdl in Hin. apply elem_of_app in Hin as [Hin|Hin]; [by left|].
        apply list_elem_of_singleton in Hin as ->. right. by exists username, id.
      * left. by destruct (Hrest q Hne) as [<- _].
  - apply facts_of_untouched, ws_on_message_untouched.
  - apply facts_of_untouched, ws_on_close_untouched.
  - by apply facts_of_destroys, pty_emit_exit_destroys.
  - apply facts_of_untouched, pty_emit_data_untouched.
  - apply facts_of_untouched. destruct w. by repeat split.
Qed.

End StepFacts.

Section History.
Implicit Types (w : World) (s : Step) (steps : list Step) (p : PtyRef) (id : JsString).

Lemma after_cons s steps w : after (s :: steps) w = after steps (final (step s w)).
Proof. done. Qed.

Lemma server_step_final s w : server_wf w → server_wf (final (step s w)).
Proof. apply server_step. Qed.

(** The handles of the processes spawned are those between the counter at
    the start and the counter at the end, each spawned once. *)
Lemma trace_spawns steps w :
  server_wf w →
  (nextPty w ≤ nextPty (after steps w))%nat ∧
  (∀ p id, (p, id) ∈ spawns (trace steps w) →
           (nextPty w ≤ p < nextPty (after steps w))%nat) ∧
  NoDup (spawns (trace steps w)).*1.
Proof.
  revert w. induction steps as [|s steps IH]; intros w Hwf.
  - cbn. split; [done|]. split; [by intros p id []%elem_of_nil|apply NoDup_nil_2].
  - rewrite after_cons. cbn [trace].
    destruct (IH _ (server_step_final s w Hwf)) as (Hle & Hrange & Hnd).
    destruct (step_has_facts s w Hwf) as ([[Hnone Hnp]|(id0 & Hone & Hnp & _)] & _).
    + rewrite spawns_app, Hnone. cbn [app]. rewrite Hnp in *. done.
    + rewrite spawns_app, Hone. cbn [app]. rewrite Hnp in *.
      split; [lia|]. split.
      * intros p id [[= -> ->]|Hin]%elem_of_cons; [lia|].
        specialize (Hrange p id Hin). lia.
      * rewrite fmap_cons. apply list.NoDup_cons. split; [|done]. cbn [fst].
        intros ([p id] & Hp & Hin)%list_elem_of_fmap. cbn in Hp. subst p.
        specialize (Hrange _ id Hin). lia.
Qed.

(** A process that is registered or gets spawned is registered at the end,
    or has been killed. *)
Lemma trace_kept steps w :
  server_wf w → Forall (λ s, isCreateSession s = false) steps →
  ∀ p, registered w p ∨ p ∈ (spawns (trace steps w)).*1 →
       registered (after steps w) p ∨ p ∈ kills (trace steps w).
Proof.
  revert w. induction steps as [|s steps IH]; intros w Hwf Hsteps p.
  - cbn. intros [Hp|[]%elem_of_nil]. by left.
  - apply list.Forall_cons in Hsteps as [Hs Hsteps].
    rewrite after_cons. cbn [trace]. rewrite spawns_app, fmap_app, kills_app, !elem_of_app.
    specialize (IH _ (server_step_final s w Hwf) Hsteps p).
    destruct (step_has_facts s w Hwf) as (Hspawn & Hkept & _).
    assert (Hnow : registered w p ∨ p ∈ (spawns (emitted (step s w))).*1 →
                   registered (final (step s w)) p ∨ p ∈ kills (emitted (step s w))).
    { intros [Hp|Hp]; [by apply Hkept|].
      destruct Hspawn as [[Hnone _]|(id0 & Hone & _ & Hreg)].
      - rewrite Hnone in Hp. by apply elem_of_nil in Hp.
      - rewrite Hone in Hp. apply list_elem_of_singleton in Hp as ->. by left. }
    intros [Hp|[Hp|Hp]].
    + destruct (Hnow (or_introl Hp)) as [H1|H1]; [|tauto].
      destruct (IH (or_introl H1)); tauto.
    + destruct (Hnow (or_intror Hp)) as [H1|H1]; [|tauto].
      destruct (IH (or_introl H1)); tauto.
    + destruct (IH (or_intror Hp)); tauto.
Qed.

(** A listener of a process's output was there at the start, or is the
    socket of a connection made since, for the identity the process was
    spawned for. *)
Lemma trace_data steps w :
  server_wf w →
  ∀ p (ws : WsRef), ws ∈ dataListeners (after steps w) p →
    ws ∈ dataListeners w p ∨
    ∃ username id, Connection ws (Authenticated username) ∈ steps ∧
      validateAndNormalizeUsername (VString username) = Ok id ∧
      (p, id) ∈ spawns (trace steps w).
Proof.
  revert w. induction steps as [|s steps IH]; intros w Hwf p ws.
  - cbn. by left.
  - rewrite after_cons. cbn [trace]. rewrite spawns_app.
    intros [Hin|(u & id & Hstep & Hv & Hsp)]%(IH _ (server_step_final s w Hwf)).
    + destruct (step_has_facts s w Hwf) as (_ & _ & Hdata).
      destruct (Hdata p ws Hin) as [Hold|(u & id & -> & Hv & Hsp)]; [by left|].
      right. exists u, id. split; [left|]. split; [done|].
      rewrite Hsp. apply elem_of_app. left. left.
    + right. exists u, id. split; [by right|]. split; [done|].
      apply elem_of_app. by right.
Qed.

Lemma NoDup_fst_unique {A B} (l : list (A * B)) (k : A) (v v' : B) :
  NoDup l.*1 → (k, v) ∈ l → (k, v') ∈ l → v = v'.
Proof.
  induction l as [|[k0 v0] l IH]; [by intros _ []%elem_of_nil|].
  rewrite fmap_cons. cbn [fst]. intros [Hk Hnd]%list.NoDup_cons H1 H2.
  assert (Hfst : ∀ u, (k0, u) ∈ l → False).
  { intros u Hu. apply Hk. apply list_elem_of_fmap. by exists (k0, u). }
  apply elem_of_cons in H1 as [H1|H1]; apply elem_of_cons in H2 as [H2|H2].
  - congruence.
  - injection H1 as -> ->. by destruct (Hfst v').
  - injection H2 as -> ->. by destruct (Hfst v).
  - by apply IH.
Qed.

End History.

(** X1. The registry never loses track of a process. Whatever the server has
    done since it started - any sequence of calls of the registry, events of
    the relay and events of processes, except calls of [createSession] from
    outside the registry, which the server does not make - every process it
    has spawned is the process of a registered session, or [kill] has been
    called on it. *)
Theorem no_process_is_lost
    (readings : nat → Z) (failing : PtyRef → bool) (steps : list Step) :
  Forall (λ s, isCreateSession s = false) steps →
  let w := after steps (initWorld readings failing) in
  let history := trace steps (initWorld readings failing) in
  ∀ p id, EvSpawn p id ∈ history → registered w p ∨ EvKill p ∈ history.
Proof.
  intros Hsteps w history p id Hspawn.
  destruct (trace_kept steps (initWorld readings failing) (server_init _ _) Hsteps p)
    as [Hreg|Hkill].
  - right. apply list_elem_of_fmap. exists (p, id). split; [done|]. by apply elem_of_spawns.
  - by left.
  - right. by apply elem_of_kills.
Qed.

Lemma no_process_is_lost_witness :
  let steps := [Connection 1 (Authenticated alice); Connection 2 (Authenticated alice);
                Close 2 1 alice] in
  let w := after steps (initWorld (λ n, 1700000000000 + 1000 * Z.of_nat n) (λ _, false)) in
  let history :=
    trace steps (initWorld (λ n, 1700000000000 + 1000 * Z.of_nat n) (λ _, false)) in
  Forall (λ s, isCreateSession s = false) steps ∧
  EvSpawn 0 alice ∈ history ∧ EvSpawn 1 alice ∈ history ∧
  (registered w 0 ∨ EvKill 0 ∈ history) ∧ (registered w 1 ∨ EvKill 1 ∈ history).
Proof.
  intros steps w history.
  assert (Hsteps : Forall (λ s, isCreateSession s = false) steps) by (by repeat constructor).
  assert (H0 : EvSpawn 0 alice ∈ history) by (by apply (bool_decide_unpack _); vm_compute).
  assert (H1 : EvSpawn 1 alice ∈ history) by (by apply (bool_decide_unpack _); vm_compute).
  split; [exact Hsteps|]. split; [exact H0|]. split; [exact H1|].
  split.
  - exact (no_process_is_lost _ _ steps Hsteps 0%nat alice H0).
  - exact (no_process_is_lost _ _ steps Hsteps 1%nat alice H1).
Defined.

(** X2. The output of a process reaches only connections of the identity the
    process was spawned for. Whatever the server has done since it started,
    a message that the relay sends when process [p] produces [data] is
    [data] itself, and its socket is the socket of a connection whose token
    named a user that normalizes to the one identity [p] was spawned for. *)
Theorem output_stays_with_its_identity
    (readings : nat → Z) (failing : PtyRef → bool) (steps : list Step)
    (p : PtyRef) (data : JsString) (ws : WsRef) (m : ServerMessage) :
  let w := after steps (initWorld readings failing) in
  let history := trace steps (initWorld readings failing) in
  EvSend ws m ∈ emitted (pty_emit_data p data w) →
  m = MsgData data ∧
  ∃ username id,
    Connection ws (Authenticated username) ∈ steps ∧
    validateAndNormalizeUsername (VString username) = Ok id ∧
    EvSpawn p id ∈ history ∧
    ∀ id', EvSpawn p id' ∈ history → id' = id.
Proof.
  intros w history. rewrite pty_emit_data_run. cbn [emitted].
  intros (ws' & [= <- ->] & [_ Hin]%list_elem_of_filter)%list_elem_of_fmap.
  split; [done|].
  pose proof (server_init readings failing) as Hwf.
  destruct (trace_data steps _ Hwf p ws Hin) as [[]%elem_of_nil|(u & id & Hstep & Hv & Hsp)].
  exists u, id. split; [done|]. split; [done|]. split; [by apply elem_of_spawns|].
  intros id' Hsp'%elem_of_spawns.
  destruct (trace_spawns steps _ Hwf) as (_ & _ & Hnd).
  exact (NoDup_fst_unique _ p id' id Hnd Hsp' Hsp).
Qed.

Lemma output_stays_with_its_identity_witness :
  let steps := [Connection 1 (Authenticated alice); Connection 2 (Authenticated (str "Bob"))] in
  let w := after steps (initWorld (λ n, 1700000000000 + 1000 * Z.of_nat n) (λ _, false)) in
  let history :=
    trace steps (initWorld (λ n, 1700000000000 + 1000 * Z.of_nat n) (λ _, false)) in
  EvSend 2 (MsgData (str "hi")) ∈ emitted (pty_emit_data 1 (str "hi") w) ∧
  ∃ username id,
    Connection 2 (Authenticated username) ∈ steps ∧
    validateAndNormalizeUsername (VString username) = Ok id ∧
    EvSpawn 1 id ∈ history ∧
    ∀ id', EvSpawn 1 id' ∈ history → id' = id.
Proof.
  intros steps w history.
  assert (H : EvSend 2 (MsgData (str "hi")) ∈ emitted (pty_emit_data 1 (str "hi") w))
    by (by apply (bool_decide_unpack _); vm_compute).
  split; [exact H|].
  exact (proj2 (output_stays_with_its_identity _ _ steps 1%nat (str "hi") 2%nat _ H)).
Defined.

(** ** [createSession] called on its own *)

(** X3. [createSession] does not look for a session of the same identity.
    Called, whatever the server has done before, on an identity that has a
    session, it spawns a process and puts the new session under the key in
    place of the old one, with nothing else: no process is killed, no viewer
    gets a message or is closed, the old session object is left as it was,
    and its process is the process of no registered session any longer. (The
    registry calls it from [getOrCreateSession] once the key is absent.) *)
Theorem createSession_forgets_existing
    (readings : nat → Z) (failing : PtyRef → bool) (steps : list Step)
    (username id : JsString) (old : SessRef) :
  let w := after steps (initWorld readings failing) in
  let r := createSession username w in
  validateAndNormalizeUsername (VString username) = Ok id →
  JsMap.get id (sessions w) = Some old →
  result r = Ok (nextRef w) ∧
  emitted r = [EvSpawn (nextPty w) id] ∧
  JsMap.get id (sessions (final r)) = Some (nextRef w) ∧
  (sessions (final r)).*1 = (sessions w).*1 ∧
  pty (heap (final r) (nextRef w)) = nextPty w ∧
  subscribers (heap (final r) (nextRef w)) = [] ∧
  heap (final r) old = heap w old ∧
  old ≠ nextRef w ∧ pty (heap w old) ≠ nextPty w ∧
  ¬ registered (final r) (pty (heap w old)).
Proof.
  intros w r Hv Hget. subst r.
  pose proof (server_reachable readings failing steps) as [[[Hnd Hkeys] _] [_ Hls]].
  fold w in Hnd, Hkeys, Hls.
  pose proof (get_Some_elem _ _ _ Hget) as Hold.
  rewrite list.Forall_forall in Hls.
  destruct (Hls _ Hold) as (Hpty & Href & viewers & Hexit). cbn [fst snd] in *.
  rewrite (createSession_ok _ _ _ Hv). cbn [result emitted final].
  destruct w as [ss h nr rs0 dl el kt np tm ck] eqn:Hw. fields. cbn [fst snd] in *.
  assert (Hne : old ≠ nr) by lia.
  split; [done|]. split; [done|]. split; [apply get_set_eq|].
  split.
  { rewrite keys_set. rewrite bool_decide_true; [done|].
    apply list_elem_of_fmap. by exists (id, old). }
  rewrite fn_lookup_insert. split; [done|]. split; [done|].
  rewrite fn_lookup_insert_ne by done.
  split; [done|]. split; [done|]. split; [lia|].
  intros ([k session] & He & Hp). cbn [fst snd sessions heap] in *.
  assert (Hset : JsMap.get k (JsMap.set id nr ss) = Some session).
  { apply get_NoDup; [by apply keys_set_NoDup|done]. }
  apply elem_of_set in He as [[= -> ->]|He].
  - rewrite fn_lookup_insert in Hp. cbn in Hp. lia.
  - destruct (Hls _ He) as (_ & Href' & viewers' & Hexit'). cbn [fst snd] in *.
    rewrite fn_lookup_insert_ne in Hp by lia.
    rewrite Hp, Hexit in Hexit'. injection Hexit' as <- _.
    rewrite get_set_eq in Hset. injection Hset as <-. lia.
Qed.

Lemma createSession_forgets_existing_witness :
  let steps := [Connection 1 (Authenticated (str " Alice ")); AttachToSession alice 2] in
  let w := after steps (initWorld (λ n, 1700000000000 + 1000 * Z.of_nat n) (λ _, false)) in
  let r := createSession (str "ALICE") w in
  validateAndNormalizeUsername (VString (str "ALICE")) = Ok alice ∧
  JsMap.get alice (sessions w) = Some 0%nat ∧
  emitted r = [EvSpawn (nextPty w) alice] ∧
  heap (final r) 0 = heap w 0 ∧
  ¬ registered (final r) (pty (heap w 0)).
Proof.
  intros steps w r.
  destruct (createSession_forgets_existing
              (λ n, 1700000000000 + 1000 * Z.of_nat n) (λ _, false)
              steps (str "ALICE") alice 0 eq_refl eq_refl)
    as (_ & Hev & _ & _ & _ & _ & Hold & _ & _ & Hlost).
  split; [reflexivity|]. split; [reflexivity|]. split; [exact Hev|].
  split; [exact Hold|exact Hlost].
Defined.

(** ** The error messages of the server, and what the page does on them *)

Section Errors.

Lemma emits_ret {A} (a : A) : emitsExpected (ret a).
Proof. intros w. apply Forall_nil_2. Qed.

Lemma emits_throw {A} (e : string) : emitsExpected (throw e : M A).
Proof. intros w. apply Forall_nil_2. Qed.

Lemma emits_lift {A} (r : Result A) : emitsExpected (lift r).
Proof. intros w. apply Forall_nil_2. Qed.

Lemma emits_gets {A} (f : World → A) : emitsExpected (gets f).
Proof. intros w. apply Forall_nil_2. Qed.

Lemma emits_modify (f : World → World) : emitsExpected (modify f).
Proof. intros w. apply Forall_nil_2. Qed.

Lemma emits_Date_now : emitsExpected Date_now.
Proof. intros w. apply Forall_nil_2. Qed.

Lemma emits_emit (e : Event) : expectedEvent e = true → emitsExpected (emit e).
Proof. intros He w. cbn. by repeat constructor. Qed.

Lemma emits_bind {A B} (m : M A) (k : A → M B) :
  emitsExpected m → (∀ a, emitsExpected (k a)) → emitsExpected (bind m k).
Proof.
  intros Hm Hk w. unfold bind. specialize (Hm w).
  destruct (m w) as [[a|e] w1 ev1]; [|done]. specialize (Hk a w1).
  destruct (k a w1) as [r w2 ev2]. cbn in *. by apply Forall_app.
Qed.

Lemma emits_try_catch {A} (body : M A) (handler : string → M A) :
  emitsExpected body → (∀ e, emitsExpected (handler e)) →
  emitsExpected (try_catch body handler).
Proof.
  intros Hm Hk w. unfold try_catch. specialize (Hm w).
  destruct (body w) as [[a|e] w1 ev1]; [done|]. specialize (Hk e w1).
  destruct (handler e w1) as [r w2 ev2]. cbn in *. by apply Forall_app.
Qed.

Lemma emits_forEach {A} (l : list A) (body : A → M unit) :
  (∀ x, emitsExpected (body x)) → emitsExpected (forEach l body).
Proof.
  intros Hbody. induction l as [|x l IH]; [apply emits_ret|].
  cbn [forEach]. apply emits_bind; [apply Hbody|by intros _].
Qed.

Lemma emits_discard {A} (m : M A) : emitsExpected m → emitsExpected (discard m).
Proof. intros Hm. apply emits_bind; [done|]. intros a. apply emits_ret. Qed.

End Errors.

(** Walks through the body of a handler or a method, down to its events. *)
Ltac emits_walk :=
  repeat first
    [ assumption
    | apply emits_ret | apply emits_throw | apply emits_lift | apply emits_gets
    | apply emits_modify | apply emits_Date_now
    | apply emits_emit; reflexivity
    | apply emits_bind; [|intros ?]
    | apply emits_try_catch; [|intros ?]
    | apply emits_forEach; intros ?
    | apply emits_discard
    | match goal with
      | |- emitsExpected (match ?x with _ => _ end) => destruct x
      end
    | progress unfold notifyExit, ws_send, ws_close, pty_spawn, pty_kill, pty_write,
        pty_resize, pty_on_data, pty_removeListener_data, pty_on_exit, new_session, deref,
        assign_lastActivity, update_subscribers, cleanupSession, createSession,
        getOrCreateSession, hasActiveSession, getSession, attachToSession,
        detachFromSession, cleanupInactiveSessions, getStats, shutdownAll, dataHandler,
        exitHandler, ws_on_message, ws_on_close, wss_on_connection, runExitListener,
        pty_emit_exit, pty_emit_data, ws_peer_closing ].

Lemma emits_cleanupInactiveLoop (now timeoutMs : Z) (usernames : list JsString)
    (cleaned : nat) :
  emitsExpected (cleanupInactiveLoop now timeoutMs usernames cleaned).
Proof.
  revert cleaned. induction usernames as [|username rest IH]; intros cleaned;
    cbn [cleanupInactiveLoop]; [apply emits_ret|].
  pose proof (IH cleaned). pose proof (IH (S cleaned)). emits_walk.
Qed.

Lemma emits_step (s : Step) : emitsExpected (step s).
Proof.
  destruct s; cbn [step]; try (by emits_walk).
  emits_walk. apply emits_cleanupInactiveLoop.
Qed.

(** X9. Every error message the server sends ends the login of the page that
    receives it. In whatever state, a call of the registry, an event of the
    relay or an event of a process sends only three error texts; and on each
    of them - on [Invalid input], the answer to an input that is too large
    or not a string, as on the two about the token - [ws.onmessage] takes the
    message for an authentication error: it shows the error in the status,
    clears the stored login and reloads the page, writing nothing to the
    terminal. *)
Theorem server_errors_end_the_login
    (s : Step) (w : World) (ws : WsRef) (text : string) (terminal : bool) :
  EvSend ws (MsgError text) ∈ emitted (step s w) →
  text ∈ serverErrors ∧
  ws_onmessage terminal (MsgError text) =
    [UpdateConnectionStatus (str "error") (str "Error: " ++ str text); ClearAuth; Reload].
Proof.
  intros Hin. pose proof (emits_step s w) as Hs.
  rewrite list.Forall_forall in Hs. specialize (Hs _ Hin). cbn in Hs.
  apply bool_decide_eq_true in Hs. split; [done|].
  repeat (apply elem_of_cons in Hs as [->|Hs]; [by vm_compute|]).
  by apply elem_of_nil in Hs.
Qed.

Lemma server_errors_end_the_login_witness :
  EvSend 1 (MsgError "Invalid input")
    ∈ emitted (step (Message 1 0 alice
                       (Some (MkMessage (VString (str "input")) (VBool true)
                                VUndefined VUndefined))) twoViewers) ∧
  ws_onmessage true (MsgError "Invalid input") =
    [UpdateConnectionStatus (str "error") (str "Error: Invalid input"); ClearAuth; Reload].
Proof.
  assert (H : EvSend 1 (MsgError "Invalid input")
    ∈ emitted (step (Message 1 0 alice
                       (Some (MkMessage (VString (str "input")) (VBool true)
                                VUndefined VUndefined))) twoViewers))
    by (by apply (bool_decide_unpack _); vm_compute).
  split; [exact H|].
  exact (proj2 (server_errors_end_the_login _ twoViewers 1%nat "Invalid input" true H)).
Defined.

(** ** The routes of the sessions *)

Section Routes.
Variable validateJWT : JsString → JWTValidateResult.
Implicit Types (authHeader : option JsString) (w : World) (next : JsString → M Response).

Lemma requireJWT_bearer (token : JsString) next :
  requireJWT validateJWT (Some (str "Bearer " ++ token)) next =
  match validateJWT token with
  | JwtInvalid error =>
      ret (MkResponse 401
             (JsonError (if truthy (VString error) then error
                         else str "Invalid or expired token")))
  | JwtValid username => next username
  end.
Proof. done. Qed.

(** Without a bearer token that [validateJWT] accepts, the middleware
    answers 401 and the handler does not run. *)
Lemma requireJWT_rejects authHeader next :
  (∀ token username, authHeader = Some (str "Bearer " ++ token) →
                     validateJWT token ≠ JwtValid username) →
  ∃ error, requireJWT validateJWT authHeader next = ret (MkResponse 401 (JsonError error)).
Proof.
  intros Hno. destruct authHeader as [header|]; [|by eexists].
  unfold requireJWT.
  destruct (truthy (VString header)); cbn [negb orb]; [|by eexists].
  destruct (Js.startsWith (str "Bearer ") header) eqn:Hs; cbn [negb]; [|by eexists].
  apply startsWith_spec in Hs as [token ->].
  change (drop 7 (str "Bearer " ++ token)) with token.
  destruct (validateJWT token) as [username|error] eqn:Hjwt; [|by eexists].
  by destruct (Hno token username).
Qed.

Lemma bearer_cases authHeader :
  (∃ token username, authHeader = Some (str "Bearer " ++ token) ∧
                     validateJWT token = JwtValid username) ∨
  (∀ token username, authHeader = Some (str "Bearer " ++ token) →
                     validateJWT token ≠ JwtValid username).
Proof.
  destruct authHeader as [header|]; [|by right].
  destruct (Js.startsWith (str "Bearer ") header) eqn:Hs.
  - apply startsWith_spec in Hs as [token ->].
    destruct (validateJWT token) as [username|error] eqn:Hjwt.
    + left. by exists token, username.
    + right. intros token' username' [= <-]. by rewrite Hjwt.
  - right. intros token username [= ->].
    assert (Js.startsWith (str "Bearer ") (str "Bearer " ++ token) = true) as Hyes
      by (apply startsWith_spec; by exists token).
    destruct (eq_true_false_abs _ Hyes Hs).
Qed.

Lemma api_sessions_delete_run (token username targetUser : JsString) w :
  validateJWT token = JwtValid username →
  api_sessions_delete validateJWT (Some (str "Bearer " ++ token)) targetUser w =
  if bool_decide (username ≠ targetUser) then
    MkRun (Ok (MkResponse 403 (JsonError (str "Forbidden")))) w []
  else
    match validateAndNormalizeUsername (VString targetUser) with
    | Ok id =>
        MkRun (Ok (MkResponse 200 JsonSuccess))
          (final (cleanupSession id w)) (emitted (cleanupSession id w))
    | Throw _ => MkRun (Ok (MkResponse 500 (JsonError (str "Internal server error")))) w []
    end.
Proof.
  intros Hjwt. unfold api_sessions_delete. rewrite requireJWT_bearer, Hjwt.
  destruct (bool_decide (username ≠ targetUser)); [done|].
  destruct (validateAndNormalizeUsername (VString targetUser)) as [id|e] eqn:Hv.
  - unfold try_catch, bind. rewrite (cleanupSession_normalized _ _ _ Hv).
    destruct (JsMap.get id (sessions w)) as [session|] eqn:Hget.
    + rewrite (cleanupSession_present id id session w (validate_idempotent _ _ Hv) Hget).
      cbn. by rewrite app_nil_r.
    + by rewrite (cleanupSession_absent id id w (validate_idempotent _ _ Hv) Hget).
  - unfold try_catch, bind. by rewrite (cleanupSession_invalid _ _ _ Hv).
Qed.

Lemma api_sessions_get_run (token username : JsString) w :
  validateJWT token = JwtValid username →
  api_sessions_get validateJWT (Some (str "Bearer " ++ token)) w =
  MkRun
    (Ok match validateAndNormalizeUsername (VString username) with
        | Ok id =>
            MkResponse 200
              (JsonSessions
                 match JsMap.get id (sessions w) with
                 | Some session =>
                     [MkInfo username (created (heap w session))
                        (lastActivity (heap w session))
                        (0 <? Z.of_nat (length (subscribers (heap w session))))]
                 | None => []
                 end)
        | Throw _ => MkResponse 500 (JsonError (str "Internal server error"))
        end) w [].
Proof.
  intros Hjwt. unfold api_sessions_get. rewrite requireJWT_bearer, Hjwt.
  unfold getSession, deref. unfold_M.
  destruct (validateAndNormalizeUsername (VString username)) as [id|e]; [|done]. cbn.
  by destruct (JsMap.get id (sessions w)).
Qed.

End Routes.

(** X24. Users can delete only their own session, and only under the name of
    their token. [DELETE /api/sessions/:username] always answers. With a
    bearer token that [validateJWT] accepts for exactly the name in the path,
    and that name a valid username, it answers 200 after doing what
    [cleanupSession] does for that identity: the identity has no session
    afterwards, and the session of every other identity is still registered.
    In every other case - no or a rejected token (401), a token of another
    name, be it another spelling of the same identity (403), an invalid name
    (500) - it answers with an error and nothing has changed or been
    called. *)
Theorem delete_route_own_session_only
    (validateJWT : JsString → JWTValidateResult) (authHeader : option JsString)
    (targetUser : JsString) (w : World) :
  let r := api_sessions_delete validateJWT authHeader targetUser w in
  let authorized id :=
    ∃ token, authHeader = Some (str "Bearer " ++ token) ∧
             validateJWT token = JwtValid targetUser ∧
             validateAndNormalizeUsername (VString targetUser) = Ok id in
  (∀ id, authorized id →
     r = MkRun (Ok (MkResponse 200 JsonSuccess))
           (final (cleanupSession id w)) (emitted (cleanupSession id w)) ∧
     JsMap.get id (sessions (final r)) = None ∧
     ∀ id', id' ≠ id → JsMap.get id' (sessions (final r)) = JsMap.get id' (sessions w)) ∧
  ((∀ id, ¬ authorized id) →
     ∃ status error,
       r = MkRun (Ok (MkResponse status (JsonError error))) w [] ∧
       (status = 401 ∨ status = 403 ∨ status = 500)).
Proof.
  intros r authorized. subst r. split.
  - intros id (token & -> & Hjwt & Hv).
    rewrite (api_sessions_delete_run _ _ _ _ _ Hjwt).
    rewrite bool_decide_false by (by intros []). rewrite Hv. split; [done|].
    cbn [final]. pose proof (validate_idempotent _ _ Hv) as Hid.
    destruct (JsMap.get id (sessions w)) as [session|] eqn:Hget.
    + rewrite (cleanupSession_present id id session w Hid Hget). cbn [final].
      destruct w. fields. split; [apply get_delete_eq|].
      intros id' Hne. by apply get_delete_ne.
    + by rewrite (cleanupSession_absent id id w Hid Hget).
  - intros Hno.
    destruct (bearer_cases validateJWT authHeader) as [(token & username & -> & Hjwt)|Hrej].
    + rewrite (api_sessions_delete_run _ _ _ _ _ Hjwt).
      case_bool_decide as Hne; [exists 403, (str "Forbidden"); split; [done|tauto]|].
      subst username.
      destruct (validateAndNormalizeUsername (VString targetUser)) as [id|e] eqn:Hv.
      * destruct (Hno id). by exists token.
      * exists 500, (str "Internal server error"). split; [done|tauto].
    + destruct (requireJWT_rejects validateJWT authHeader
                  (λ requestingUser,
                     try_catch
                       (if bool_decide (requestingUser ≠ targetUser) then
                          ret (MkResponse 403 (JsonError (str "Forbidden")))
                        else cleanupSession targetUser;; ret (MkResponse 200 JsonSuccess))%M
                       (λ _, ret (MkResponse 500 (JsonError (str "Internal server error")))))
                  Hrej) as [error Herr].
      exists 401, error. unfold api_sessions_delete. rewrite Herr. split; [done|tauto].
Qed.

(** X25. Listing one's sessions reads, and nothing more. [GET /api/sessions]
    changes nothing and calls nothing - in particular it does not count as
    activity of the session. With a bearer token that [validateJWT] accepts
    it shows at most one session, the one registered for the identity of
    the token's user, under the name as the token spells it, active when it
    has a viewer; without such a token it answers 401. *)
Theorem sessions_route_reads_only
    (validateJWT : JsString → JWTValidateResult) (authHeader : option JsString) (w : World) :
  let r := api_sessions_get validateJWT authHeader w in
  final r = w ∧ emitted r = [] ∧
  (∀ token username id,
     authHeader = Some (str "Bearer " ++ token) →
     validateJWT token = JwtValid username →
     validateAndNormalizeUsername (VString username) = Ok id →
     result r =
       Ok (MkResponse 200
             (JsonSessions
                match JsMap.get id (sessions w) with
                | Some session =>
                    [MkInfo username (created (heap w session))
                       (lastActivity (heap w session))
                       (bool_decide (subscribers (heap w session) ≠ []))]
                | None => []
                end))) ∧
  ((∀ token username, authHeader = Some (str "Bearer " ++ token) →
                      validateJWT token ≠ JwtValid username) →
   ∃ error, result r = Ok (MkResponse 401 (JsonError error))).
Proof.
  intros r. subst r.
  destruct (bearer_cases validateJWT authHeader) as [(token & username & -> & Hjwt)|Hrej].
  - rewrite (api_sessions_get_run _ _ _ _ Hjwt). cbn [final emitted result].
    split; [done|]. split; [done|]. split.
    + intros token' username' id [= <-]. rewrite Hjwt. intros [= <-] ->.
      do 3 f_equal. destruct (JsMap.get id (sessions w)) as [session|]; [|done].
      do 2 f_equal. by destruct (subscribers (heap w session)).
    + intros Hno. by destruct (Hno token username).
  - destruct (requireJWT_rejects validateJWT authHeader
                (λ username,
                   try_catch
                     (session ← getSession username;
                      match session with
                      | None => ret (MkResponse 200 (JsonSessions []))
                      | Some session =>
                          s ← deref session;
                          ret (MkResponse 200
                                 (JsonSessions [MkInfo username (created s) (lastActivity s)
                                    (0 <? Z.of_nat (length (subscribers s)))]))
                      end)%M
                     (λ _, ret (MkResponse 500 (JsonError (str "Internal server error")))))
                Hrej) as [error Herr].
    unfold api_sessions_get. rewrite Herr. cbn.
    split; [done|]. split; [done|]. split; [|by exists error].
    intros token username id Hh Hjwt. by destruct (Hrej token username Hh).
Qed.

(** ** Reconnecting *)

(** X26. The page waits 1, 2, 4, 8 and 16 seconds before its first five attempts
    to reconnect, and 30 seconds before every later one: the delay never
    decreases from one failed attempt to the next, is never under a second
    and never over [maxReconnectDelay]. *)
Theorem reconnectDelay_backoff (reconnectAttempts : nat) :
  1000 ≤ reconnectDelay reconnectAttempts ≤ maxReconnectDelay ∧
  reconnectDelay reconnectAttempts ≤ reconnectDelay (S reconnectAttempts) ∧
  ((reconnectAttempts < 5)%nat →
   reconnectDelay reconnectAttempts = 1000 * 2 ^ Z.of_nat reconnectAttempts) ∧
  ((5 ≤ reconnectAttempts)%nat → reconnectDelay reconnectAttempts = 30000).
Proof.
  unfold reconnectDelay, maxReconnectDelay.
  assert (Hpos : 1 ≤ 2 ^ Z.of_nat reconnectAttempts) by (apply Z.pow_le_mono_r with (b := 0); lia).
  assert (Hnext : 2 ^ Z.of_nat (S reconnectAttempts) = 2 * 2 ^ Z.of_nat reconnectAttempts).
  { rewrite Nat2Z.inj_succ. apply Z.pow_succ_r. lia. }
  rewrite Hnext. split; [lia|]. split; [lia|]. split.
  - intros Hlt.
    assert (2 ^ Z.of_nat reconnectAttempts ≤ 2 ^ 4) by (apply Z.pow_le_mono_r; lia).
    change (2 ^ 4) with 16 in *. lia.
  - intros Hge.
    assert (2 ^ 5 ≤ 2 ^ Z.of_nat reconnectAttempts) by (apply Z.pow_le_mono_r; lia).
    change (2 ^ 5) with 32 in *. lia.
Qed.
